(** * AR-Shot: the simulation and targeting engine, and the advisor client

    A shallow embedding of [components/GeminiSlingshot.tsx] (grid model,
    match engine, target enumerator, launch and projectile physics), of the
    advisor service ([getStrategicHint] with its local fallback heuristic)
    and of the comparisons of [utils/biometrics.ts], followed by the
    properties the specification states about them and by further properties
    of the code.

    Conventions of the embedding.
    - JavaScript numbers are read as the rationals they denote ([Q]) for
      coordinates and as integers ([Z]) for rows, columns, scores and
      counters; arithmetic is exact, the rounding of IEEE doubles is not
      modelled.  A test [Math.sqrt(s) < r] with [0 <= r] is decided on the
      squares, [s < r * r]; [Math.ceil(Math.sqrt(s) / d)] is the least integer
      [k] with [s <= (k * d)^2].  Where the code meets a bound or a threshold
      exactly in this arithmetic (the length of a sub-step, the speed of a
      full pull, the similarity 0.8 of the hand scan), the statements leave
      a margin on either side of it, so that they do not depend on the last
      bits of a result.
    - [bubbles.current] is an array of objects that several routines mutate
      through references: it is a [list Bubble], and a reference to one of its
      objects is the position of that object in the list.
    - Sources of non-determinism ([Math.random], [Date.now],
      [performance.now], the network transport) are explicit inputs.
    - Services of the JavaScript runtime whose code is not part of the
      program ([Array.prototype.sort], [JSON.parse], the string-to-number
      conversion, [String.prototype.toLowerCase] and [toUpperCase]) are the
      fields of the class [Host].
    - Loops whose end is not structural ([while] over a stack or a queue)
      take a number of iterations; each comes with the lemma that the number
      it is given is enough.
    - Sound, particles, sprites and the React state that only mirrors the
      refs ([setScore], [updateAvailableColors], ...) are left out: no
      routine modelled here reads them. *)

From Stdlib Require Import ZArith QArith Qround Qabs Qpower String Ascii List Sorted Permutation
  Lia Lqa.
From stdpp Require Import gmap strings list pretty.

Local Open Scope Z_scope.

(** ** Rational helpers *)

Definition Qltb (a b : Q) : bool := negb (Qle_bool b a).

Definition Qsq (a : Q) : Q := (a * a)%Q.

(** [ceil_sqrt s] is [Math.ceil(Math.sqrt(s))] for [0 <= s]. *)
Definition ceil_sqrt (s : Q) : Z := Z.sqrt_up (Qceiling s).

Definition Qmax (a b : Q) : Q := if Qle_bool a b then b else a.
Definition Qmin (a b : Q) : Q := if Qle_bool a b then a else b.

(** ** The JavaScript host *)

Module Js.

Inductive JsNum : Type :=
| NaN
| Finite (q : Q)
| Infinite (negative : bool).

Definition isNaN (n : JsNum) : bool :=
  match n with NaN => true | _ => false end.

#[warnings="-register-all"] Inductive JsValue : Type :=
| JUndefined
| JNull
| JBool (b : bool)
| JNumber (n : JsNum)
| JString (s : string)
| JArray (items : list JsValue)
| JObject (fields : list (string * JsValue)).

Record JsError : Type := mkError { error_name : string; error_message : string }.

(** The outcome of an expression that may throw. *)
Inductive Completion (A : Type) : Type :=
| Normal (a : A)
| Throw (e : JsError).
Arguments Normal {A} a.
Arguments Throw {A} e.

#[global] Instance completion_ret : MRet Completion := fun A a => Normal a.

#[global] Instance completion_bind : MBind Completion := fun A B k m =>
  match m with
  | Normal a => k a
  | Throw e => Throw e
  end.

(** What the program takes from the runtime.  [toLowerCase] and [toUpperCase]
    are the methods of [String.prototype], which follow the case mappings of
    Unicode; these mappings remove no character, so the lower case of a string
    that is not empty is not empty. *)
Class Host : Type := {
  array_sort : forall {A : Type}, (A -> A -> Q) -> list A -> list A;
  JSON_parse : string -> Completion JsValue;
  StringToNumber : string -> JsNum;
  ObjectToNumber : JsValue -> Completion JsNum;
  toLowerCase : string -> string;
  toUpperCase : string -> string;
  toLowerCase_keeps : forall s : string, s <> "" -> toLowerCase s <> ""
}.

(** ToBoolean. *)
Definition truthy (v : JsValue) : bool :=
  match v with
  | JUndefined | JNull => false
  | JBool b => b
  | JNumber NaN => false
  | JNumber (Finite q) => negb (Qeq_bool q 0)
  | JNumber (Infinite _) => true
  | JString s => negb (String.eqb s "")
  | JArray _ | JObject _ => true
  end.

(** [a || b] on values. *)
Definition orElse (a b : JsValue) : JsValue := if truthy a then a else b.

(** [Number(v)]. *)
Definition Number `{Host} (v : JsValue) : Completion JsNum :=
  match v with
  | JUndefined => Normal NaN
  | JNull => Normal (Finite 0)
  | JBool b => Normal (Finite (if b then 1 else 0))
  | JNumber n => Normal n
  | JString s => Normal (StringToNumber s)
  | JArray _ | JObject _ => ObjectToNumber v
  end.

Fixpoint lookupField (k : string) (fields : list (string * JsValue)) : JsValue :=
  match fields with
  | [] => JUndefined
  | (k', v) :: rest => if String.eqb k k' then v else lookupField k rest
  end.

(** [v.k] for the keys the program reads, none of which is a property of a
    built-in prototype. *)
Definition getProp (v : JsValue) (k : string) : Completion JsValue :=
  match v with
  | JUndefined =>
      Throw (mkError "TypeError" ("Cannot read properties of undefined (reading '" ++ k ++ "')"))
  | JNull =>
      Throw (mkError "TypeError" ("Cannot read properties of null (reading '" ++ k ++ "')"))
  | JObject fields => Normal (lookupField k fields)
  | _ => Normal JUndefined
  end.

(** [s.includes(sub)]. *)
Definition includes (s sub : string) : bool :=
  match String.index 0 sub s with
  | Some _ => true
  | None => false
  end.

Definition upperAscii (c : ascii) : ascii :=
  let n := nat_of_ascii c in
  if ((97 <=? n) && (n <=? 122))%nat then ascii_of_nat (n - 32) else c.

Definition lowerAscii (c : ascii) : ascii :=
  let n := nat_of_ascii c in
  if ((65 <=? n) && (n <=? 90))%nat then ascii_of_nat (n + 32) else c.

Fixpoint mapString (f : ascii -> ascii) (s : string) : string :=
  match s with
  | EmptyString => EmptyString
  | String c rest => String (f c) (mapString f rest)
  end.

Definition mapString_keeps (f : ascii -> ascii) (s : string) :
  s <> "" -> mapString f s <> "" :=
  match s with
  | EmptyString => fun Hs _ => Hs eq_refl
  | String c rest => fun _ He =>
      match He in _ = t return match t with EmptyString => False | String _ _ => True end with
      | eq_refl => I
      end
  end.

(** [v.toLowerCase()]: only strings have the method. *)
Definition callToLowerCase `{Host} (v : JsValue) : Completion string :=
  match v with
  | JString s => Normal (toLowerCase s)
  | JUndefined | JNull =>
      Throw (mkError "TypeError" "Cannot read properties of undefined (reading 'toLowerCase')")
  | _ => Throw (mkError "TypeError" "json.recommendedColor.toLowerCase is not a function")
  end.

(** A stable insertion sort: one admissible [Array.prototype.sort]. *)
Fixpoint insertSorted {A} (cmp : A -> A -> Q) (x : A) (l : list A) : list A :=
  match l with
  | [] => [x]
  | y :: rest =>
      if Qltb (cmp y x) 0 then y :: insertSorted cmp x rest else x :: y :: rest
  end.

Fixpoint insertionSort {A} (cmp : A -> A -> Q) (l : list A) : list A :=
  match l with
  | [] => []
  | x :: rest => insertSorted cmp x (insertionSort cmp rest)
  end.

(** The contract assumed of [Array.prototype.sort], for any comparator,
    consistent or not: the result is a rearrangement of the input, and two
    elements that end up next to each other were compared, with an outcome
    that allows their order (merge sorts and insertion sorts, binary or not,
    all work this way). *)
Definition allowed {A} (cmp : A -> A -> Q) (u v : A) : Prop :=
  (cmp u v <= 0)%Q \/ (0 <= cmp v u)%Q.

Definition ComparisonSort (sort : forall A : Type, (A -> A -> Q) -> list A -> list A) : Prop :=
  forall (A : Type) (cmp : A -> A -> Q) (l : list A),
    Permutation (sort A cmp l) l /\ Sorted (allowed cmp) (sort A cmp l).

End Js.


(** ** The game: grid model, match engine, physics *)

Module Game.

(** *** Configuration constants *)

Definition GRAVITY : Q := 0.
Definition FRICTION : Q := 998 # 1000.
Definition BUBBLE_RADIUS : Q := 22.
(** [Math.sqrt(3)], the double nearest to the square root of three. *)
Definition MATH_SQRT_3 : Q := 3900231685776981 # 2251799813685248.
Definition ROW_HEIGHT : Q := BUBBLE_RADIUS * MATH_SQRT_3.
Definition GRID_COLS : Z := 12.
Definition MAX_ROWS_LIMIT : Z := 11.

Inductive DifficultyLevel : Type := Easy | Medium | Hard.

Record DifficultySettings : Type := mkDifficulty {
  rows : Z;
  dropInterval : Z;
  aiFrequency : Z;
  guideLength : Z
}.

Definition DIFFICULTIES (level : DifficultyLevel) : DifficultySettings :=
  match level with
  | Easy => mkDifficulty 3 8 1 60
  | Medium => mkDifficulty 5 6 1 40
  | Hard => mkDifficulty 6 4 2 15
  end.

Inductive BubbleColor : Type := Red | Blue | Green | Yellow | Purple | Orange.

#[global] Instance BubbleColor_eq_dec : EqDecision BubbleColor.
Proof. solve_decision. Defined.

(** [COLOR_CONFIG[c].points]. *)
Definition points (c : BubbleColor) : Z :=
  match c with
  | Red => 100
  | Blue => 150
  | Green => 200
  | Yellow => 250
  | Purple => 300
  | Orange => 500
  end.

(** The string a colour is in the source. *)
Definition colorKey (c : BubbleColor) : string :=
  match c with
  | Red => "red"
  | Blue => "blue"
  | Green => "green"
  | Yellow => "yellow"
  | Purple => "purple"
  | Orange => "orange"
  end.

Definition COLOR_KEYS : list BubbleColor := [Red; Blue; Green; Yellow; Purple; Orange].

Inductive PowerUp : Type := Bomb | Rainbow.

#[global] Instance PowerUp_eq_dec : EqDecision PowerUp.
Proof. solve_decision. Defined.

Record Point : Type := mkPoint { px : Q; py : Q }.

Record Bubble : Type := mkBubble {
  b_id : string;
  b_row : Z;
  b_col : Z;
  b_x : Q;
  b_y : Q;
  b_color : BubbleColor;
  b_active : bool;
  b_powerUp : option PowerUp
}.

Record TargetCandidate : Type := mkCandidate {
  t_id : string;
  t_color : string;
  t_size : Z;
  t_row : Z;
  t_col : Z;
  t_pointsPerBubble : Z;
  t_description : string;
  t_powerUp : option PowerUp
}.

Definition isBomb (b : Bubble) : bool :=
  match b_powerUp b with Some Bomb => true | _ => false end.

Definition isRainbow (b : Bubble) : bool :=
  match b_powerUp b with Some Rainbow => true | _ => false end.

(** *** Helper functions *)

(** Squared distance between two positions. *)
Definition dist2 (x1 y1 x2 y2 : Q) : Q := (Qsq (x1 - x2) + Qsq (y1 - y2))%Q.

Definition isNeighbor (b1 b2 : Bubble) : bool :=
  Qltb (dist2 (b_x b1) (b_y b1) (b_x b2) (b_y b2)) (Qsq (BUBBLE_RADIUS * (22 # 10))).

Definition getBubblePos (row col : Z) (width : Q) : Point :=
  let xOffset := ((width - inject_Z GRID_COLS * BUBBLE_RADIUS * 2) / 2 + BUBBLE_RADIUS)%Q in
  let isOdd := negb (Z.rem row 2 =? 0) in
  let x := (xOffset + inject_Z col * (BUBBLE_RADIUS * 2) + (if isOdd then BUBBLE_RADIUS else 0))%Q in
  let y := (BUBBLE_RADIUS + inject_Z row * ROW_HEIGHT)%Q in
  mkPoint x y.

(** What one call of [createBubble] draws from the environment, in the order
    of the calls: [Math.random()] for the power-up, [Date.now()] and
    [Math.random()] (as printed) for the id, [Math.random()] for the colour.
    Draws of [Math.random] lie in [0, 1). *)
Record Entropy : Type := mkEntropy {
  rand_powerUp : Q;
  date_now : Z;
  rand_id : string;
  rand_color : Q
}.

Definition createBubble (row col : Z) (width : Q) (e : Entropy) : Bubble :=
  let p := getBubblePos row col width in
  let rand := rand_powerUp e in
  let powerUp :=
    if Qltb rand (3 # 100) then Some Bomb
    else if Qltb rand (5 # 100) then Some Rainbow
    else None in
  mkBubble
    (pretty row +:+ "-" +:+ pretty col +:+ "-" +:+ pretty (date_now e) +:+ "-" +:+ rand_id e)
    row col (px p) (py p)
    (nth (Z.to_nat (Qfloor (rand_color e * inject_Z (Z.of_nat (length COLOR_KEYS))))) COLOR_KEYS Red)
    true powerUp.

(** *** The state the game loop works on (the refs of the component) *)

Record State : Type := mkState {
  bubbles : list Bubble;
  score : Z;
  ballPos : Point;
  ballVel : Point;
  anchorPos : Point;
  isFlying : bool;
  flightStartTime : Q;
  selectedColor : BubbleColor;
  shotsUntilDrop : Z;
  totalShots : Z;
  gameOver : bool;
  difficulty : DifficultyLevel;
  logicalWidth : Q;
  logicalHeight : Q;
  captureRequest : bool
}.

Definition withBoard (bs : list Bubble) (sc : Z) (st : State) : State :=
  mkState bs sc (ballPos st) (ballVel st) (anchorPos st) (isFlying st)
    (flightStartTime st) (selectedColor st) (shotsUntilDrop st) (totalShots st)
    (gameOver st) (difficulty st) (logicalWidth st) (logicalHeight st) (captureRequest st).

Definition withGameOver (g : bool) (st : State) : State :=
  mkState (bubbles st) (score st) (ballPos st) (ballVel st) (anchorPos st) (isFlying st)
    (flightStartTime st) (selectedColor st) (shotsUntilDrop st) (totalShots st)
    g (difficulty st) (logicalWidth st) (logicalHeight st) (captureRequest st).

Definition withBall (flying : bool) (pos vel : Point) (st : State) : State :=
  mkState (bubbles st) (score st) pos vel (anchorPos st) flying
    (flightStartTime st) (selectedColor st) (shotsUntilDrop st) (totalShots st)
    (gameOver st) (difficulty st) (logicalWidth st) (logicalHeight st) (captureRequest st).

Definition withShots (untilDrop total : Z) (st : State) : State :=
  mkState (bubbles st) (score st) (ballPos st) (ballVel st) (anchorPos st) (isFlying st)
    (flightStartTime st) (selectedColor st) untilDrop total
    (gameOver st) (difficulty st) (logicalWidth st) (logicalHeight st) (captureRequest st).

Definition withCaptureRequest (c : bool) (st : State) : State :=
  mkState (bubbles st) (score st) (ballPos st) (ballVel st) (anchorPos st) (isFlying st)
    (flightStartTime st) (selectedColor st) (shotsUntilDrop st) (totalShots st)
    (gameOver st) (difficulty st) (logicalWidth st) (logicalHeight st) c.

(** *** Ceiling escalation *)

(** The body of the [forEach] of [addCeilingRow] on one bubble. *)
Definition lowerBubble (width : Q) (b : Bubble) : Bubble :=
  if b_active b then
    let row' := b_row b + 1 in
    let p := getBubblePos row' (b_col b) width in
    mkBubble (b_id b) row' (b_col b) (px p) (py p) (b_color b) (b_active b) (b_powerUp b)
  else b.

(** [maxRow] after the [forEach], from the rows it has written. *)
Definition maxActiveRow (bs : list Bubble) : Z :=
  fold_left (fun maxRow b => if b_active b && (maxRow <? b_row b) then b_row b else maxRow) bs 0.

(** [ent c] is what the call [createBubble(0, c, ..)] draws. *)
Definition addCeilingRow (ent : Z -> Entropy) (st : State) : State :=
  let lowered := map (lowerBubble (logicalWidth st)) (bubbles st) in
  let maxRow := maxActiveRow lowered in
  let fresh := map (fun c => createBubble 0 c (logicalWidth st) (ent c)) (seqZ 0 GRID_COLS) in
  let st' := withBoard (lowered ++ fresh) (score st) st in
  if MAX_ROWS_LIMIT <=? maxRow then withGameOver true st' else st'.

(** *** The bomb *)

Definition deactivate (b : Bubble) : Bubble :=
  mkBubble (b_id b) (b_row b) (b_col b) (b_x b) (b_y b) (b_color b) false (b_powerUp b).

Definition inExplosion (bomb b : Bubble) : bool :=
  Qle_bool (dist2 (b_x b) (b_y b) (b_x bomb) (b_y bomb)) (Qsq (BUBBLE_RADIUS * (35 # 10))).

(** [bomb] is read for its position only, which the loop does not write. *)
Definition triggerBomb (bomb : Bubble) (st : State) : State :=
  let '(bs', destroyed) :=
    fold_left
      (fun '(seen, destroyed) b =>
         if negb (b_active b) then (seen ++ [b], destroyed)
         else if inExplosion bomb b then (seen ++ [deactivate b], destroyed + 1)
         else (seen ++ [b], destroyed))
      (bubbles st) ([], 0) in
  withBoard bs' (score st + destroyed * 50) st.

(** *** The match engine *)

(** The objects of the store, each with the reference to it. *)
Definition refs (bs : list Bubble) : list (nat * Bubble) := imap pair bs.

Definition matchesTarget (targetColor : BubbleColor) (b : Bubble) : bool :=
  bool_decide (b_color b = targetColor) || isRainbow b.

(** [bubbles.current.filter(b => b.active && !visited.has(b.id) &&
    isNeighbor(current, b))]. *)
Definition floodNeighbors (bs : list Bubble) (visited : gset string) (current : Bubble)
  : list (nat * Bubble) :=
  List.filter
    (fun r => b_active r.2 && negb (bool_decide (b_id r.2 ∈ visited)) && isNeighbor current r.2)
    (refs bs).

(** The [while] loop of [checkMatches].  [toCheck] is the stack, its top
    first; [matches] is in the order of the pushes. *)
Fixpoint floodLoop (fuel : nat) (bs : list Bubble) (targetColor : BubbleColor)
    (toCheck : list (nat * Bubble)) (visited : gset string)
    (matches : list (nat * Bubble)) : option (list (nat * Bubble)) :=
  match fuel with
  | O => None
  | S fuel' =>
      match toCheck with
      | [] => Some matches
      | current :: rest =>
          if bool_decide (b_id current.2 ∈ visited) then
            floodLoop fuel' bs targetColor rest visited matches
          else
            let visited' := visited ∪ {[ b_id current.2 ]} in
            if matchesTarget targetColor current.2 then
              let neighbors := floodNeighbors bs visited' current.2 in
              floodLoop fuel' bs targetColor (rev neighbors ++ rest) visited'
                (matches ++ [current])
            else floodLoop fuel' bs targetColor rest visited' matches
      end
  end.

(** Enough iterations for any store of this length (see
    [floodLoop_terminates]). *)
Definition floodFuel (bs : list Bubble) : nat := S (S (length bs * S (length bs))).

(** [matches] when the loop of [checkMatches(startBubble)] ends, [start]
    being the reference to [startBubble]. *)
Definition flood (bs : list Bubble) (start : nat) : list (nat * Bubble) :=
  match bs !! start with
  | Some startBubble =>
      default [] (floodLoop (floodFuel bs) bs (b_color startBubble) [(start, startBubble)] ∅ [])
  | None => []
  end.

(** [checkMatches(startBubble)]: the new state and the returned flag.  The
    start bubble is an object of the store (the caller has just pushed it). *)
Definition checkMatches (start : nat) (st : State) : State * bool :=
  match bubbles st !! start with
  | None => (st, false)
  | Some startBubble =>
      let targetColor := b_color startBubble in
      let matches := flood (bubbles st) start in
      if (3 <=? length matches)%nat then
        let basePoints := points targetColor in
        let '(bs', pts) :=
          fold_left
            (fun '(bs, pts) (m : nat * Bubble) => (alter deactivate m.1 bs, pts + basePoints))
            matches (bubbles st, 0) in
        let multiplier : Q := if (3 <? length matches)%nat then (15 # 10)%Q else 1%Q in
        (withBoard bs' (score st + Qfloor (inject_Z pts * multiplier)) st, true)
      else (st, false)
  end.

(** *** The target enumerator *)

Definition isPathClear (anchor : Point) (bs : list Bubble) (target : Bubble) : bool :=
  let startX := px anchor in
  let startY := py anchor in
  let dx := (b_x target - startX)%Q in
  let dy := (b_y target - startY)%Q in
  let steps := ceil_sqrt ((dx * dx + dy * dy) / Qsq (BUBBLE_RADIUS / 2)) in
  forallb
    (fun i =>
       let t := (inject_Z i / inject_Z steps)%Q in
       let cx := (startX + dx * t)%Q in
       let cy := (startY + dy * t)%Q in
       forallb
         (fun b =>
            negb (b_active b) || String.eqb (b_id b) (b_id target)
            || negb (Qltb (dist2 cx cy (b_x b) (b_y b)) (Qsq (BUBBLE_RADIUS * (18 # 10)))))
         bs)
    (seqZ 1 (steps - 3)).

(** [Array.from(new Set(..))]: the colours in the order of their first
    occurrence. *)
Definition uniqueColors (bs : list Bubble) : list BubbleColor :=
  fold_left
    (fun seen b => if bool_decide (b_color b ∈ seen) then seen else seen ++ [b_color b])
    bs [].

Definition inCluster (color : BubbleColor) (n : Bubble) : bool :=
  bool_decide (b_color n = color) || isRainbow n.

(** [activeBubbles.filter(n => !visited.has(n.id) && (n.color === color ||
    n.powerUp === 'rainbow') && isNeighbor(curr, n))]. *)
Definition clusterNeighbors (activeBubbles : list Bubble) (color : BubbleColor)
    (visited : gset string) (curr : Bubble) : list Bubble :=
  List.filter
    (fun n => negb (bool_decide (b_id n ∈ visited)) && inCluster color n && isNeighbor curr n)
    activeBubbles.

(** The breadth-first [while] loop of [getAllReachableClusters]. *)
Fixpoint clusterLoop (fuel : nat) (activeBubbles : list Bubble) (color : BubbleColor)
    (queue : list Bubble) (visited : gset string) (clusterMembers : list Bubble)
    (hasRainbow : bool) : option (list Bubble * gset string * bool) :=
  match fuel with
  | O => None
  | S fuel' =>
      match queue with
      | [] => Some (clusterMembers, visited, hasRainbow)
      | curr :: rest =>
          let neighbors := clusterNeighbors activeBubbles color visited curr in
          clusterLoop fuel' activeBubbles color (rest ++ neighbors)
            (visited ∪ list_to_set (b_id <$> neighbors)) (clusterMembers ++ [curr])
            (hasRainbow || existsb isRainbow neighbors)
      end
  end.

Definition clusterFuel (activeBubbles : list Bubble) : nat := S (S (length activeBubbles)).

(** [desc], from [hittableMember.x / logicalWidth.current].  Divided by
    zero, a positive [x] gives [Infinity], a negative one [-Infinity] and
    zero [NaN], of which no comparison holds. *)
Definition describe (x width : Q) : string :=
  if Qeq_bool width 0 then
    if Qltb x 0 then "Left" else if Qltb 0 x then "Right" else "Center"
  else
    let xPct := (x / width)%Q in
    if Qltb xPct (33 # 100) then "Left" else if Qltb (66 # 100) xPct then "Right" else "Center".

Definition bombCandidate (b : Bubble) : TargetCandidate :=
  mkCandidate (b_id b) "red" 10 (b_row b) (b_col b) 500 "BOMB" (Some Bomb).

Section Enumerator.
Context `{Js.Host}.

(** From the members of a cluster to its candidate: sort, find, push. *)
Definition clusterCandidate (anchor : Point) (width : Q) (bs : list Bubble)
    (color : BubbleColor) (clusterMembers : list Bubble) (hasRainbow : bool)
  : option TargetCandidate :=
  let sorted := Js.array_sort (fun a b => (b_y b - b_y a)%Q) clusterMembers in
  match List.find (isPathClear anchor bs) sorted with
  | Some hittableMember =>
      Some (mkCandidate (b_id hittableMember) (colorKey color)
              (Z.of_nat (length clusterMembers)) (b_row hittableMember) (b_col hittableMember)
              (points color) (describe (b_x hittableMember) width)
              (if hasRainbow then Some Rainbow else None))
  | None => None
  end.

(** The body of the loop over [activeBubbles], for one colour. *)
Definition visitBubble (anchor : Point) (width : Q) (bs activeBubbles : list Bubble)
    (color : BubbleColor) (acc : gset string * list TargetCandidate) (b : Bubble)
  : gset string * list TargetCandidate :=
  let '(visited, allClusters) := acc in
  if isBomb b && negb (bool_decide (b_id b ∈ visited)) then
    if isPathClear anchor bs b
    then (visited ∪ {[ b_id b ]}, allClusters ++ [bombCandidate b])
    else acc
  else if negb (bool_decide (b_color b = color)) || bool_decide (b_id b ∈ visited) then acc
  else
    match clusterLoop (clusterFuel activeBubbles) activeBubbles color [b]
            (visited ∪ {[ b_id b ]}) [] false with
    | Some (clusterMembers, visited', hasRainbow) =>
        (visited',
         match clusterCandidate anchor width bs color clusterMembers hasRainbow with
         | Some c => allClusters ++ [c]
         | None => allClusters
         end)
    | None => acc   (* not reached: [clusterLoop_from_seed] *)
    end.

Definition getAllReachableClusters (st : State) : list TargetCandidate :=
  let activeBubbles := List.filter b_active (bubbles st) in
  fold_left
    (fun allClusters color =>
       (fold_left
          (visitBubble (anchorPos st) (logicalWidth st) (bubbles st) activeBubbles color)
          activeBubbles (∅, allClusters)).2)
    (uniqueColors activeBubbles) [].

End Enumerator.

(** *** The flight of the projectile *)

Inductive Contact : Type :=
| NoContact
| Collision
| BombContact (bomb : Bubble).

(** The test of the loop over the bubbles, in a sub-step with the ball at
    [pos]. *)
Definition touches (pos : Point) (b : Bubble) : bool :=
  b_active b
  && Qltb (dist2 (px pos) (py pos) (b_x b) (b_y b)) (Qsq (BUBBLE_RADIUS * (18 # 10))).

(** [n] sub-steps of the [steps] of this frame: where the ball and its velocity
    are when the loop is left, and how it is left. *)
Fixpoint subSteps (n : nat) (steps : Z) (width : Q) (bs : list Bubble) (pos vel : Point)
  : Point * Point * Contact :=
  match n with
  | O => (pos, vel, NoContact)
  | S n' =>
      let x1 := (px pos + px vel / inject_Z steps)%Q in
      let y1 := (py pos + py vel / inject_Z steps)%Q in
      let atWall := Qltb x1 BUBBLE_RADIUS || Qltb (width - BUBBLE_RADIUS) x1 in
      let vel' := if atWall then mkPoint (px vel * -1) (py vel) else vel in
      let x2 := if atWall then Qmax BUBBLE_RADIUS (Qmin (width - BUBBLE_RADIUS) x1) else x1 in
      let pos' := mkPoint x2 y1 in
      if Qltb y1 BUBBLE_RADIUS then (pos', vel', Collision)
      else
        match List.find (touches pos') bs with
        | Some b => if isBomb b then (pos', vel', BombContact b) else (pos', vel', Collision)
        | None => subSteps n' steps width bs pos' vel'
        end
  end.

(** The cells the grid snap looks at, in the order of its two loops. *)
Definition snapCells : list (Z * Z) :=
  flat_map
    (fun r => map (fun c => (r, c))
                (seqZ 0 (if negb (Z.rem r 2 =? 0) then GRID_COLS - 1 else GRID_COLS)))
    (seqZ 0 (MAX_ROWS_LIMIT + 5)).

Record Snap : Type := mkSnap {
  bestDist2 : option Q;   (* [None] is [Infinity] *)
  bestRow : Z;
  bestCol : Z;
  bestX : Q;
  bestY : Q
}.

Definition snapStep (width : Q) (bs : list Bubble) (pos : Point) (best : Snap) (cell : Z * Z)
  : Snap :=
  let '(r, c) := cell in
  let p := getBubblePos r c width in
  let occupied := existsb (fun b => b_active b && (b_row b =? r) && (b_col b =? c)) bs in
  if occupied then best
  else
    let d := dist2 (px pos) (py pos) (px p) (py p) in
    let closer := match bestDist2 best with None => true | Some bd => Qltb d bd end in
    if closer then mkSnap (Some d) r c (px p) (py p) else best.

Definition gridSnap (width : Q) (bs : list Bubble) (pos : Point) : Snap :=
  fold_left (snapStep width bs pos) snapCells (mkSnap None 0 0 0 0).

(** The [if (collisionOccurred)] block: the ball has stopped at [ballPos st].
    [dateNow] is the [Date.now()] of the new id, [ent] feeds [addCeilingRow]. *)
Definition settle (dateNow : Z) (ent : Z -> Entropy) (st : State) : State :=
  let best := gridSnap (logicalWidth st) (bubbles st) (ballPos st) in
  let newBubble :=
    mkBubble (pretty (bestRow best) +:+ "-" +:+ pretty (bestCol best) +:+ "-" +:+ pretty dateNow)
      (bestRow best) (bestCol best) (bestX best) (bestY best) (selectedColor st) true None in
  let start := length (bubbles st) in
  let st1 :=
    withBoard (bubbles st ++ [newBubble]) (score st)
      (withBall false (ballPos st) (ballVel st) st) in
  let '(st2, matched) := checkMatches start st1 in
  let newTotal := totalShots st + 1 in
  let nextDrop := shotsUntilDrop st - 1 in
  let st3 :=
    if nextDrop <=? 0
    then withShots (dropInterval (DIFFICULTIES (difficulty st))) newTotal (addCeilingRow ent st2)
    else withShots nextDrop newTotal st2 in
  let st4 := if MAX_ROWS_LIMIT <=? bestRow best then withGameOver true st3 else st3 in
  let st5 := withBall false (anchorPos st) (mkPoint 0 0) st4 in
  if Z.rem newTotal (aiFrequency (DIFFICULTIES (difficulty st))) =? 0
  then withCaptureRequest true st5
  else st5.

(** The number of sub-steps of a frame,
    [Math.ceil(currentSpeed / (BUBBLE_RADIUS * 0.8))], in exact arithmetic.
    When the speed is within rounding of a multiple of 0.8 radius, the
    rounded quotient of the code may fall on the other side of the integer,
    and the code then makes one sub-step fewer, or more, than this number. *)
Definition frameSteps (st : State) : Z :=
  ceil_sqrt ((Qsq (px (ballVel st)) + Qsq (py (ballVel st))) / Qsq (BUBBLE_RADIUS * (8 # 10))).

(** The sub-step loop of a frame. *)
Definition flightContact (st : State) : Point * Point * Contact :=
  subSteps (Z.to_nat (frameSteps st)) (frameSteps st) (logicalWidth st) (bubbles st)
    (ballPos st) (ballVel st).

(** The physics update of one frame, [now] being [performance.now()]. *)
Definition updatePhysics (now : Q) (dateNow : Z) (ent : Z -> Entropy) (st : State) : State :=
  if negb (isFlying st) then st
  else if Qltb 5000 (now - flightStartTime st)
  then withBall false (anchorPos st) (mkPoint 0 0) st
  else
    let '(pos, vel, contact) := flightContact st in
    match contact with
    | BombContact b => withBall false (anchorPos st) (mkPoint 0 0) (triggerBomb b st)
    | _ =>
        let vel' := mkPoint (px vel * FRICTION) ((py vel + GRAVITY) * FRICTION) in
        let st1 := withBall true pos vel' st in
        let st2 := match contact with Collision => settle dateNow ent st1 | _ => st1 end in
        if Qltb (logicalHeight st2) (py (ballPos st2))
        then withBall false (anchorPos st2) (mkPoint 0 0) st2
        else st2
    end.

(** *** Launching and laying out the grid *)

Definition MAX_DRAG_DIST : Q := 180.
Definition MIN_FORCE_MULT : Q := 15 # 100.
Definition MAX_FORCE_MULT : Q := 45 # 100.

(** [velocityMultiplier] for a pull whose squared length is [stretch2]:
    [powerRatio * powerRatio] is the smaller of [stretch2 / MAX_DRAG_DIST^2]
    and 1.  The value is the exact one; the code's differs from it by the
    rounding of its operations (at a full pull it is one bit above 0.45). *)
Definition velocityMultiplier (stretch2 : Q) : Q :=
  (MIN_FORCE_MULT
   + (MAX_FORCE_MULT - MIN_FORCE_MULT) * Qmin (stretch2 / Qsq MAX_DRAG_DIST) 1)%Q.

(** [handleEnd], with [isMouseDragging] going in and out beside the state;
    [now] is [performance.now()]. *)
Definition handleEnd (now : Q) (isMouseDragging : bool) (st : State) : bool * State :=
  if negb isMouseDragging || gameOver st then (isMouseDragging, st)
  else
    let dx := (px (anchorPos st) - px (ballPos st))%Q in
    let dy := (py (anchorPos st) - py (ballPos st))%Q in
    let stretch2 := (dx * dx + dy * dy)%Q in
    if Qltb (Qsq 30) stretch2 then
      let m := velocityMultiplier stretch2 in
      (false,
       mkState (bubbles st) (score st) (ballPos st) (mkPoint (dx * m) (dy * m)) (anchorPos st)
         true now (selectedColor st) (shotsUntilDrop st) (totalShots st) (gameOver st)
         (difficulty st) (logicalWidth st) (logicalHeight st) (captureRequest st))
    else (false, st).

(** The cells of the first [n] rows, in the order of the two loops. *)
Definition gridCells (n : Z) : list (Z * Z) :=
  flat_map
    (fun r => map (fun c => (r, c))
                (seqZ 0 (if negb (Z.rem r 2 =? 0) then GRID_COLS - 1 else GRID_COLS)))
    (seqZ 0 n).

(** [initGrid(width, level)].  [keep r c] is the [Math.random()] that decides
    whether cell [(r, c)] gets a bubble, [ent r c] what [createBubble] then
    draws.  The capture request that a timer raises two seconds later is not
    part of the call. *)
Definition initGrid (keep : Z -> Z -> Q) (ent : Z -> Z -> Entropy) (width : Q)
    (level : DifficultyLevel) (st : State) : State :=
  let config := DIFFICULTIES level in
  let newBubbles :=
    flat_map
      (fun cell : Z * Z =>
         if Qltb (1 # 10) (keep cell.1 cell.2)
         then [createBubble cell.1 cell.2 width (ent cell.1 cell.2)]
         else [])
      (gridCells (rows config)) in
  mkState newBubbles 0 (ballPos st) (ballVel st) (anchorPos st) (isFlying st)
    (flightStartTime st) (selectedColor st) (dropInterval config) 0 false level
    (logicalWidth st) (logicalHeight st) (captureRequest st).

(** The release of a pinch, the [else if] branch of the hand loop; [locked]
    is [isAiThinkingRef.current]. *)
Definition releasePinch (now : Q) (locked : bool) (st : State) : State :=
  if locked then withBall (isFlying st) (anchorPos st) (ballVel st) st
  else
    let dx := (px (anchorPos st) - px (ballPos st))%Q in
    let dy := (py (anchorPos st) - py (ballPos st))%Q in
    let stretch2 := (dx * dx + dy * dy)%Q in
    if Qltb (Qsq 30) stretch2 then
      let m := velocityMultiplier stretch2 in
      mkState (bubbles st) (score st) (ballPos st) (mkPoint (dx * m) (dy * m)) (anchorPos st)
        true now (selectedColor st) (shotsUntilDrop st) (totalShots st) (gameOver st)
        (difficulty st) (logicalWidth st) (logicalHeight st) (captureRequest st)
    else withBall (isFlying st) (anchorPos st) (ballVel st) st.


End Game.

(** ** The advisor client *)

Module Advisor.
Import Js Game.

Record StrategicHint : Type := mkHint {
  message : JsValue;
  rationale : JsValue;
  targetRow : option JsNum;
  targetCol : option JsNum;
  recommendedColor : option string
}.

(** The fields of [DebugInfo] that the client computes; the screenshot, the
    prompt context and the timestamp are copied from the inputs. *)
Record DebugInfo : Type := mkDebug {
  latency : Z;
  rawResponse : string;
  parsedResponse : option JsValue;
  error : option string
}.

Record AiResponse : Type := mkResponse { hint : StrategicHint; debug : DebugInfo }.

Definition isBombTarget (t : TargetCandidate) : bool :=
  match t_powerUp t with Some Bomb => true | _ => false end.

Definition isRainbowTarget (t : TargetCandidate) : bool :=
  match t_powerUp t with Some Rainbow => true | _ => false end.

Definition targetScore (t : TargetCandidate) : Z := t_size t * t_pointsPerBubble t.

(** The comparator handed to [sort] by the fallback. *)
Definition compareTargets (a b : TargetCandidate) : Q :=
  if isBombTarget a then (-1)%Q
  else if isBombTarget b then 1%Q
  else if isRainbowTarget a then (-1)%Q
  else if isRainbowTarget b then 1%Q
  else
    let scoreA := targetScore a in
    let scoreB := targetScore b in
    if negb (scoreB =? scoreA) then inject_Z (scoreB - scoreA)
    else inject_Z (t_row a - t_row b).

Definition numberOfZ (z : Z) : JsNum := Finite (inject_Z z).

Definition hintFor `{Host} (best : TargetCandidate) : StrategicHint :=
  let message :=
    if isBombTarget best then "Fallback: TRIGGER BOMB!"
    else "Fallback: Select " +:+ toUpperCase (t_color best) +:+ " at Row " +:+ pretty (t_row best) in
  mkHint (JString message) (JString "Selected based on value and strategic priority.")
    (Some (numberOfZ (t_row best))) (Some (numberOfZ (t_col best))) (Some (t_color best)).

Definition noTargetHint (msg : string) : StrategicHint :=
  mkHint (JString msg) (JString "No valid clusters found to target.") None None None.

(** The local heuristic.  A sort returns as many elements as it is given, so
    the sorted list of a non-empty list has a first element. *)
Definition getBestLocalTarget `{Host} (validTargets : list TargetCandidate) (msg : string)
  : StrategicHint :=
  match validTargets with
  | [] => noTargetHint msg
  | _ :: _ =>
      match array_sort compareTargets validTargets with
      | best :: _ => hintFor best
      | [] => noTargetHint msg
      end
  end.

(** *** Failures of the transport *)

(** A status, as the program meets it: absent, a number or a string. *)
Inductive Status : Type :=
| NoStatus
| StatusCode (n : Z)
| StatusText (s : string).

Definition statusTruthy (s : Status) : bool :=
  match s with
  | NoStatus => false
  | StatusCode n => negb (n =? 0)
  | StatusText t => negb (String.eqb t "")
  end.

Definition statusOr (a b : Status) : Status := if statusTruthy a then a else b.

Definition statusIs (s : Status) (n : Z) : bool :=
  match s with StatusCode m => m =? n | _ => false end.

Record ErrorBody : Type := mkErrorBody {
  body_code : Status;
  body_status : Status;
  body_message : string
}.

(** What the [catch] reads of the value thrown by the transport:
    [err.status], [err.response?.status], [err.message] (empty when absent),
    [err.error] and [JSON.stringify(err)]. *)
Record ApiError : Type := mkApiError {
  err_status : Status;
  err_response_status : Status;
  err_message : string;
  err_error : option ErrorBody;
  err_json : string
}.

Definition strOr (a b : string) : string := if String.eqb a "" then b else a.

(** [status] and [msg] once the [catch] has looked at [err.error]. *)
Definition statusAndMessage (err : ApiError) : Status * string :=
  let status := statusOr (err_status err) (err_response_status err) in
  let msg := strOr (err_message err) "" in
  match err_error err with
  | Some body =>
      let status := statusOr status (body_code body) in
      let status :=
        if negb (statusTruthy status) && statusTruthy (body_status body)
        then body_status body else status in
      (status, strOr (strOr msg (body_message body)) "")
  | None => (status, msg)
  end.

Definition isQuota (err : ApiError) : bool :=
  let '(status, msg) := statusAndMessage err in
  statusIs status 429 || includes msg "429" || includes msg "Quota"
  || includes msg "RESOURCE_EXHAUSTED" || includes (err_json err) "RESOURCE_EXHAUSTED".

Definition isOverloaded (err : ApiError) : bool :=
  let '(status, msg) := statusAndMessage err in
  statusIs status 503 || includes msg "503" || includes msg "overloaded"
  || includes msg "UNAVAILABLE" || includes (err_json err) "UNAVAILABLE".

Definition statusLabel (s : Status) : string :=
  match statusOr s (StatusText "Error") with
  | StatusCode n => pretty n
  | StatusText t => t
  | NoStatus => "Error"
  end.

(** One call of [ai.models.generateContent]: a response with its [text], or
    a thrown error. *)
Inductive Attempt : Type :=
| Succeeded (text : option string)
| Failed (err : ApiError).

(** What the client does to the outside, in order. *)
Inductive Event : Type :=
| Request (i : nat)
| Sleep (ms : Z).

Inductive RetryResult : Type :=
| Responded (text : option string)
| Aborted (err : ApiError)
| Raised (err : ApiError)
| Exhausted.

Definition retries : nat := 3.

(** The [for] loop, entered at iteration [i] with [remaining] iterations to
    go. *)
Fixpoint retryLoop (transport : nat -> Attempt) (remaining i : nat) (delay : Z)
    (trace : list Event) : RetryResult * list Event :=
  match remaining with
  | O => (Exhausted, trace)
  | S remaining' =>
      let trace := trace ++ [Request i] in
      match transport i with
      | Succeeded text => (Responded text, trace)
      | Failed err =>
          if isQuota err || isOverloaded err then (Aborted err, trace)
          else if (i =? retries - 1)%nat then (Raised err, trace)
          else retryLoop transport remaining' (S i) (delay * 2) (trace ++ [Sleep delay])
      end
  end.

(** *** Validation of the response *)

Definition Math_round (q : Q) : Z := Qfloor (q + (1 # 2)).

Section Client.
Context `{Host}.

(** The body of the inner [try] after [JSON.parse]: the hint of the advisor,
    or [None] when the [if] fails. *)
Definition readHint (json : JsValue) : Completion (option StrategicHint) :=
  vr ← getProp json "targetRow";
  r ← Number vr;
  vc ← getProp json "targetCol";
  c ← Number vc;
  color ← getProp json "recommendedColor";
  if negb (isNaN r) && negb (isNaN c) && truthy color then
    m ← getProp json "message";
    rat ← getProp json "rationale";
    lower ← callToLowerCase color;
    mret (Some (mkHint (orElse m (JString "Good shot available!")) rat (Some r) (Some c)
                  (Some lower)))
  else mret None.

(** From the response of the transport to the answer of the client. *)
Definition interpretResponse (validTargets : list TargetCandidate) (responseText : option string)
    (elapsed : Z) : AiResponse :=
  let text := strOr (default "" responseText) "{}" in
  let debug := mkDebug elapsed text None None in
  let parseError (parsed : option JsValue) (e : JsError) :=
    mkResponse (getBestLocalTarget validTargets "AI response parse error")
      (mkDebug elapsed text parsed (Some ("JSON Parse Error: " +:+ error_message e))) in
  match JSON_parse text with
  | Throw e => parseError None e
  | Normal json =>
      match readHint json with
      | Throw e => parseError (Some json) e
      | Normal (Some h) => mkResponse h (mkDebug elapsed text (Some json) None)
      | Normal None =>
          mkResponse (getBestLocalTarget validTargets "AI returned invalid coordinates")
            (mkDebug elapsed text (Some json) (Some "Invalid Coordinates in JSON"))
      end
  end.

(** [getStrategicHint]: the answer and what was done to get it.  [transport i]
    is the outcome of the call of iteration [i]; [startTime] and [endTime]
    are the two readings of [performance.now()]. *)
Definition getStrategicHint (validTargets : list TargetCandidate) (transport : nat -> Attempt)
    (startTime endTime : Q) : AiResponse * list Event :=
  let elapsed := Math_round (endTime - startTime) in
  let unreachable (msg : string) :=
    mkResponse (getBestLocalTarget validTargets "AI Service Unreachable")
      (mkDebug elapsed "" None (Some (strOr msg "Unknown API Error"))) in
  let '(result, trace) := retryLoop transport retries 0 1000 [] in
  match result with
  | Aborted err =>
      (mkResponse
         (getBestLocalTarget validTargets
            (if isOverloaded err then "⚠️ Service Busy: Using Local Strategy"
             else "⚠️ Offline Mode: Quota Exceeded"))
         (mkDebug 0 "" None
            (Some (statusLabel (statusAndMessage err).1 +:+ ": Service Unavailable"))),
       trace)
  | Raised err => (unreachable (err_message err), trace)
  | Exhausted => (unreachable "Cannot read properties of undefined (reading 'text')", trace)
  | Responded text => (interpretResponse validTargets text elapsed, trace)
  end.

End Client.

(** *** A host to run the definitions on *)

Definition dquote : string := String (ascii_of_nat 34) EmptyString.

(** The text of a JSON string and of a flat JSON object. *)
Definition jsonString (s : string) : string := dquote +:+ s +:+ dquote.

Fixpoint jsonFields (fields : list (string * string)) : string :=
  match fields with
  | [] => ""
  | [(k, v)] => jsonString k +:+ ":" +:+ v
  | (k, v) :: rest => jsonString k +:+ ":" +:+ v +:+ "," +:+ jsonFields rest
  end.

Definition jsonObject (fields : list (string * string)) : string :=
  "{" +:+ jsonFields fields +:+ "}".

(** Documents an advisor may send: one without [message], one with a colour
    outside the palette and a cell off the board, one without [targetCol]. *)
Definition docNoMessage : string :=
  jsonObject [("recommendedColor", jsonString "red"); ("targetRow", "1"); ("targetCol", "2")].

Definition docOffBoard : string :=
  jsonObject [("message", jsonString "Go"); ("rationale", jsonString "r");
              ("recommendedColor", jsonString "Magenta");
              ("targetRow", "99"); ("targetCol", "-4")].

Definition docNoCol : string :=
  jsonObject [("message", jsonString "Go"); ("recommendedColor", jsonString "red");
              ("targetRow", "1")].

(** Three more: a row that is not a number, an empty colour, and a document
    that is an array. *)
Definition docBadRow : string :=
  jsonObject [("message", jsonString "Go"); ("recommendedColor", jsonString "red");
              ("targetRow", jsonString "north"); ("targetCol", "2")].

Definition docNoColour : string :=
  jsonObject [("message", jsonString "Go"); ("recommendedColor", jsonString "");
              ("targetRow", "1"); ("targetCol", "2")].

Definition docArray : string := "[1,2]".

(** A [JSON.parse] that reads these documents and the empty object as
    ECMAScript does, and rejects any other text. *)
Definition exampleParse (text : string) : Completion JsValue :=
  if String.eqb text "{}" then Normal (JObject [])
  else if String.eqb text docNoMessage
  then Normal (JObject [("recommendedColor", JString "red");
                        ("targetRow", JNumber (Finite 1));
                        ("targetCol", JNumber (Finite 2))])
  else if String.eqb text docOffBoard
  then Normal (JObject [("message", JString "Go");
                        ("rationale", JString "r");
                        ("recommendedColor", JString "Magenta");
                        ("targetRow", JNumber (Finite 99));
                        ("targetCol", JNumber (Finite (-4)))])
  else if String.eqb text docNoCol
  then Normal (JObject [("message", JString "Go");
                        ("recommendedColor", JString "red");
                        ("targetRow", JNumber (Finite 1))])
  else if String.eqb text docBadRow
  then Normal (JObject [("message", JString "Go");
                        ("recommendedColor", JString "red");
                        ("targetRow", JString "north");
                        ("targetCol", JNumber (Finite 2))])
  else if String.eqb text docNoColour
  then Normal (JObject [("message", JString "Go");
                        ("recommendedColor", JString "");
                        ("targetRow", JNumber (Finite 1));
                        ("targetCol", JNumber (Finite 2))])
  else if String.eqb text docArray
  then Normal (JArray [JNumber (Finite 1); JNumber (Finite 2)])
  else Throw (mkError "SyntaxError" "Unexpected token").

(** The insertion sort, [exampleParse], conversions that are right on the
    empty string and the empty array and take no other text or object for a
    number, and case mappings that are right on ASCII strings. *)
Definition exampleHost : Host := {|
  array_sort := @insertionSort;
  JSON_parse := exampleParse;
  StringToNumber := fun s => if String.eqb s "" then Finite 0 else NaN;
  ObjectToNumber := fun v => match v with JArray [] => Normal (Finite 0) | _ => Normal NaN end;
  toLowerCase := mapString lowerAscii;
  toUpperCase := mapString upperAscii;
  toLowerCase_keeps := mapString_keeps lowerAscii
|}.

End Advisor.

(** ** Biometrics *)

Module Biometrics.
Import Js.

(** The [ratios] of a [HandGeometry], finite numbers. *)
Definition Ratios : Type := list Q.

(** [totalDiff] after the loop of [verifyHand]; the caller has checked that
    the two arrays have the same length. *)
Definition totalDiff (stored current : Ratios) : Q :=
  fold_left (fun acc (p : Q * Q) => (acc + Qabs (p.1 - p.2))%Q) (combine stored current) 0%Q.

(** [verifyHand(stored, current)], on the ratios of the two signatures.  With
    no ratio at all the average is [0 / 0].  The similarity is the exact one;
    the code's differs from it by the rounding of the sum, of the quotient
    and of the product. *)
Definition verifyHand (stored current : Ratios) : JsNum :=
  if negb (length stored =? length current)%nat then Finite 0
  else
    match stored with
    | [] => NaN
    | _ :: _ =>
        let avgDiff := (totalDiff stored current / inject_Z (Z.of_nat (length stored)))%Q in
        Finite (Qmax 0 (1 - avgDiff * 5))
    end.

(** The test of the hand scan, [similarity > 0.8], on the exact similarity:
    for a similarity within rounding of 0.8 the code may answer otherwise. *)
Definition handAccepted (similarity : JsNum) : bool :=
  match similarity with
  | Finite q => Qltb (8 # 10) q
  | Infinite negative => negb negative
  | NaN => false
  end.

Record VoicePrint : Type := mkVoicePrint { signature : list Q; phrase : string }.

(** [sumSq] after the loop of [verifyVoice], which runs over the bands that
    both signatures have. *)
Definition sumSq (stored current : list Q) : Q :=
  fold_left (fun acc (p : Q * Q) => (acc + Qsq (p.1 - p.2))%Q) (combine stored current) 0%Q.

(** [verifyVoice(stored, current)].  [normalizePhrase] is
    [s => s.toLowerCase().replace(/[^a-z]/g, '')], a service of the runtime;
    [Math.sqrt(sumSq) < 1.5] is decided on the squares. *)
Definition verifyVoice (normalizePhrase : string -> string) (stored current : VoicePrint)
  : bool :=
  if negb (String.eqb (normalizePhrase (phrase stored)) (normalizePhrase (phrase current)))
  then false
  else Qltb (sumSq (signature stored) (signature current)) (Qsq (15 # 10)).

End Biometrics.

Import Biometrics.

Import Js Game Advisor.

(** * Vocabulary of the statements *)

(** What [triggerBomb] does to one bubble. *)
Definition blast (bomb b : Bubble) : Bubble :=
  if b_active b && inExplosion bomb b then deactivate b else b.

Definition blastCount (bomb : Bubble) (bs : list Bubble) : Z :=
  Z.of_nat (length (List.filter (fun b => b_active b && inExplosion bomb b) bs)).

Definition withinExplosion (bomb b : Bubble) : Prop :=
  (dist2 (b_x b) (b_y b) (b_x bomb) (b_y bomb) <= Qsq (BUBBLE_RADIUS * (35 # 10)))%Q.

(** The objects of the store whose id the loop has not met. *)
Definition unvisitedRefs (bs : list Bubble) (visited : gset string) : list (nat * Bubble) :=
  List.filter (fun r => negb (bool_decide (b_id r.2 ∈ visited))) (refs bs).

(** The store after [matches.forEach(b => { b.active = false; .. })]. *)
Definition popAll (matches : list (nat * Bubble)) (bs : list Bubble) : list Bubble :=
  fold_left (fun bs (m : nat * Bubble) => alter deactivate m.1 bs) matches bs.

(** The sum of [f] over the elements of a list. *)
Definition sumOver {A} (f : A -> Z) (l : list A) : Z := fold_right (fun a acc => f a + acc) 0 l.

(** What the loop of [checkMatches] keeps true when the ids of the store are
    distinct. *)
Definition floodClosure (bs : list Bubble) (targetColor : BubbleColor)
    (toCheck : list (nat * Bubble)) (visited : gset string) (matches : list (nat * Bubble))
  : Prop :=
  (forall r, r ∈ toCheck -> r ∈ refs bs)
  /\ (forall r r', r ∈ matches -> r' ∈ refs bs -> b_active r'.2 = true ->
        isNeighbor r.2 r'.2 = true -> b_id r'.2 ∈ visited \/ r' ∈ toCheck)
  /\ (forall r, r ∈ refs bs -> b_id r.2 ∈ visited -> matchesTarget targetColor r.2 = true ->
        r ∈ matches).

(** [preferred u v]: by score (size times points per bubble), then by row,
    [u] is at least as good as [v]. *)
Definition preferred (u v : TargetCandidate) : Prop :=
  t_size v * t_pointsPerBubble v < t_size u * t_pointsPerBubble u
  \/ (t_size v * t_pointsPerBubble v = t_size u * t_pointsPerBubble u /\ t_row u <= t_row v).

(** The classes of the priority order: bombs, rainbow clusters, the rest. *)
Definition priorityClass (t : TargetCandidate) : Z :=
  match t_powerUp t with
  | Some Bomb => 0
  | Some Rainbow => 1
  | None => 2
  end.

(** [outranks u v]: in the order bomb, rainbow, score, row, [u] comes no later
    than [v]. *)
Definition outranks (u v : TargetCandidate) : Prop :=
  priorityClass u < priorityClass v \/ (priorityClass u = priorityClass v /\ preferred u v).

(** C6 as the specification states it: whatever the candidates, the one the
    hint targets is first in the priority order. *)
Definition priority_order_decides : Prop :=
  forall (H : Host) (validTargets : list TargetCandidate) (msg : string),
    ComparisonSort (@array_sort H) -> validTargets <> [] ->
    exists best,
      best ∈ validTargets
      /\ getBestLocalTarget validTargets msg = hintFor best
      /\ forall t, t ∈ validTargets -> outranks best t.

(** The active bubbles whose id the scan of a colour has not met. *)
Definition unvisited (activeBubbles : list Bubble) (visited : gset string) : list Bubble :=
  List.filter (fun n => negb (bool_decide (b_id n ∈ visited))) activeBubbles.



Definition transient (err : ApiError) : Prop := isQuota err || isOverloaded err = false.

(** The first [k] calls of the transport fail, none with a quota or overload
    signal. *)
Definition transientUntil (transport : nat -> Attempt) (k : nat) : Prop :=
  forall j, (j < k)%nat -> exists err, transport j = Failed err /\ transient err.

(** The events of [k] failed calls, each followed by its wait, and of the call
    after them, the first call being call [i] and the first wait [delay]. *)
Fixpoint backoffTrace (i : nat) (delay : Z) (k : nat) : list Event :=
  match k with
  | O => [Request i]
  | S k' => Request i :: Sleep delay :: backoffTrace (S i) (delay * 2) k'
  end.

Definition requests (trace : list Event) : nat :=
  length (List.filter (fun e => match e with Request _ => true | Sleep _ => false end) trace).

(** What the loop returns when call [k] ends it, after [k] transient
    failures: the outcome of call [k], and the [k + 1] calls made with the
    waits between them. *)
Definition decided (transport : nat -> Attempt) (k : nat) : option RetryResult :=
  match transport k with
  | Succeeded text => Some (Responded text)
  | Failed err =>
      if isQuota err || isOverloaded err then Some (Aborted err)
      else if (k =? retries - 1)%nat then Some (Raised err)
      else None
  end.

(** Call [k] of the transport answers with the non-empty text [text], the
    calls before it having failed transiently. *)
Definition responds (transport : nat -> Attempt) (k : nat) (text : string) : Prop :=
  (k < retries)%nat /\ transientUntil transport k /\ transport k = Succeeded (Some text)
  /\ text <> "".

(** The answer is the local fallback, with a reason in the debug record. *)
Definition fellBack `{Host} (validTargets : list TargetCandidate) (answer : AiResponse) : Prop :=
  (hint answer = getBestLocalTarget validTargets "AI returned invalid coordinates"
   /\ error (debug answer) = Some "Invalid Coordinates in JSON")
  \/ (hint answer = getBestLocalTarget validTargets "AI response parse error"
      /\ exists reason, error (debug answer) = Some ("JSON Parse Error: " +:+ reason)).

(** C4 as the specification states it, for the document objects: a response
    that lacks one of the four fields is replaced by the local fallback. *)
Definition four_fields_required : Prop :=
  forall (H : Host) (validTargets : list TargetCandidate) (transport : nat -> Attempt)
         (startTime endTime : Q) (k : nat) (text : string) (fields : list (string * JsValue)),
    responds transport k text ->
    JSON_parse text = Normal (JObject fields) ->
    lookupField "message" fields = JUndefined
    \/ lookupField "recommendedColor" fields = JUndefined
    \/ lookupField "targetRow" fields = JUndefined
    \/ lookupField "targetCol" fields = JUndefined ->
    fellBack validTargets (getStrategicHint validTargets transport startTime endTime).1.

(** The bubble is drawn where the grid puts the cell [(row, col)]. *)
Definition placedAt (width : Q) (row col : Z) (b : Bubble) : Prop :=
  (b_x b == px (getBubblePos row col width))%Q /\ (b_y b == py (getBubblePos row col width))%Q.

(** The six cells around a cell of the offset grid. *)
Definition adjacentCells (r1 c1 r2 c2 : Z) : Prop :=
  (r2 = r1 /\ (c2 = c1 - 1 \/ c2 = c1 + 1))
  \/ ((r2 = r1 - 1 \/ r2 = r1 + 1)
      /\ if Z.odd r1 then c2 = c1 \/ c2 = c1 + 1 else c2 = c1 - 1 \/ c2 = c1).

(** [connected bs targetColor start r]: a chain of neighbours leads from the
    object [start] of the store to the object [r], every bubble after [start]
    being active and of the colour [targetColor] or a rainbow. *)
Inductive connected (bs : list Bubble) (targetColor : BubbleColor) (start : nat * Bubble)
  : nat * Bubble -> Prop :=
| connected_start : connected bs targetColor start start
| connected_step (r r' : nat * Bubble) :
    connected bs targetColor start r ->
    r' ∈ refs bs -> b_active r'.2 = true -> matchesTarget targetColor r'.2 = true ->
    isNeighbor r.2 r'.2 = true ->
    connected bs targetColor start r'.

(** [popped bs bs']: the store [bs'] is the store [bs] with some of its
    bubbles deactivated, and nothing else changed. *)
Definition popped (bs bs' : list Bubble) : Prop :=
  Forall2 (fun b b' => b' = b \/ b' = deactivate b) bs bs'.

(** No active bubble of the store is recorded at the cell. *)
Definition freeCell (bs : list Bubble) (cell : Z * Z) : Prop :=
  forall b, b ∈ bs -> b_active b = true -> (b_row b, b_col b) <> cell.

(** The squared distance from a point to the centre of a cell. *)
Definition cellDist2 (width : Q) (pos : Point) (cell : Z * Z) : Q :=
  dist2 (px pos) (py pos) (px (getBubblePos cell.1 cell.2 width))
    (py (getBubblePos cell.1 cell.2 width)).

(** What the two loops of the grid snap have found after the cells [done]:
    nothing while no cell was free, else a free cell nearest to the ball
    among the free cells of [done]. *)
Definition snapFound (width : Q) (bs : list Bubble) (pos : Point) (done : list (Z * Z))
    (best : Snap) : Prop :=
  (best = mkSnap None 0 0 0 0 /\ forall cell, cell ∈ done -> ~ freeCell bs cell)
  \/ ((bestRow best, bestCol best) ∈ done
      /\ freeCell bs (bestRow best, bestCol best)
      /\ mkPoint (bestX best) (bestY best) = getBubblePos (bestRow best) (bestCol best) width
      /\ bestDist2 best = Some (cellDist2 width pos (bestRow best, bestCol best))
      /\ forall cell, cell ∈ done -> freeCell bs cell ->
           (cellDist2 width pos (bestRow best, bestCol best) <= cellDist2 width pos cell)%Q).

(** The board is a grid: every active bubble stands at the centre of the cell
    it records, on a row that is not negative, and no two active bubbles
    record the same cell. *)
Definition wellFormed (width : Q) (bs : list Bubble) : Prop :=
  (forall b, b ∈ bs -> b_active b = true ->
     0 <= b_row b /\ placedAt width (b_row b) (b_col b) b)
  /\ (forall i j b c, bs !! i = Some b -> bs !! j = Some c ->
        b_active b = true -> b_active c = true ->
        (b_row b, b_col b) = (b_row c, b_col c) -> i = j).

(** The centre of the ball is between the walls of a container [width] wide. *)
Definition betweenWalls (width : Q) (pos : Point) : Prop :=
  (BUBBLE_RADIUS <= px pos)%Q /\ (px pos <= width - BUBBLE_RADIUS)%Q.

(** The velocity [vel'] is [vel], or [vel] mirrored by a wall. *)
Definition sameOrMirrored (vel vel' : Point) : Prop :=
  ((px vel' == px vel)%Q \/ (px vel' == - px vel)%Q) /\ py vel' = py vel.



(** The candidate [c] points at the bubble [m]: a bomb listed as such, or a
    bubble of a cluster of the colour [c] names. *)
Definition pointsAt (c : TargetCandidate) (m : Bubble) : Prop :=
  t_id c = b_id m /\ t_row c = b_row m /\ t_col c = b_col m
  /\ ((isBomb m = true /\ c = bombCandidate m)
      \/ (exists color, inCluster color m = true /\ t_color c = colorKey color
                        /\ t_pointsPerBubble c = points color /\ 1 <= t_size c
                        /\ t_powerUp c <> Some Bomb)).

(** [evolves bs bs']: every object of the store [bs] is still in [bs'], at
    the same place, with its id, colour and power-up; if it was popped it is
    unchanged, and if it is active in [bs'] it was active in [bs]. *)
Definition evolves (bs bs' : list Bubble) : Prop :=
  forall i b, bs !! i = Some b ->
    exists b', bs' !! i = Some b'
               /\ b_id b' = b_id b /\ b_color b' = b_color b /\ b_powerUp b' = b_powerUp b
               /\ (b_active b = false -> b' = b).

(** [linked activeBubbles color visited b x]: a chain of neighbours leads from
    the seed [b] to [x] through active bubbles of the colour or rainbows whose
    ids the scan had not marked when it reached the seed. *)
Inductive linked (activeBubbles : list Bubble) (color : BubbleColor) (visited : gset string)
    (b : Bubble) : Bubble -> Prop :=
| linked_seed : linked activeBubbles color visited b b
| linked_step (x y : Bubble) :
    linked activeBubbles color visited b x ->
    y ∈ activeBubbles -> b_id y ∉ visited -> inCluster color y = true ->
    isNeighbor x y = true ->
    linked activeBubbles color visited b y.

(** What the breadth-first loop keeps true, for the seed [b] and the ids
    [visited] marked before it. *)
Definition clusterInv (activeBubbles : list Bubble) (color : BubbleColor)
    (visited : gset string) (b : Bubble)
    (queue : list Bubble) (v : gset string) (members : list Bubble) (hr : bool) : Prop :=
  (forall id, id ∈ v <-> id ∈ visited \/ exists m, m ∈ queue ++ members /\ b_id m = id)
  /\ (forall x, x ∈ queue ++ members -> linked activeBubbles color visited b x)
  /\ (forall x y, x ∈ members -> y ∈ activeBubbles -> inCluster color y = true ->
        isNeighbor x y = true -> b_id y ∈ v)
  /\ NoDup (queue ++ members)
  /\ b ∈ queue ++ members
  /\ (hr = true <-> exists x, x ∈ queue ++ members /\ x <> b /\ isRainbow x = true).

(** * Boards, candidates and failures for the examples *)

(** A frame in which the ball, flying straight up, reaches a bomb that has an
    active neighbour and a distant bubble. *)
Definition bombBoard : list Bubble :=
  [ mkBubble "0-1-1-0.1" 0 1 100 22 Red true (Some Bomb);
    mkBubble "0-2-1-0.2" 0 2 144 22 Blue true None;
    mkBubble "0-9-1-0.3" 0 9 600 22 Green true None ].

Definition bombFrame : State :=
  mkState bombBoard 0 (mkPoint 100 80) (mkPoint 0 (-30)) (mkPoint 500 580) true 0 Red
    6 0 false Medium 1000 800 false.

(** A board whose lowest active bubble stands on row 10, one row above the
    limit, in a game that is not over. *)
Definition lowBoard : list Bubble :=
  [ mkBubble "10-0-1-0.5" 10 0 (px (getBubblePos 10 0 1000)) (py (getBubblePos 10 0 1000))
      Red true None;
    mkBubble "3-1-1-0.7" 3 1 (px (getBubblePos 3 1 1000)) (py (getBubblePos 3 1 1000))
      Blue false None ].

Definition lowState : State :=
  mkState lowBoard 0 (mkPoint 500 580) (mkPoint 0 0) (mkPoint 500 580) false 0 Red
    1 5 false Medium 1000 800 false.

Definition someEntropy (c : Z) : Entropy := mkEntropy (1 # 2) 7 "0.25" (1 # 2).

(** Three red bubbles side by side, a blue one far away, and the red bubble
    that has just settled next to them (the last object of the store). *)
Definition matchBoard : list Bubble :=
  [ mkBubble "0-0-1-0.1" 0 0 100 22 Red true None;
    mkBubble "0-1-1-0.2" 0 1 144 22 Red true None;
    mkBubble "0-2-1-0.3" 0 2 188 22 Red true None;
    mkBubble "0-9-1-0.4" 0 9 600 22 Blue true None;
    mkBubble "0-3-2" 0 3 232 22 Red true None ].

Definition matchState : State :=
  mkState matchBoard 1000 (mkPoint 232 60) (mkPoint 0 0) (mkPoint 500 580) false 0 Red
    6 0 false Medium 1000 800 false.

(** A red bubble settles next to a red bubble that touches a rainbow carrying
    the colour orange. *)
Definition rainbowBoard : list Bubble :=
  [ mkBubble "0-1-1-0.2" 0 1 144 22 Orange true (Some Rainbow);
    mkBubble "0-2-1-0.3" 0 2 188 22 Red true None;
    mkBubble "0-3-2" 0 3 232 22 Red true None ].

Definition rainbowState : State :=
  mkState rainbowBoard 0 (mkPoint 232 60) (mkPoint 0 0) (mkPoint 500 580) false 0 Red
    6 0 false Medium 1000 800 false.

(** The candidates of the specification's example: a bomb on row 4, an orange
    pair on row 2, six reds on row 8. *)
Definition exampleTargets : list TargetCandidate :=
  [ mkCandidate "4-3-1-0.9" "red" 10 4 3 500 "BOMB" (Some Bomb);
    mkCandidate "2-5-1-0.8" "orange" 2 2 5 500 "Center" None;
    mkCandidate "8-1-1-0.7" "red" 6 8 1 100 "Left" None ].

(** Two rainbow clusters: five oranges on row 2, worth 2500, and after them
    in the list three reds on row 5, worth 300. *)
Definition twoRainbows : list TargetCandidate :=
  [ mkCandidate "2-4-1-0.3" "orange" 5 2 4 500 "Center" (Some Rainbow);
    mkCandidate "5-1-1-0.6" "red" 3 5 1 100 "Left" (Some Rainbow) ].

(** Two oranges without power-up on row 2, worth 1000, and a rainbow cluster
    of three reds on row 5, worth 300. *)
Definition plainAndRainbow : list TargetCandidate :=
  [ mkCandidate "2-7-1-0.4" "orange" 2 2 7 500 "Right" None;
    mkCandidate "5-1-1-0.6" "red" 3 5 1 100 "Left" (Some Rainbow) ].

(** Three clusters without power-up: six reds on row 6 (600), two oranges on
    row 2 (1000), four yellows on row 1 (1000). *)
Definition plainTargets : list TargetCandidate :=
  [ mkCandidate "6-2-1-0.5" "red" 6 6 2 100 "Left" None;
    mkCandidate "2-7-1-0.4" "orange" 2 2 7 500 "Right" None;
    mkCandidate "1-4-1-0.2" "yellow" 4 1 4 250 "Center" None ].

(** A bubble on the grid of a container 1000 wide. *)
Definition gridBubble (id : string) (row col : Z) (color : BubbleColor)
    (powerUp : option PowerUp) : Bubble :=
  mkBubble id row col (px (getBubblePos row col 1000)) (py (getBubblePos row col 1000))
    color true powerUp.

(** Two red bubbles, one under the other: the upper one is hidden from the
    anchor by the lower one. *)
Definition stackedBoard : list Bubble :=
  [ gridBubble "0-5-1-0.1" 0 5 Red None; gridBubble "1-5-1-0.2" 1 5 Red None ].

(** A reachable bomb and a reachable blue bubble far from it. *)
Definition bombAndBlue : State :=
  mkState
    [ gridBubble "0-2-1-0.1" 0 2 Red (Some Bomb); gridBubble "0-9-1-0.2" 0 9 Blue None ]
    0 (mkPoint 500 580) (mkPoint 0 0) (mkPoint 500 580) false 0 Red
    6 0 false Medium 1000 800 false.

(** A reachable red bomb next to a red bubble that comes before it in the
    store. *)
Definition bombBesideRed : State :=
  mkState
    [ gridBubble "0-2-1-0.0" 0 2 Red None; gridBubble "0-3-1-0.1" 0 3 Red (Some Bomb) ]
    0 (mkPoint 500 580) (mkPoint 0 0) (mkPoint 500 580) false 0 Red
    6 0 false Medium 1000 800 false.

(** A failure that carries the status 429. *)
Definition quotaError : ApiError :=
  mkApiError (StatusCode 429) NoStatus "Too Many Requests" None "{}".

(** A blue ball flying straight up under the two red bubbles of
    [stackedBoard]: it touches the lower one in this frame. *)
Definition settlingFrame : State :=
  mkState stackedBoard 0 (mkPoint (px (getBubblePos 1 5 1000)) 110) (mkPoint 0 (-30))
    (mkPoint 500 580) true 0 Blue 6 0 false Medium 1000 800 false.

(** The sling pulled 100 pixels straight down from the anchor. *)
Definition pulledSling : State :=
  mkState stackedBoard 0 (mkPoint 500 680) (mkPoint 0 0) (mkPoint 500 580) false 0 Blue
    6 0 false Medium 1000 800 false.

(** * Properties *)

(** ** The rational helpers *)

Lemma Qltb_lt (a b : Q) : Qltb a b = true <-> (a < b)%Q.
Proof.
  unfold Qltb. rewrite negb_true_iff. split.
  - intros Hf. apply Qnot_le_lt. intros Hle. apply Qle_bool_iff in Hle. congruence.
  - intros Hlt. destruct (Qle_bool b a) eqn:E; [|reflexivity].
    apply Qle_bool_iff in E. exfalso. exact (Qlt_not_le _ _ Hlt E).
Qed.

Lemma Qltb_ge (a b : Q) : Qltb a b = false <-> (b <= a)%Q.
Proof.
  unfold Qltb. rewrite negb_false_iff. apply Qle_bool_iff.
Qed.

(** [ceil_sqrt s] is the least integer whose square reaches [s]: the ceiling
    of the square root. *)
Lemma Qsquare_nonneg (q : Q) : (0 <= q * q)%Q.
Proof.
  destruct q as [n d]. unfold Qle, Qmult. cbn [Qnum Qden]. rewrite Z.mul_1_r.
  apply Z.square_nonneg.
Qed.

Lemma ceil_sqrt_spec (s : Q) :
  (0 < s)%Q ->
  0 < ceil_sqrt s
  /\ (Qsq (inject_Z (ceil_sqrt s - 1)) < s)%Q
  /\ (s <= Qsq (inject_Z (ceil_sqrt s)))%Q.
Proof.
  intros Hs. unfold ceil_sqrt, Qsq.
  assert (Ha : 0 < Qceiling s).
  { destruct (Z_lt_le_dec 0 (Qceiling s)) as [|Hle]; [assumption|].
    exfalso. apply (Qlt_not_le _ _ Hs).
    apply Qle_trans with (inject_Z (Qceiling s)); [apply Qle_ceiling|].
    change 0%Q with (inject_Z 0). rewrite <- Zle_Qle. exact Hle. }
  pose proof (Z.sqrt_up_spec _ Ha) as [Hlo Hhi].
  pose proof (proj2 (Z.sqrt_up_pos _) Ha) as Hpos.
  split; [exact Hpos|]. split.
  - apply Qle_lt_trans with (inject_Z (Qceiling s - 1)); [|apply Qceiling_lt].
    rewrite <- inject_Z_mult, <- Zle_Qle.
    replace (Z.sqrt_up (Qceiling s) - 1) with (Z.pred (Z.sqrt_up (Qceiling s))) by lia.
    lia.
  - apply Qle_trans with (inject_Z (Qceiling s)); [apply Qle_ceiling|].
    rewrite <- inject_Z_mult, <- Zle_Qle. exact Hhi.
Qed.

Lemma ceil_sqrt_nonpos (s : Q) : (s <= 0)%Q -> ceil_sqrt s = 0.
Proof.
  intros Hs. unfold ceil_sqrt. apply Z.sqrt_up_eqn0.
  destruct (Z_lt_le_dec 0 (Qceiling s)) as [Hlt|]; [|assumption].
  exfalso. pose proof (Qceiling_lt s) as Hc.
  apply (Qlt_not_le _ _ Hc). apply Qle_trans with 0%Q; [assumption|].
  change 0%Q with (inject_Z 0). rewrite <- Zle_Qle. lia.
Qed.

(** ** The bomb *)

Lemma triggerBomb_fold (bomb : Bubble) (bs : list Bubble) :
  forall (seen : list Bubble) (destroyed : Z),
    fold_left
      (fun '(seen, destroyed) b =>
         if negb (b_active b) then (seen ++ [b], destroyed)
         else if inExplosion bomb b then (seen ++ [deactivate b], destroyed + 1)
         else (seen ++ [b], destroyed))
      bs (seen, destroyed)
    = (seen ++ map (blast bomb) bs, destroyed + blastCount bomb bs).
Proof.
  induction bs as [|b bs IH]; intros seen destroyed.
  - unfold blastCount. simpl. rewrite app_nil_r, Z.add_0_r. reflexivity.
  - cbn [fold_left map].
    assert (Hc : blastCount bomb (b :: bs)
                 = (if b_active b && inExplosion bomb b then 1 else 0) + blastCount bomb bs).
    { unfold blastCount. simpl.
      destruct (b_active b && inExplosion bomb b); simpl length;
        generalize (length (List.filter (fun b0 => b_active b0 && inExplosion bomb b0) bs));
        intros n; lia. }
    rewrite Hc. pose proof (eq_refl (blast bomb b)) as Hb. unfold blast at 2 in Hb.
    destruct (b_active b); cbn [negb andb] in *; [destruct (inExplosion bomb b)|];
      rewrite IH, <- app_assoc, Hb; cbn [app]; f_equal; lia.
Qed.

Lemma triggerBomb_board (bomb : Bubble) (st : State) :
  bubbles (triggerBomb bomb st) = map (blast bomb) (bubbles st)
  /\ score (triggerBomb bomb st) = score st + blastCount bomb (bubbles st) * 50.
Proof.
  unfold triggerBomb. rewrite triggerBomb_fold. simpl. split; [reflexivity|lia].
Qed.

Lemma inExplosion_le (bomb b : Bubble) :
  inExplosion bomb b = true
  <-> (dist2 (b_x b) (b_y b) (b_x bomb) (b_y bomb) <= Qsq (BUBBLE_RADIUS * (35 # 10)))%Q.
Proof. unfold inExplosion. apply Qle_bool_iff. Qed.

Lemma find_some_elem {A} (f : A -> bool) (l : list A) (x : A) :
  List.find f l = Some x -> x ∈ l /\ f x = true.
Proof.
  intros Hf. apply find_some in Hf as [Hin Hfx]. split; [|exact Hfx].
  apply list_elem_of_In. exact Hin.
Qed.

Lemma subSteps_bomb (n : nat) (steps : Z) (width : Q) (bs : list Bubble) :
  forall (pos vel pos' vel' : Point) (bomb : Bubble),
    subSteps n steps width bs pos vel = (pos', vel', BombContact bomb) ->
    bomb ∈ bs /\ touches pos' bomb = true /\ isBomb bomb = true.
Proof.
  induction n as [|n IH]; intros pos vel pos' vel' bomb; simpl; [discriminate|].
  destruct (Qltb _ BUBBLE_RADIUS) eqn:Etop; [discriminate|].
  match goal with |- context [List.find ?f bs] => destruct (List.find f bs) as [b|] eqn:Ef end.
  - destruct (isBomb b) eqn:Eb; [|discriminate].
    intros Heq. injection Heq as <- <- <-.
    apply find_some_elem in Ef as [Hin Ht]. auto.
  - apply IH.
Qed.

(** C7. When the flying projectile touches a bomb, every active bubble within
    3.5 bubble radii of the bomb is deactivated whatever its colour, every
    other bubble is left as it was, the score grows by 50 for each bubble
    destroyed, and the projectile is back at the anchor, at rest and not
    flying, with no bubble added to the store. *)
Theorem bomb_hit_clears_radius (now : Q) (dateNow : Z) (ent : Z -> Entropy) (st : State)
    (pos vel : Point) (bomb : Bubble) :
  isFlying st = true ->
  (now - flightStartTime st <= 5000)%Q ->
  flightContact st = (pos, vel, BombContact bomb) ->
  let st' := updatePhysics now dateNow ent st in
  (bomb ∈ bubbles st /\ b_active bomb = true /\ isBomb bomb = true)
  /\ (forall i b, bubbles st !! i = Some b -> b_active b = true -> withinExplosion bomb b ->
        bubbles st' !! i = Some (deactivate b))
  /\ (forall i b, bubbles st !! i = Some b -> b_active b = false \/ ~ withinExplosion bomb b ->
        bubbles st' !! i = Some b)
  /\ length (bubbles st') = length (bubbles st)
  /\ score st' = score st + blastCount bomb (bubbles st) * 50
  /\ isFlying st' = false
  /\ ballPos st' = anchorPos st
  /\ ballVel st' = mkPoint 0 0.
Proof.
  intros Hfly Htime Hcontact st'.
  assert (Hst' : st' = withBall false (anchorPos st) (mkPoint 0 0) (triggerBomb bomb st)).
  { subst st'. unfold updatePhysics. rewrite Hfly. cbn [negb].
    apply Qltb_ge in Htime. rewrite Htime, Hcontact. reflexivity. }
  destruct (triggerBomb_board bomb st) as [Hbs Hscore].
  assert (Hbs' : bubbles st' = map (blast bomb) (bubbles st)).
  { rewrite Hst'. exact Hbs. }
  split.
  { unfold flightContact in Hcontact. apply subSteps_bomb in Hcontact as (Hin & Ht & Hb).
    unfold touches in Ht. apply andb_true_iff in Ht as [Ha _]. auto. }
  split.
  { intros i b Hi Ha Hw. rewrite Hbs', list_lookup_fmap, Hi. cbn.
    unfold blast. apply inExplosion_le in Hw. rewrite Ha, Hw. reflexivity. }
  split.
  { intros i b Hi Hor. rewrite Hbs', list_lookup_fmap, Hi. cbn. unfold blast.
    destruct Hor as [Ha|Hw]; [rewrite Ha; reflexivity|].
    destruct (inExplosion bomb b) eqn:E; [|rewrite andb_false_r; reflexivity].
    exfalso. apply Hw. apply inExplosion_le. exact E. }
  split; [rewrite Hbs'; apply length_map|].
  split; [rewrite Hst'; exact Hscore|].
  rewrite Hst'. auto.
Qed.

Lemma bomb_hit_clears_radius_witness :
  let st' := updatePhysics 1000 1 (fun _ => mkEntropy 0 0 "" 0) bombFrame in
  bubbles st' !! 1%nat = Some (mkBubble "0-2-1-0.2" 0 2 144 22 Blue false None)
  /\ bubbles st' !! 2%nat = Some (mkBubble "0-9-1-0.3" 0 9 600 22 Green true None)
  /\ length (bubbles st') = 3%nat
  /\ score st' = 100
  /\ ballPos st' = mkPoint 500 580.
Proof.
  destruct (bomb_hit_clears_radius 1000 1 (fun _ => mkEntropy 0 0 "" 0) bombFrame
              (mkPoint (400 # 4) (200 # 4)) (mkPoint 0 (-30))
              (mkBubble "0-1-1-0.1" 0 1 100 22 Red true (Some Bomb)))
    as (_ & Hin & Hout & Hlen & Hscore & _ & Hpos & _).
  - reflexivity.
  - apply Qle_bool_iff. reflexivity.
  - vm_compute. reflexivity.
  - intros st'. split.
    { apply (Hin 1%nat (mkBubble "0-2-1-0.2" 0 2 144 22 Blue true None));
        [reflexivity|reflexivity|]. apply Qle_bool_iff. reflexivity. }
    split.
    { apply (Hout 2%nat (mkBubble "0-9-1-0.3" 0 9 600 22 Green true None)); [reflexivity|].
      right. intros Hw. apply Qle_bool_iff in Hw. vm_compute in Hw. discriminate. }
    split; [exact Hlen|]. split; [exact Hscore|exact Hpos].
Defined.

(** ** Ceiling escalation *)

Lemma maxActiveRow_fold (k : Z) (bs : list Bubble) :
  forall m0 : Z,
    k <= fold_left (fun maxRow b => if b_active b && (maxRow <? b_row b) then b_row b else maxRow)
           bs m0
    <-> k <= m0 \/ exists b, b ∈ bs /\ b_active b = true /\ k <= b_row b.
Proof.
  induction bs as [|b bs IH]; intros m0; cbn [fold_left].
  - split; [auto|]. intros [H|(b & Hb & _)]; [exact H|]. inversion Hb.
  - rewrite IH. split.
    + intros [H|(b' & Hin & Ha & Hk)].
      * destruct (b_active b) eqn:Ea; cbn [andb] in H; [|auto].
        destruct (m0 <? b_row b) eqn:El; [|auto].
        right. exists b. split; [left|auto].
      * right. exists b'. split; [right; exact Hin|auto].
    + intros [H|(b' & Hin & Ha & Hk)].
      * left. destruct (b_active b && (m0 <? b_row b)) eqn:E; [|exact H].
        apply andb_true_iff in E as [_ El]. apply Z.ltb_lt in El. lia.
      * apply elem_of_cons in Hin as [->|Hin].
        -- left. rewrite Ha. cbn [andb].
           destruct (m0 <? b_row b) eqn:El; [exact Hk|]. apply Z.ltb_ge in El. lia.
        -- right. exists b'. auto.
Qed.

Lemma maxActiveRow_limit (bs : list Bubble) :
  MAX_ROWS_LIMIT <= maxActiveRow bs
  <-> exists b, b ∈ bs /\ b_active b = true /\ MAX_ROWS_LIMIT <= b_row b.
Proof.
  unfold maxActiveRow. rewrite maxActiveRow_fold. split; [|auto].
  intros [H|H]; [|exact H]. unfold MAX_ROWS_LIMIT in H. lia.
Qed.

Lemma createBubble_cell (row col : Z) (width : Q) (e : Entropy) :
  b_row (createBubble row col width e) = row
  /\ b_col (createBubble row col width e) = col
  /\ b_active (createBubble row col width e) = true
  /\ mkPoint (b_x (createBubble row col width e)) (b_y (createBubble row col width e))
     = getBubblePos row col width.
Proof.
  unfold createBubble. cbn [b_row b_col b_active b_x b_y].
  destruct (getBubblePos row col width). auto.
Qed.

(** C8. Ceiling escalation moves every active bubble down by exactly one row
    (and to the pixel position of its new cell), leaves the popped ones alone,
    appends one new active bubble for each of the twelve columns of row 0,
    and, in a game that was not over, ends the game exactly when an active
    bubble now stands on a row at or beyond the limit. *)
Theorem ceiling_escalation (ent : Z -> Entropy) (st : State) :
  gameOver st = false ->
  let st' := addCeilingRow ent st in
  let width := logicalWidth st in
  (forall i b, bubbles st !! i = Some b -> b_active b = true ->
      bubbles st' !! i
      = Some (mkBubble (b_id b) (b_row b + 1) (b_col b)
                (px (getBubblePos (b_row b + 1) (b_col b) width))
                (py (getBubblePos (b_row b + 1) (b_col b) width))
                (b_color b) true (b_powerUp b)))
  /\ (forall i b, bubbles st !! i = Some b -> b_active b = false -> bubbles st' !! i = Some b)
  /\ length (bubbles st') = (length (bubbles st) + Z.to_nat GRID_COLS)%nat
  /\ (forall c, 0 <= c < GRID_COLS ->
        exists b', bubbles st' !! (length (bubbles st) + Z.to_nat c)%nat = Some b'
                   /\ b' = createBubble 0 c width (ent c)
                   /\ b_row b' = 0 /\ b_col b' = c /\ b_active b' = true)
  /\ (gameOver st' = true
      <-> exists b', b' ∈ bubbles st' /\ b_active b' = true /\ MAX_ROWS_LIMIT <= b_row b').
Proof.
  intros Hover st' width.
  set (lowered := map (lowerBubble width) (bubbles st)).
  set (fresh := map (fun c => createBubble 0 c width (ent c)) (seqZ 0 GRID_COLS)).
  assert (Hbs : bubbles st' = lowered ++ fresh).
  { subst st'. unfold addCeilingRow. fold width. fold lowered. fold fresh.
    destruct (MAX_ROWS_LIMIT <=? maxActiveRow lowered); reflexivity. }
  assert (Hgo : gameOver st' = (MAX_ROWS_LIMIT <=? maxActiveRow lowered)).
  { subst st'. unfold addCeilingRow. fold width. fold lowered. fold fresh.
    destruct (MAX_ROWS_LIMIT <=? maxActiveRow lowered); cbn; [reflexivity|exact Hover]. }
  assert (Hlen : length lowered = length (bubbles st)) by apply length_map.
  assert (Hlow : forall i b, bubbles st !! i = Some b ->
                   bubbles st' !! i = Some (lowerBubble width b)).
  { intros i b Hi. rewrite Hbs, lookup_app_l.
    - subst lowered. rewrite list_lookup_fmap, Hi. reflexivity.
    - rewrite Hlen. apply lookup_lt_Some in Hi. exact Hi. }
  split.
  { intros i b Hi Ha. rewrite (Hlow i b Hi). unfold lowerBubble. rewrite Ha. reflexivity. }
  split.
  { intros i b Hi Ha. rewrite (Hlow i b Hi). unfold lowerBubble. rewrite Ha. reflexivity. }
  split.
  { rewrite Hbs, length_app, Hlen. subst fresh. rewrite length_map, length_seqZ. reflexivity. }
  split.
  { intros c Hc. exists (createBubble 0 c width (ent c)).
    destruct (createBubble_cell 0 c width (ent c)) as (Hr & Hcol & Ha & _).
    split; [|auto].
    rewrite Hbs, lookup_app_r by lia. rewrite Hlen.
    replace (length (bubbles st) + Z.to_nat c - length (bubbles st))%nat with (Z.to_nat c) by lia.
    subst fresh. rewrite list_lookup_fmap.
    rewrite (lookup_seqZ_lt 0 GRID_COLS (Z.to_nat c)) by lia. cbn.
    do 3 f_equal; lia. }
  rewrite Hgo, Z.leb_le, maxActiveRow_limit, Hbs. split.
  - intros (b & Hin & Ha & Hr). exists b. split; [apply elem_of_app; left; exact Hin|auto].
  - intros (b & Hin & Ha & Hr). apply elem_of_app in Hin as [Hin|Hin].
    + exists b. auto.
    + exfalso. subst fresh. apply list_elem_of_fmap in Hin as (c & -> & _).
      destruct (createBubble_cell 0 c width (ent c)) as (Hr0 & _).
      rewrite Hr0 in Hr. unfold MAX_ROWS_LIMIT in Hr. lia.
Qed.

Lemma ceiling_escalation_witness :
  let st' := addCeilingRow someEntropy lowState in
  gameOver st' = true
  /\ b_row <$> bubbles st' !! 0%nat = Some 11
  /\ bubbles st' !! 1%nat = Some (mkBubble "3-1-1-0.7" 3 1 (px (getBubblePos 3 1 1000))
                                    (py (getBubblePos 3 1 1000)) Blue false None)
  /\ length (bubbles st') = 14%nat.
Proof.
  destruct (ceiling_escalation someEntropy lowState eq_refl) as (Hact & Hin & Hlen & _ & Hover).
  intros st'. split.
  { apply Hover.
    exists (mkBubble "10-0-1-0.5" 11 0 (px (getBubblePos 11 0 1000))
              (py (getBubblePos 11 0 1000)) Red true None).
    split; [|split; [reflexivity|cbn [b_row]; unfold MAX_ROWS_LIMIT; lia]].
    apply list_elem_of_lookup. exists 0%nat. reflexivity. }
  split.
  { subst st'. rewrite (Hact 0%nat _ eq_refl eq_refl). reflexivity. }
  split; [apply (Hin 1%nat); reflexivity|exact Hlen].
Defined.

(** ** The match engine *)

Lemma elem_of_refs (bs : list Bubble) (i : nat) (b : Bubble) :
  (i, b) ∈ refs bs <-> bs !! i = Some b.
Proof.
  unfold refs. rewrite elem_of_lookup_imap. split.
  - intros (j & y & Heq & Hj). injection Heq as -> ->. exact Hj.
  - intros Hi. exists i, b. auto.
Qed.

Lemma elem_of_filter_bool {A} (f : A -> bool) (l : list A) (x : A) :
  x ∈ List.filter f l <-> x ∈ l /\ f x = true.
Proof. rewrite !list_elem_of_In. apply filter_In. Qed.

Lemma elem_of_rev {A} (l : list A) (x : A) : x ∈ rev l <-> x ∈ l.
Proof. rewrite !list_elem_of_In. symmetry. apply in_rev. Qed.

Lemma elem_of_floodNeighbors (bs : list Bubble) (visited : gset string) (current : Bubble)
    (r : nat * Bubble) :
  r ∈ floodNeighbors bs visited current
  <-> r ∈ refs bs /\ b_active r.2 = true /\ (b_id r.2 ∉ visited)
      /\ isNeighbor current r.2 = true.
Proof.
  unfold floodNeighbors. rewrite elem_of_filter_bool.
  rewrite 2!andb_true_iff. rewrite negb_true_iff, bool_decide_eq_false. tauto.
Qed.

(** An invariant of the loop of [checkMatches] holds when the loop ends. *)
Lemma floodLoop_invariant (bs : list Bubble) (targetColor : BubbleColor)
    (I : list (nat * Bubble) -> gset string -> list (nat * Bubble) -> Prop) :
  (forall current rest visited matches,
      I (current :: rest) visited matches -> b_id current.2 ∈ visited ->
      I rest visited matches) ->
  (forall current rest visited matches,
      I (current :: rest) visited matches -> b_id current.2 ∉ visited ->
      matchesTarget targetColor current.2 = true ->
      I (rev (floodNeighbors bs (visited ∪ {[ b_id current.2 ]}) current.2) ++ rest)
        (visited ∪ {[ b_id current.2 ]}) (matches ++ [current])) ->
  (forall current rest visited matches,
      I (current :: rest) visited matches -> b_id current.2 ∉ visited ->
      matchesTarget targetColor current.2 = false ->
      I rest (visited ∪ {[ b_id current.2 ]}) matches) ->
  forall fuel toCheck visited matches result,
    I toCheck visited matches ->
    floodLoop fuel bs targetColor toCheck visited matches = Some result ->
    exists visited', I [] visited' result.
Proof.
  intros Hskip Hmatch Hmiss.
  induction fuel as [|fuel IH]; intros toCheck visited matches result HI; cbn [floodLoop];
    [discriminate|].
  destruct toCheck as [|current rest].
  - intros [= <-]. exists visited. exact HI.
  - case_bool_decide as Hv.
    + apply IH. eapply Hskip; eauto.
    + destruct (matchesTarget targetColor current.2) eqn:Em.
      * apply IH. apply Hmatch; auto.
      * apply IH. apply Hmiss; auto.
Qed.

Lemma filter_length_mono {A} (f g : A -> bool) (l : list A) :
  (forall x, x ∈ l -> f x = true -> g x = true) ->
  (length (List.filter f l) <= length (List.filter g l))%nat.
Proof.
  induction l as [|x l IH]; intros Hfg; cbn [List.filter]; [lia|].
  assert (IH' : (length (List.filter f l) <= length (List.filter g l))%nat).
  { apply IH. intros y Hy. apply Hfg. right. exact Hy. }
  destruct (f x) eqn:Ef.
  - rewrite (Hfg x (list_elem_of_here _ _) Ef). cbn [length]. lia.
  - destruct (g x); cbn [length]; lia.
Qed.

Lemma filter_length_strict {A} (f g : A -> bool) (l : list A) (x0 : A) :
  (forall x, x ∈ l -> f x = true -> g x = true) ->
  x0 ∈ l -> g x0 = true -> f x0 = false ->
  (length (List.filter f l) < length (List.filter g l))%nat.
Proof.
  induction l as [|x l IH]; intros Hfg Hin Hg Hf; [inversion Hin|].
  cbn [List.filter].
  assert (Hmono : (length (List.filter f l) <= length (List.filter g l))%nat).
  { apply filter_length_mono. intros y Hy. apply Hfg. right. exact Hy. }
  apply elem_of_cons in Hin as [<-|Hin].
  - rewrite Hf, Hg. cbn [length]. lia.
  - assert (IH' : (length (List.filter f l) < length (List.filter g l))%nat).
    { apply IH; auto. intros y Hy. apply Hfg. right. exact Hy. }
    destruct (f x) eqn:Ef.
    + rewrite (Hfg x (list_elem_of_here _ _) Ef). cbn [length]. lia.
    + destruct (g x); cbn [length]; lia.
Qed.

Lemma length_refs (bs : list Bubble) : length (refs bs) = length bs.
Proof. unfold refs. apply length_imap. Qed.

Lemma unvisitedRefs_bound (bs : list Bubble) (visited : gset string) :
  (length (unvisitedRefs bs visited) <= length bs)%nat.
Proof. unfold unvisitedRefs. rewrite <- length_refs. apply filter_length_le. Qed.

Lemma unvisitedRefs_shrinks (bs : list Bubble) (visited : gset string) (r : nat * Bubble) :
  r ∈ refs bs -> b_id r.2 ∉ visited ->
  (length (unvisitedRefs bs (visited ∪ {[ b_id r.2 ]})) < length (unvisitedRefs bs visited))%nat.
Proof.
  intros Hr Hv. unfold unvisitedRefs. apply filter_length_strict with (x0 := r).
  - intros x _. rewrite !negb_true_iff, !bool_decide_eq_false. set_solver.
  - exact Hr.
  - rewrite negb_true_iff, bool_decide_eq_false. exact Hv.
  - rewrite negb_false_iff, bool_decide_eq_true. set_solver.
Qed.

Lemma floodNeighbors_bound (bs : list Bubble) (visited : gset string) (current : Bubble) :
  (length (floodNeighbors bs visited current) <= length (unvisitedRefs bs visited))%nat.
Proof.
  unfold floodNeighbors, unvisitedRefs. apply filter_length_mono.
  intros x _. rewrite !andb_true_iff. tauto.
Qed.

(** The loop of [checkMatches] ends: it returns once it is given as many
    iterations as the store allows. *)
Lemma floodLoop_terminates (bs : list Bubble) (targetColor : BubbleColor) :
  forall fuel toCheck visited matches,
    (forall r, r ∈ toCheck -> r ∈ refs bs) ->
    (length (unvisitedRefs bs visited) * S (length bs) + length toCheck < fuel)%nat ->
    is_Some (floodLoop fuel bs targetColor toCheck visited matches).
Proof.
  induction fuel as [|fuel IH]; intros toCheck visited matches Hrefs Hfuel; [lia|].
  cbn [floodLoop]. destruct toCheck as [|current rest]; [eauto|].
  cbn [length] in Hfuel.
  assert (Hrest : forall r, r ∈ rest -> r ∈ refs bs).
  { intros r Hr. apply Hrefs. right. exact Hr. }
  case_bool_decide as Hv.
  - apply IH; [exact Hrest|lia].
  - pose proof (unvisitedRefs_shrinks bs visited current (Hrefs _ (list_elem_of_here _ _)) Hv)
      as Hshrink.
    pose proof (unvisitedRefs_bound bs (visited ∪ {[ b_id current.2 ]})) as Hbound.
    pose proof (floodNeighbors_bound bs (visited ∪ {[ b_id current.2 ]}) current.2) as Hnb.
    destruct (matchesTarget targetColor current.2).
    + apply IH.
      * intros r Hr. apply elem_of_app in Hr as [Hr|Hr]; [|auto].
        apply elem_of_rev, elem_of_floodNeighbors in Hr. tauto.
      * rewrite length_app, length_rev. nia.
    + apply IH; [exact Hrest|nia].
Qed.

Lemma flood_eq (bs : list Bubble) (start : nat) (startBubble : Bubble) :
  bs !! start = Some startBubble ->
  floodLoop (floodFuel bs) bs (b_color startBubble) [(start, startBubble)] ∅ []
  = Some (flood bs start).
Proof.
  intros Hs. unfold flood. rewrite Hs.
  destruct (floodLoop_terminates bs (b_color startBubble) (floodFuel bs)
              [(start, startBubble)] ∅ []) as [m Hm].
  - intros r Hr. apply list_elem_of_singleton in Hr as ->. apply elem_of_refs. exact Hs.
  - pose proof (unvisitedRefs_bound bs ∅). unfold floodFuel. cbn [length]. nia.
  - rewrite Hm. reflexivity.
Qed.

Lemma popAll_fold (basePoints : Z) (matches : list (nat * Bubble)) :
  forall (bs : list Bubble) (pts : Z),
    fold_left
      (fun '(bs, pts) (m : nat * Bubble) => (alter deactivate m.1 bs, pts + basePoints))
      matches (bs, pts)
    = (popAll matches bs, pts + Z.of_nat (length matches) * basePoints).
Proof.
  induction matches as [|m matches IH]; intros bs pts; cbn [fold_left popAll length].
  - f_equal. lia.
  - rewrite IH. unfold popAll. f_equal. lia.
Qed.

Lemma deactivate_idemp (b : Bubble) : deactivate (deactivate b) = deactivate b.
Proof. reflexivity. Qed.

Lemma popAll_lookup_out (matches : list (nat * Bubble)) :
  forall (bs : list Bubble) (i : nat),
    i ∉ matches.*1 -> popAll matches bs !! i = bs !! i.
Proof.
  induction matches as [|m matches IH]; intros bs i Hi; [reflexivity|].
  cbn [popAll fold_left]. change (popAll matches (alter deactivate m.1 bs) !! i = bs !! i).
  rewrite fmap_cons in Hi. apply not_elem_of_cons in Hi as [Hne Hi].
  rewrite IH by exact Hi. apply list_lookup_alter_ne. congruence.
Qed.

Lemma popAll_lookup_in (matches : list (nat * Bubble)) :
  forall (bs : list Bubble) (i : nat),
    i ∈ matches.*1 -> popAll matches bs !! i = deactivate <$> bs !! i.
Proof.
  induction matches as [|m matches IH]; intros bs i Hi; [inversion Hi|].
  cbn [popAll fold_left]. change (popAll matches (alter deactivate m.1 bs) !! i
                                  = deactivate <$> bs !! i).
  destruct (decide (i ∈ matches.*1)) as [Hin|Hout].
  - rewrite IH by exact Hin. destruct (decide (m.1 = i)) as [->|Hne].
    + rewrite list_lookup_alter_eq. destruct (bs !! i); reflexivity.
    + rewrite list_lookup_alter_ne by exact Hne. reflexivity.
  - rewrite popAll_lookup_out by exact Hout.
    rewrite fmap_cons in Hi. apply elem_of_cons in Hi as [->|Hi]; [|contradiction].
    apply list_lookup_alter_eq.
Qed.

(** Every bubble the loop of [checkMatches] collects is an object of the
    store, and is of the seed's colour or a rainbow. *)
Lemma flood_members (bs : list Bubble) (start : nat) (startBubble : Bubble) :
  bs !! start = Some startBubble ->
  forall i b, (i, b) ∈ flood bs start ->
    bs !! i = Some b /\ matchesTarget (b_color startBubble) b = true.
Proof.
  intros Hs.
  destruct (floodLoop_invariant bs (b_color startBubble)
              (fun toCheck _ matches =>
                 (forall r, r ∈ toCheck -> r ∈ refs bs)
                 /\ (forall r, r ∈ matches ->
                       r ∈ refs bs /\ matchesTarget (b_color startBubble) r.2 = true))
              ltac:(intros current rest visited matches [Ht Hm] _; split; [|exact Hm];
                    intros r Hr; apply Ht; right; exact Hr)
              ltac:(intros current rest visited matches [Ht Hm] _ Hc; split;
                    [intros r Hr; apply elem_of_app in Hr as [Hr|Hr];
                     [apply elem_of_rev, elem_of_floodNeighbors in Hr; tauto
                     |apply Ht; right; exact Hr]
                    |intros r Hr; apply elem_of_app in Hr as [Hr|Hr];
                     [apply Hm; exact Hr
                     |apply list_elem_of_singleton in Hr as ->; split;
                      [apply Ht; left|exact Hc]]])
              ltac:(intros current rest visited matches [Ht Hm] _ _; split; [|exact Hm];
                    intros r Hr; apply Ht; right; exact Hr)
              (floodFuel bs) [(start, startBubble)] ∅ [] (flood bs start))
    as (_ & _ & Hm).
  - split.
    + intros r Hr. apply list_elem_of_singleton in Hr as ->. apply elem_of_refs. exact Hs.
    + intros r Hr. inversion Hr.
  - apply flood_eq. exact Hs.
  - intros i b Hib. destruct (Hm _ Hib) as [Hr Hc]. split; [|exact Hc].
    apply elem_of_refs. exact Hr.
Qed.

Lemma sumOver_const {A} (k : Z) (l : list A) : sumOver (fun _ => k) l = Z.of_nat (length l) * k.
Proof. induction l as [|a l IH]; cbn [sumOver fold_right length]; [lia|]. fold (sumOver (fun _ : A => k) l). lia. Qed.

(** [checkMatches] in one equation. *)
Lemma checkMatches_eq (start : nat) (st : State) (startBubble : Bubble) :
  bubbles st !! start = Some startBubble ->
  let members := flood (bubbles st) start in
  let size := length members in
  checkMatches start st
  = if (3 <=? size)%nat
    then (withBoard (popAll members (bubbles st))
            (score st
             + Qfloor (inject_Z (Z.of_nat size * points (b_color startBubble))
                       * (if (3 <? size)%nat then 15 # 10 else 1)%Q)) st, true)
    else (st, false).
Proof.
  intros Hs members size. unfold checkMatches. rewrite Hs. fold members. fold size.
  destruct (3 <=? size)%nat; [|reflexivity].
  rewrite popAll_fold. rewrite Z.add_0_l. reflexivity.
Qed.

(** The members of the popped set are deactivated. *)
Lemma checkMatches_pops (start : nat) (st : State) (startBubble : Bubble) :
  bubbles st !! start = Some startBubble ->
  (3 <= length (flood (bubbles st) start))%nat ->
  forall i b, (i, b) ∈ flood (bubbles st) start ->
    bubbles (checkMatches start st).1 !! i = Some (deactivate b).
Proof.
  intros Hs Hsize i b Hib. rewrite (checkMatches_eq start st startBubble Hs).
  apply Nat.leb_le in Hsize. rewrite Hsize. cbn [fst bubbles withBoard].
  destruct (flood_members _ _ _ Hs i b Hib) as [Hi _].
  rewrite popAll_lookup_in, Hi; [reflexivity|].
  apply list_elem_of_fmap. exists (i, b). auto.
Qed.

(** C1. With [members] the set the flood fill of [checkMatches] collects from
    the settled bubble: if it has three members or more, every member is
    deactivated, no other bubble is touched, and the score grows by the floor
    of the members' base points (those of the seed's colour, once for each
    member) times 1.5 when there are more than three members and times 1
    otherwise; if it has fewer than three members nothing changes. *)
Theorem match_pops_and_scores (start : nat) (st : State) (startBubble : Bubble) :
  bubbles st !! start = Some startBubble ->
  let members := flood (bubbles st) start in
  let size := length members in
  let multiplier : Q := if (3 <? size)%nat then (15 # 10)%Q else 1%Q in
  let st' := (checkMatches start st).1 in
  ((3 <= size)%nat ->
     (forall i b, (i, b) ∈ members ->
        bubbles st !! i = Some b /\ bubbles st' !! i = Some (deactivate b))
     /\ (forall i, i ∉ members.*1 -> bubbles st' !! i = bubbles st !! i)
     /\ score st' =
        score st
        + Qfloor (inject_Z (sumOver (fun _ => points (b_color startBubble)) members) * multiplier)
     /\ (checkMatches start st).2 = true)
  /\ ((size < 3)%nat -> st' = st /\ (checkMatches start st).2 = false).
Proof.
  intros Hs members size multiplier st'.
  pose proof (checkMatches_eq start st startBubble Hs) as Heq. cbn zeta in Heq.
  fold members in Heq. fold size in Heq. split.
  - intros Hsize. pose proof Hsize as Hleb. apply Nat.leb_le in Hleb. rewrite Hleb in Heq.
    split; [|split; [|split]].
    + intros i b Hib. destruct (flood_members _ _ _ Hs i b Hib) as [Hi _].
      split; [exact Hi|]. apply (checkMatches_pops start st startBubble Hs Hsize i b Hib).
    + intros i Hi. subst st'. rewrite Heq. cbn [fst bubbles withBoard].
      apply popAll_lookup_out. exact Hi.
    + subst st'. rewrite Heq. cbn [fst score withBoard]. rewrite sumOver_const. reflexivity.
    + rewrite Heq. reflexivity.
  - intros Hsize. assert (Hleb : (3 <=? size)%nat = false) by (apply Nat.leb_gt; exact Hsize).
    rewrite Hleb in Heq. subst st'. rewrite Heq. auto.
Qed.

Lemma match_pops_and_scores_witness :
  let st' := (checkMatches 4 matchState).1 in
  score st' = 1600
  /\ b_active <$> bubbles st' !! 0%nat = Some false
  /\ bubbles st' !! 3%nat = Some (mkBubble "0-9-1-0.4" 0 9 600 22 Blue true None).
Proof.
  destruct (match_pops_and_scores 4 matchState _ eq_refl) as [Hpop _].
  destruct Hpop as (Hin & Hout & Hscore & _).
  { apply Nat.leb_le. vm_compute. reflexivity. }
  intros st'. split; [|split].
  - subst st'. rewrite Hscore. vm_compute. reflexivity.
  - destruct (Hin 0%nat (mkBubble "0-0-1-0.1" 0 0 100 22 Red true None)) as [_ H0].
    { apply list_elem_of_In. vm_compute. tauto. }
    subst st'. rewrite H0. reflexivity.
  - subst st'. rewrite Hout; [reflexivity|].
    intros Hmem. apply list_elem_of_In in Hmem. vm_compute in Hmem.
    repeat destruct Hmem as [Hmem|Hmem]; try discriminate; exact Hmem.
Defined.

Lemma refs_id_inj (bs : list Bubble) (r r' : nat * Bubble) :
  NoDup (b_id <$> bs) -> r ∈ refs bs -> r' ∈ refs bs -> b_id r.2 = b_id r'.2 -> r = r'.
Proof.
  intros Hnd Hr Hr' Hid. destruct r as [i b], r' as [j c]. cbn [snd] in Hid.
  apply elem_of_refs in Hr. apply elem_of_refs in Hr'.
  assert (Hij : i = j).
  { apply (NoDup_lookup _ i j (b_id b) Hnd).
    - rewrite list_lookup_fmap, Hr. reflexivity.
    - rewrite list_lookup_fmap, Hr', Hid. reflexivity. }
  subst j. congruence.
Qed.

(** The set the flood fill collects is closed: an active bubble of the seed's
    colour, or an active rainbow, next to a member is a member. *)
Lemma flood_closed (bs : list Bubble) (start : nat) (startBubble : Bubble) :
  bs !! start = Some startBubble ->
  NoDup (b_id <$> bs) ->
  forall i b j c,
    (i, b) ∈ flood bs start -> bs !! j = Some c -> b_active c = true ->
    matchesTarget (b_color startBubble) c = true -> isNeighbor b c = true ->
    (j, c) ∈ flood bs start.
Proof.
  intros Hs Hnd.
  destruct (floodLoop_invariant bs (b_color startBubble)
              (floodClosure bs (b_color startBubble))) with
    (fuel := floodFuel bs) (toCheck := [(start, startBubble)]) (visited := (∅ : gset string))
    (matches := @nil (nat * Bubble)) (result := flood bs start) as (visited & _ & Hnb & Hvis).
  - (* the popped bubble has been visited *)
    intros current rest visited matches (Ht & Hn & Hv) Hcur. split; [|split].
    + intros r Hr. apply Ht. right. exact Hr.
    + intros r r' Hr Hr' Ha Hnr. destruct (Hn r r' Hr Hr' Ha Hnr) as [H|H]; [auto|].
      apply elem_of_cons in H as [->|H]; auto.
    + exact Hv.
  - (* the popped bubble joins the matches *)
    intros current rest visited matches (Ht & Hn & Hv) Hcur Hc. split; [|split].
    + intros r Hr. apply elem_of_app in Hr as [Hr|Hr].
      * apply elem_of_rev, elem_of_floodNeighbors in Hr. tauto.
      * apply Ht. right. exact Hr.
    + intros r r' Hr Hr' Ha Hnr.
      destruct (decide (b_id r'.2 ∈ visited ∪ {[ b_id current.2 ]})) as [|Hnew]; [auto|].
      right. apply elem_of_app.
      apply elem_of_app in Hr as [Hr|Hr].
      * destruct (Hn r r' Hr Hr' Ha Hnr) as [H|H]; [set_solver|].
        apply elem_of_cons in H as [->|H]; [set_solver|auto].
      * apply list_elem_of_singleton in Hr as ->. left.
        apply elem_of_rev, elem_of_floodNeighbors. auto.
    + intros r Hr Hid Hm. apply elem_of_app.
      apply elem_of_union in Hid as [Hid|Hid]; [left; auto|].
      right. apply list_elem_of_singleton. apply elem_of_singleton in Hid.
      apply (refs_id_inj bs); auto. apply Ht. left.
  - (* the popped bubble is of another colour *)
    intros current rest visited matches (Ht & Hn & Hv) Hcur Hc. split; [|split].
    + intros r Hr. apply Ht. right. exact Hr.
    + intros r r' Hr Hr' Ha Hnr. destruct (Hn r r' Hr Hr' Ha Hnr) as [H|H]; [set_solver|].
      apply elem_of_cons in H as [->|H]; [set_solver|auto].
    + intros r Hr Hid Hm.
      apply elem_of_union in Hid as [Hid|Hid]; [auto|].
      apply elem_of_singleton in Hid.
      assert (r = current) as -> by (apply (refs_id_inj bs); auto; apply Ht; left).
      congruence.
  - split; [|split].
    + intros r Hr. apply list_elem_of_singleton in Hr as ->. apply elem_of_refs. exact Hs.
    + intros r r' Hr. inversion Hr.
    + intros r _ Hid. set_solver.
  - apply flood_eq. exact Hs.
  - intros i b j c Hib Hj Ha Hm Hn.
    assert (Hjc : (j, c) ∈ refs bs) by (apply elem_of_refs; exact Hj).
    apply Hvis; [exact Hjc| |exact Hm].
    destruct (Hnb (i, b) (j, c) Hib Hjc Ha Hn) as [H|H]; [exact H|inversion H].
Qed.

(** No bubble is collected twice: the size of the set is the number of its
    members. *)
Lemma flood_NoDup (bs : list Bubble) (start : nat) (startBubble : Bubble) :
  bs !! start = Some startBubble -> NoDup (flood bs start).
Proof.
  intros Hs.
  destruct (floodLoop_invariant bs (b_color startBubble)
              (fun _ visited matches =>
                 (forall r, r ∈ matches -> b_id r.2 ∈ visited) /\ NoDup matches)) with
    (fuel := floodFuel bs) (toCheck := [(start, startBubble)]) (visited := (∅ : gset string))
    (matches := @nil (nat * Bubble)) (result := flood bs start) as (visited & _ & Hnd).
  - intros current rest visited matches H _. exact H.
  - intros current rest visited matches [Hv Hnd] Hcur _. split.
    + intros r Hr. apply elem_of_app in Hr as [Hr|Hr]; [specialize (Hv r Hr); set_solver|].
      apply list_elem_of_singleton in Hr as ->. set_solver.
    + apply NoDup_app. split; [exact Hnd|]. split; [|apply NoDup_singleton].
      intros r Hr Hr'. apply list_elem_of_singleton in Hr' as ->. apply Hcur, Hv, Hr.
  - intros current rest visited matches [Hv Hnd] _ _. split; [|exact Hnd].
    intros r Hr. specialize (Hv r Hr). set_solver.
  - split; [intros r Hr; inversion Hr|apply NoDup_nil_2].
  - apply flood_eq. exact Hs.
  - exact Hnd.
Qed.

(** C9. In a store whose ids are distinct, an active rainbow bubble next to a
    member of the matched set is itself a member: it counts in the size and,
    when the set is popped, it is deactivated with the others.  The points
    added per member are those of the colour of the settled bubble, whatever
    colour the rainbow members carry. *)
Theorem rainbow_joins_seed_scores (start : nat) (st : State) (startBubble : Bubble) :
  bubbles st !! start = Some startBubble ->
  NoDup (b_id <$> bubbles st) ->
  let members := flood (bubbles st) start in
  let size := length members in
  let st' := (checkMatches start st).1 in
  NoDup members
  /\ (forall i b j r,
        (i, b) ∈ members -> bubbles st !! j = Some r -> b_active r = true ->
        isRainbow r = true -> isNeighbor b r = true ->
        (j, r) ∈ members
        /\ ((3 <= size)%nat -> bubbles st' !! j = Some (deactivate r)))
  /\ ((3 <= size)%nat ->
      score st' =
      score st
      + Qfloor (inject_Z (Z.of_nat size * points (b_color startBubble))
                * (if (3 <? size)%nat then 15 # 10 else 1)%Q)).
Proof.
  intros Hs Hnd members size st'.
  split; [apply (flood_NoDup _ _ _ Hs)|]. split.
  - intros i b j r Hib Hj Ha Hr Hn.
    assert (Hjr : (j, r) ∈ members).
    { apply (flood_closed _ _ _ Hs Hnd i b j r Hib Hj Ha); [|exact Hn].
      unfold matchesTarget. rewrite Hr. apply orb_true_r. }
    split; [exact Hjr|]. intros Hsize.
    apply (checkMatches_pops start st startBubble Hs Hsize j r Hjr).
  - intros Hsize. subst st'. rewrite (checkMatches_eq start st startBubble Hs).
    fold members. fold size. apply Nat.leb_le in Hsize. rewrite Hsize. reflexivity.
Qed.

Lemma rainbow_joins_seed_scores_witness :
  let st' := (checkMatches 2 rainbowState).1 in
  bubbles st' !! 0%nat = Some (mkBubble "0-1-1-0.2" 0 1 144 22 Orange false (Some Rainbow))
  /\ score st' = 300.
Proof.
  destruct (rainbow_joins_seed_scores 2 rainbowState _ eq_refl) as (_ & Hjoin & Hscore).
  { apply (bool_decide_unpack _). vm_compute. reflexivity. }
  assert (Hsize : (3 <= length (flood (bubbles rainbowState) 2))%nat).
  { apply Nat.leb_le. vm_compute. reflexivity. }
  intros st'. split.
  - assert (Hmem : (1%nat, mkBubble "0-2-1-0.3" 0 2 188 22 Red true None)
                   ∈ flood (bubbles rainbowState) 2).
    { apply list_elem_of_In. vm_compute. tauto. }
    destruct (Hjoin 1%nat _ 0%nat (mkBubble "0-1-1-0.2" 0 1 144 22 Orange true (Some Rainbow))
                Hmem eq_refl eq_refl eq_refl eq_refl) as [_ Hpop].
    apply (Hpop Hsize).
  - subst st'. rewrite (Hscore Hsize). vm_compute. reflexivity.
Defined.

(** ** Sorting *)

Lemma insertSorted_perm {A} (cmp : A -> A -> Q) (x : A) (l : list A) :
  Permutation (insertSorted cmp x l) (x :: l).
Proof.
  induction l as [|y l IH]; cbn [insertSorted]; [reflexivity|].
  destruct (Qltb (cmp y x) 0); [|reflexivity].
  rewrite IH. apply perm_swap.
Qed.

Lemma insertSorted_HdRel {A} (cmp : A -> A -> Q) (x y : A) (l : list A) :
  allowed cmp y x -> HdRel (allowed cmp) y l -> HdRel (allowed cmp) y (insertSorted cmp x l).
Proof.
  intros Hyx Hhd. destruct l as [|z l]; cbn [insertSorted]; [constructor; exact Hyx|].
  destruct (Qltb (cmp z x) 0); constructor; [|exact Hyx].
  inversion Hhd; assumption.
Qed.

Lemma insertSorted_sorted {A} (cmp : A -> A -> Q) (x : A) (l : list A) :
  Sorted (allowed cmp) l -> Sorted (allowed cmp) (insertSorted cmp x l).
Proof.
  induction l as [|y l IH]; intros Hs; cbn [insertSorted]; [repeat constructor|].
  inversion Hs as [|? ? Hl Hhd]; subst.
  destruct (Qltb (cmp y x) 0) eqn:E.
  - constructor; [apply IH; exact Hl|].
    apply insertSorted_HdRel; [|exact Hhd].
    left. apply Qltb_lt in E. apply Qlt_le_weak. exact E.
  - constructor; [exact Hs|]. constructor. right. apply Qltb_ge in E. exact E.
Qed.

(** The insertion sort meets the contract assumed of the host's sort. *)
Lemma insertionSort_comparison : ComparisonSort (@insertionSort).
Proof.
  intros A cmp l. induction l as [|x l [IHp IHs]]; cbn [insertionSort].
  - split; constructor.
  - split.
    + rewrite insertSorted_perm. constructor. exact IHp.
    + apply insertSorted_sorted. exact IHs.
Qed.

Lemma exampleHost_sorts : ComparisonSort (@array_sort exampleHost).
Proof. exact insertionSort_comparison. Qed.

(** In a list whose neighbours are related by [R], a property that [R]
    carries from an element to the one before it, and that some element has,
    holds of the first element. *)
Lemma Sorted_head_has {A} (R : A -> A -> Prop) (P : A -> Prop) (x : A) (l : list A) :
  (forall u v, R u v -> P v -> P u) ->
  Sorted R (x :: l) -> (exists t, t ∈ x :: l /\ P t) -> P x.
Proof.
  intros Hback. revert x. induction l as [|y l IH]; intros x Hs (t & Ht & HP).
  - apply list_elem_of_singleton in Ht as ->. exact HP.
  - inversion Hs as [|? ? Hl Hhd]; subst. inversion Hhd; subst.
    apply elem_of_cons in Ht as [->|Ht]; [exact HP|].
    apply (Hback x y); [assumption|]. apply IH; [exact Hl|]. exists t. auto.
Qed.

Lemma Sorted_head_least {A} (R : A -> A -> Prop) (x : A) (l : list A) :
  (forall u, R u u) -> (forall u v w, R u v -> R v w -> R u w) ->
  Sorted R (x :: l) -> forall t, t ∈ x :: l -> R x t.
Proof.
  intros Hrefl Htrans. revert x. induction l as [|y l IH]; intros x Hs t Ht.
  - apply list_elem_of_singleton in Ht as ->. apply Hrefl.
  - inversion Hs as [|? ? Hl Hhd]; subst. inversion Hhd; subst.
    apply elem_of_cons in Ht as [->|Ht]; [apply Hrefl|].
    apply (Htrans x y t); [assumption|]. apply IH; assumption.
Qed.

Lemma Sorted_weaken {A} (R R' : A -> A -> Prop) (P : A -> Prop) (l : list A) :
  (forall u v, P u -> P v -> R u v -> R' u v) ->
  (forall t, t ∈ l -> P t) -> Sorted R l -> Sorted R' l.
Proof.
  intros Himp. induction l as [|x l IH]; intros HP Hs; [constructor|].
  inversion Hs as [|? ? Hl Hhd]; subst. constructor.
  - apply IH; [|exact Hl]. intros t Ht. apply HP. right. exact Ht.
  - destruct l as [|y l]; constructor. inversion Hhd; subst.
    apply Himp; [apply HP; left|apply HP; right; left|assumption].
Qed.

(** ** The local fallback heuristic *)

Lemma Qle_1_0_false : ~ (1 <= 0)%Q.
Proof. intros H. apply Qle_bool_iff in H. discriminate. Qed.

Lemma Qle_0_m1_false : ~ (0 <= -1)%Q.
Proof. intros H. apply Qle_bool_iff in H. discriminate. Qed.

Lemma compareTargets_bomb (u v : TargetCandidate) :
  allowed compareTargets u v -> isBombTarget v = true -> isBombTarget u = true.
Proof.
  intros Hal Hv. destruct (isBombTarget u) eqn:Eu; [reflexivity|exfalso].
  unfold allowed, compareTargets in Hal. rewrite Eu, Hv in Hal.
  destruct Hal as [H|H]; [exact (Qle_1_0_false H)|exact (Qle_0_m1_false H)].
Qed.

Lemma compareTargets_rainbow (u v : TargetCandidate) :
  isBombTarget u = false -> isBombTarget v = false ->
  allowed compareTargets u v -> isRainbowTarget v = true -> isRainbowTarget u = true.
Proof.
  intros Hbu Hbv Hal Hv. destruct (isRainbowTarget u) eqn:Eu; [reflexivity|exfalso].
  unfold allowed, compareTargets in Hal. rewrite Hbu, Hbv, Eu, Hv in Hal.
  destruct Hal as [H|H]; [exact (Qle_1_0_false H)|exact (Qle_0_m1_false H)].
Qed.

Lemma compareTargets_plain (u v : TargetCandidate) :
  t_powerUp u = None -> t_powerUp v = None ->
  allowed compareTargets u v -> preferred u v.
Proof.
  intros Hu Hv Hal. unfold allowed, compareTargets, isBombTarget, isRainbowTarget in Hal.
  rewrite Hu, Hv in Hal. unfold preferred. unfold targetScore in Hal.
  destruct Hal as [H|H].
  - destruct (t_size v * t_pointsPerBubble v =? t_size u * t_pointsPerBubble u) eqn:E;
      cbn [negb] in H.
    + apply Z.eqb_eq in E. change 0%Q with (inject_Z 0) in H. rewrite <- Zle_Qle in H. lia.
    + apply Z.eqb_neq in E. change 0%Q with (inject_Z 0) in H. rewrite <- Zle_Qle in H. lia.
  - destruct (t_size u * t_pointsPerBubble u =? t_size v * t_pointsPerBubble v) eqn:E;
      cbn [negb] in H.
    + apply Z.eqb_eq in E. change 0%Q with (inject_Z 0) in H. rewrite <- Zle_Qle in H. lia.
    + apply Z.eqb_neq in E. change 0%Q with (inject_Z 0) in H. rewrite <- Zle_Qle in H. lia.
Qed.

Lemma isBombTarget_iff (t : TargetCandidate) :
  isBombTarget t = true <-> t_powerUp t = Some Bomb.
Proof.
  unfold isBombTarget. destruct (t_powerUp t) as [[|]|]; split; congruence.
Qed.

Lemma isRainbowTarget_iff (t : TargetCandidate) :
  isRainbowTarget t = true <-> t_powerUp t = Some Rainbow.
Proof.
  unfold isRainbowTarget. destruct (t_powerUp t) as [[|]|]; split; congruence.
Qed.

Lemma preferred_refl (u : TargetCandidate) : preferred u u.
Proof. unfold preferred. lia. Qed.

Lemma preferred_trans (u v w : TargetCandidate) :
  preferred u v -> preferred v w -> preferred u w.
Proof. unfold preferred. lia. Qed.

(** The first of two rainbow clusters in the list is worth 2500 and the
    second 300; the hint targets the second. *)
Lemma rainbow_of_lower_score_is_selected : ~ priority_order_decides.
Proof.
  intros Hclaim.
  destruct (Hclaim exampleHost twoRainbows "AI Service Unreachable" exampleHost_sorts
              ltac:(discriminate)) as (best & Hin & Hbest & Hfirst).
  apply list_elem_of_In in Hin. cbn [twoRainbows In] in Hin.
  destruct Hin as [<-|[<-|[]]].
  - vm_compute in Hbest. discriminate.
  - specialize (Hfirst (mkCandidate "2-4-1-0.3" "orange" 5 2 4 500 "Center" (Some Rainbow))
                  ltac:(left)).
    unfold outranks, preferred, priorityClass in Hfirst.
    cbn [t_powerUp t_size t_pointsPerBubble t_row] in Hfirst. lia.
Qed.

(** C6, amended.  On a non-empty list the local heuristic answers with the
    row, the column and the colour of one of the candidates, chosen so: a bomb
    if the list has one; else a rainbow cluster if it has one; else, no
    candidate having a power-up, a candidate of the highest score (size times
    points per bubble) and, among those, of the lowest row.  Which of several
    bombs, or of several rainbow clusters, is chosen is not said: neither
    their score nor their row decides it.  On the empty list it answers with
    the given message and no row, column or colour. *)
Theorem local_fallback_priority `{Host} (validTargets : list TargetCandidate) (msg : string) :
  ComparisonSort (@array_sort _) ->
  (validTargets = [] ->
     getBestLocalTarget validTargets msg
     = mkHint (JString msg) (JString "No valid clusters found to target.") None None None)
  /\ (validTargets <> [] ->
      exists best,
        best ∈ validTargets
        /\ getBestLocalTarget validTargets msg = hintFor best
        /\ targetRow (hintFor best) = Some (numberOfZ (t_row best))
        /\ targetCol (hintFor best) = Some (numberOfZ (t_col best))
        /\ recommendedColor (hintFor best) = Some (t_color best)
        /\ ((exists t, t ∈ validTargets /\ t_powerUp t = Some Bomb) -> t_powerUp best = Some Bomb)
        /\ ((forall t, t ∈ validTargets -> t_powerUp t <> Some Bomb) ->
            (exists t, t ∈ validTargets /\ t_powerUp t = Some Rainbow) ->
            t_powerUp best = Some Rainbow)
        /\ ((forall t, t ∈ validTargets -> t_powerUp t = None) ->
            forall t, t ∈ validTargets ->
              t_size t * t_pointsPerBubble t < t_size best * t_pointsPerBubble best
              \/ (t_size t * t_pointsPerBubble t = t_size best * t_pointsPerBubble best
                  /\ t_row best <= t_row t))).
Proof.
  intros Hsort. split; [intros ->; reflexivity|]. intros Hne.
  destruct (Hsort _ compareTargets validTargets) as [Hperm Hsorted].
  destruct (array_sort compareTargets validTargets) as [|best rest] eqn:Es.
  { apply Permutation_nil in Hperm. congruence. }
  assert (Hmem : forall t, t ∈ validTargets <-> t ∈ best :: rest).
  { intros t. rewrite Hperm. reflexivity. }
  exists best. split; [apply Hmem; left|]. split.
  { unfold getBestLocalTarget. destruct validTargets; [congruence|]. rewrite Es. reflexivity. }
  do 3 (split; [reflexivity|]). split; [|split].
  - intros (t & Ht & Hb). apply isBombTarget_iff.
    apply (Sorted_head_has (allowed compareTargets) (fun t => isBombTarget t = true) best rest);
      [apply compareTargets_bomb|exact Hsorted|].
    exists t. split; [apply Hmem; exact Ht|apply isBombTarget_iff; exact Hb].
  - intros Hnb (t & Ht & Hr). apply isRainbowTarget_iff.
    apply (Sorted_head_has (fun u v => isRainbowTarget v = true -> isRainbowTarget u = true)
             (fun t => isRainbowTarget t = true) best rest); [auto| |].
    + apply (Sorted_weaken (allowed compareTargets) _ (fun t => isBombTarget t = false));
        [|intros u Hu|exact Hsorted].
      * intros u v Hu Hv. apply compareTargets_rainbow; assumption.
      * apply Hmem, Hnb in Hu. destruct (isBombTarget u) eqn:E; [|reflexivity].
        apply isBombTarget_iff in E. contradiction.
    + exists t. split; [apply Hmem; exact Ht|apply isRainbowTarget_iff; exact Hr].
  - intros Hplain t Ht.
    apply (Sorted_head_least preferred best rest);
      [apply preferred_refl|apply preferred_trans| |apply Hmem; exact Ht].
    apply (Sorted_weaken (allowed compareTargets) _ (fun t => t_powerUp t = None));
      [|intros u Hu; apply Hplain, Hmem, Hu|exact Hsorted].
    intros u v Hu Hv. apply compareTargets_plain; assumption.
Qed.

Lemma local_fallback_priority_witness :
  @getBestLocalTarget exampleHost exampleTargets "AI Service Unreachable"
  = mkHint (JString "Fallback: TRIGGER BOMB!")
      (JString "Selected based on value and strategic priority.")
      (Some (Finite 4)) (Some (Finite 3)) (Some "red")
  /\ @getBestLocalTarget exampleHost plainAndRainbow "AI Service Unreachable"
     = mkHint (JString "Fallback: Select RED at Row 5")
         (JString "Selected based on value and strategic priority.")
         (Some (Finite 5)) (Some (Finite 1)) (Some "red")
  /\ @getBestLocalTarget exampleHost plainTargets "AI Service Unreachable"
     = mkHint (JString "Fallback: Select YELLOW at Row 1")
         (JString "Selected based on value and strategic priority.")
         (Some (Finite 1)) (Some (Finite 4)) (Some "yellow").
Proof.
  split; [|split].
  - destruct (@local_fallback_priority exampleHost exampleTargets "AI Service Unreachable"
                exampleHost_sorts) as [_ Hsome].
    destruct Hsome as (best & Hin & Hbest & _ & _ & _ & Hbomb & _); [discriminate|].
    rewrite Hbest. clear Hbest.
    assert (Hb : t_powerUp best = Some Bomb).
    { apply Hbomb. eexists. split; [left|reflexivity]. }
    apply list_elem_of_In in Hin. cbn [exampleTargets In] in Hin.
    destruct Hin as [<-|[<-|[<-|[]]]]; [reflexivity|discriminate Hb|discriminate Hb].
  - destruct (@local_fallback_priority exampleHost plainAndRainbow "AI Service Unreachable"
                exampleHost_sorts) as [_ Hsome].
    destruct Hsome as (best & Hin & Hbest & _ & _ & _ & _ & Hrainbow & _); [discriminate|].
    rewrite Hbest. clear Hbest.
    assert (Hr : t_powerUp best = Some Rainbow).
    { apply Hrainbow.
      - intros t Ht. apply list_elem_of_In in Ht. cbn [plainAndRainbow In] in Ht.
        destruct Ht as [<-|[<-|[]]]; discriminate.
      - eexists. split; [right; left|reflexivity]. }
    apply list_elem_of_In in Hin. cbn [plainAndRainbow In] in Hin.
    destruct Hin as [<-|[<-|[]]]; [discriminate Hr|reflexivity].
  - destruct (@local_fallback_priority exampleHost plainTargets "AI Service Unreachable"
                exampleHost_sorts) as [_ Hsome].
    destruct Hsome as (best & Hin & Hbest & _ & _ & _ & _ & _ & Hscore); [discriminate|].
    rewrite Hbest. clear Hbest.
    assert (Hplain : forall t, t ∈ plainTargets -> t_powerUp t = None).
    { intros t Ht. apply list_elem_of_In in Ht. cbn [plainTargets In] in Ht.
      destruct Ht as [<-|[<-|[<-|[]]]]; reflexivity. }
    specialize (Hscore Hplain (mkCandidate "1-4-1-0.2" "yellow" 4 1 4 250 "Center" None)
                  ltac:(right; right; left)).
    apply list_elem_of_In in Hin. cbn [plainTargets In] in Hin.
    destruct Hin as [<-|[<-|[<-|[]]]]; cbn [t_size t_pointsPerBubble t_row] in Hscore;
      [lia|lia|reflexivity].
Defined.

(** ** The target enumerator *)

Lemma elem_of_clusterNeighbors (activeBubbles : list Bubble) (color : BubbleColor)
    (visited : gset string) (curr n : Bubble) :
  n ∈ clusterNeighbors activeBubbles color visited curr
  <-> n ∈ activeBubbles /\ (b_id n ∉ visited) /\ inCluster color n = true
      /\ isNeighbor curr n = true.
Proof.
  unfold clusterNeighbors. rewrite elem_of_filter_bool.
  rewrite 2!andb_true_iff. rewrite negb_true_iff, bool_decide_eq_false. tauto.
Qed.

(** An invariant of the breadth-first loop holds when the loop ends. *)
Lemma clusterLoop_invariant (activeBubbles : list Bubble) (color : BubbleColor)
    (I : list Bubble -> gset string -> list Bubble -> bool -> Prop) :
  (forall curr rest visited clusterMembers hasRainbow,
      I (curr :: rest) visited clusterMembers hasRainbow ->
      let neighbors := clusterNeighbors activeBubbles color visited curr in
      I (rest ++ neighbors) (visited ∪ list_to_set (b_id <$> neighbors))
        (clusterMembers ++ [curr]) (hasRainbow || existsb isRainbow neighbors)) ->
  forall fuel queue visited clusterMembers hasRainbow members' visited' hasRainbow',
    I queue visited clusterMembers hasRainbow ->
    clusterLoop fuel activeBubbles color queue visited clusterMembers hasRainbow
    = Some (members', visited', hasRainbow') ->
    I [] visited' members' hasRainbow'.
Proof.
  intros Hstep. induction fuel as [|fuel IH];
    intros queue visited clusterMembers hasRainbow members' visited' hasRainbow' HI;
    cbn [clusterLoop]; [discriminate|].
  destruct queue as [|curr rest].
  - intros [= <- <- <-]. exact HI.
  - apply IH. apply Hstep. exact HI.
Qed.

Lemma filter_length_split {A} (f g h : A -> bool) (l : list A) :
  (forall x, x ∈ l -> f x = true -> h x = true /\ g x = false) ->
  (forall x, x ∈ l -> g x = true -> h x = true) ->
  (length (List.filter f l) + length (List.filter g l) <= length (List.filter h l))%nat.
Proof.
  induction l as [|x l IH]; intros Hf Hg; cbn [List.filter length]; [lia|].
  assert (IH' : (length (List.filter f l) + length (List.filter g l)
                 <= length (List.filter h l))%nat).
  { apply IH; intros y Hy; [apply Hf|apply Hg]; right; exact Hy. }
  pose proof (Hf x (list_elem_of_here _ _)) as Hfx.
  pose proof (Hg x (list_elem_of_here _ _)) as Hgx.
  destruct (f x) eqn:Ef.
  - destruct (Hfx eq_refl) as [-> ->]. cbn [length]. lia.
  - destruct (g x) eqn:Eg.
    + rewrite (Hgx eq_refl). cbn [length]. lia.
    + destruct (h x); cbn [length]; lia.
Qed.

Lemma clusterNeighbors_consumes (activeBubbles : list Bubble) (color : BubbleColor)
    (visited : gset string) (curr : Bubble) :
  let neighbors := clusterNeighbors activeBubbles color visited curr in
  (length (unvisited activeBubbles (visited ∪ list_to_set (b_id <$> neighbors)))
   + length neighbors <= length (unvisited activeBubbles visited))%nat.
Proof.
  intros neighbors. unfold unvisited. subst neighbors. unfold clusterNeighbors at 2.
  apply filter_length_split.
  - intros x Hx Hf. rewrite negb_true_iff, bool_decide_eq_false in Hf.
    split; [rewrite negb_true_iff, bool_decide_eq_false; set_solver|].
    destruct (negb (bool_decide (b_id x ∈ visited)) && inCluster color x && isNeighbor curr x)
      eqn:E; [|reflexivity].
    exfalso. apply Hf. apply elem_of_union. right.
    apply elem_of_list_to_set, list_elem_of_fmap. exists x. split; [reflexivity|].
    unfold clusterNeighbors. apply elem_of_filter_bool. auto.
  - intros x _ Hg. rewrite 2!andb_true_iff in Hg. tauto.
Qed.

(** The breadth-first loop ends. *)
Lemma clusterLoop_terminates (activeBubbles : list Bubble) (color : BubbleColor) :
  forall fuel queue visited clusterMembers hasRainbow,
    (length (unvisited activeBubbles visited) + length queue < fuel)%nat ->
    is_Some (clusterLoop fuel activeBubbles color queue visited clusterMembers hasRainbow).
Proof.
  induction fuel as [|fuel IH]; intros queue visited clusterMembers hasRainbow Hfuel; [lia|].
  cbn [clusterLoop]. destruct queue as [|curr rest]; [eauto|].
  apply IH. cbn [length] in Hfuel.
  pose proof (clusterNeighbors_consumes activeBubbles color visited curr) as Hc.
  cbn zeta in Hc. rewrite length_app. lia.
Qed.

Lemma clusterLoop_from_seed (activeBubbles : list Bubble) (color : BubbleColor)
    (visited : gset string) (b : Bubble) :
  exists clusterMembers visited' hasRainbow,
    clusterLoop (clusterFuel activeBubbles) activeBubbles color [b] visited [] false
    = Some (clusterMembers, visited', hasRainbow).
Proof.
  destruct (clusterLoop_terminates activeBubbles color (clusterFuel activeBubbles) [b]
              visited [] false) as [[[m v] h] Hm].
  - unfold clusterFuel, unvisited. cbn [length].
    pose proof (filter_length_le (fun n => negb (bool_decide (b_id n ∈ visited))) activeBubbles).
    lia.
  - eauto.
Qed.

(** A cluster is made of the seed and of active bubbles of its colour or
    rainbows, the seed among them. *)
Lemma clusterLoop_members (activeBubbles : list Bubble) (color : BubbleColor)
    (visited : gset string) (b : Bubble) fuel clusterMembers visited' hasRainbow :
  clusterLoop fuel activeBubbles color [b] visited [] false
  = Some (clusterMembers, visited', hasRainbow) ->
  b ∈ clusterMembers
  /\ (forall m, m ∈ clusterMembers ->
        m = b \/ (m ∈ activeBubbles /\ inCluster color m = true)).
Proof.
  intros Hloop.
  pose proof (clusterLoop_invariant activeBubbles color
                (fun queue _ members _ =>
                   (b ∈ queue \/ b ∈ members)
                   /\ (forall m, m ∈ queue ++ members ->
                         m = b \/ (m ∈ activeBubbles /\ inCluster color m = true)))) as Hinv.
  destruct (Hinv) with (fuel := fuel) (queue := [b]) (visited := visited)
    (clusterMembers := @nil Bubble) (hasRainbow := false) (members' := clusterMembers)
    (visited' := visited') (hasRainbow' := hasRainbow) as [Hb Hm].
  - intros curr rest v members hr [Hseed Hall] neighbors. split.
    + destruct Hseed as [Hq|Hmem].
      * apply elem_of_cons in Hq as [->|Hq].
        -- right. apply elem_of_app. right. left.
        -- left. apply elem_of_app. left. exact Hq.
      * right. apply elem_of_app. left. exact Hmem.
    + intros m Hmq. rewrite !elem_of_app in Hmq.
      destruct Hmq as [[Hr|Hn]|[Hmem|Hc]].
      * apply Hall. apply elem_of_app. left. right. exact Hr.
      * apply elem_of_clusterNeighbors in Hn. right. tauto.
      * apply Hall. apply elem_of_app. right. exact Hmem.
      * apply list_elem_of_singleton in Hc as ->. apply Hall. left.
  - split; [left; left|]. intros m Hmq. rewrite app_nil_r in Hmq.
    apply list_elem_of_singleton in Hmq. auto.
  - exact Hloop.
  - split.
    + destruct Hb as [Hq|Hmem]; [inversion Hq|exact Hmem].
    + intros m Hmem. apply Hm. exact Hmem.
Qed.


Lemma find_none_iff {A} (f : A -> bool) (l : list A) :
  List.find f l = None <-> forall x, x ∈ l -> f x = false.
Proof.
  split.
  - intros Hn x Hx. apply (find_none f l Hn). apply list_elem_of_In. exact Hx.
  - intros Hall. induction l as [|x l IH]; [reflexivity|]. cbn [List.find].
    rewrite (Hall x (list_elem_of_here _ _)). apply IH. intros y Hy. apply Hall. right. exact Hy.
Qed.






(** ** Bombs in the enumerator *)

(** What the scan of a colour does on a bomb it has not visited: the bomb is
    listed, with the fixed size and points and whatever its colour, when the
    path to it is clear, and nothing happens otherwise; no cluster is
    searched from it. *)
Lemma visitBubble_bomb `{Host} (anchor : Point) (width : Q) (bs activeBubbles : list Bubble)
    (color : BubbleColor) (visited : gset string) (allClusters : list TargetCandidate)
    (b : Bubble) :
  isBomb b = true -> b_id b ∉ visited ->
  visitBubble anchor width bs activeBubbles color (visited, allClusters) b
  = if isPathClear anchor bs b
    then (visited ∪ {[ b_id b ]}, allClusters ++ [bombCandidate b])
    else (visited, allClusters).
Proof.
  intros Hb Hv. unfold visitBubble. rewrite Hb.
  rewrite bool_decide_eq_false_2 by exact Hv. reflexivity.
Qed.

(** A bomb that the search of a cluster has already met is passed over: a
    reachable bomb next to a bubble of its colour that precedes it in the
    store is counted in that bubble's cluster and is not listed as a bomb. *)
Lemma bomb_absorbed_by_cluster :
  isPathClear (anchorPos bombBesideRed) (bubbles bombBesideRed)
    (gridBubble "0-3-1-0.1" 0 3 Red (Some Bomb)) = true
  /\ @getAllReachableClusters exampleHost bombBesideRed
     = [ mkCandidate "0-2-1-0.0" "red" 2 0 2 100 "Center" None ].
Proof. split; vm_compute; reflexivity. Qed.

(** C5, on the code: the scan of each colour starts with an empty [visited],
    so a reachable bomb is listed once for every colour on the board. *)
Lemma bomb_listed_for_each_colour :
  isPathClear (anchorPos bombAndBlue) (bubbles bombAndBlue)
    (gridBubble "0-2-1-0.1" 0 2 Red (Some Bomb)) = true
  /\ @getAllReachableClusters exampleHost bombAndBlue
     = [ mkCandidate "0-2-1-0.1" "red" 10 0 2 500 "BOMB" (Some Bomb);
         mkCandidate "0-2-1-0.1" "red" 10 0 2 500 "BOMB" (Some Bomb);
         mkCandidate "0-9-1-0.2" "blue" 1 0 9 150 "Center" None ].
Proof. split; vm_compute; reflexivity. Qed.

(** ** The transport policy *)

Lemma requests_backoffTrace (k : nat) : forall i delay, requests (backoffTrace i delay k) = S k.
Proof.
  induction k as [|k IH]; intros i delay; [reflexivity|].
  cbn [backoffTrace]. unfold requests in *. cbn [List.filter length]. rewrite IH. reflexivity.
Qed.

Lemma retryLoop_after_transients (transport : nat -> Attempt) (k : nat) (result : RetryResult) :
  (k < retries)%nat -> transientUntil transport k -> decided transport k = Some result ->
  retryLoop transport retries 0 1000 [] = (result, backoffTrace 0 1000 k).
Proof.
  intros Hk Htr Hdec. unfold retries in *. unfold decided in Hdec.
  assert (H0 : (1 <= k)%nat -> exists e, transport 0%nat = Failed e /\ transient e)
    by (intros; apply Htr; lia).
  assert (H1 : (2 <= k)%nat -> exists e, transport 1%nat = Failed e /\ transient e)
    by (intros; apply Htr; lia).
  destruct k as [|[|[|k]]]; [| | |lia].
  - cbn [retryLoop app]. destruct (transport 0%nat) as [text|err].
    + injection Hdec as <-. reflexivity.
    + destruct (isQuota err || isOverloaded err); [injection Hdec as <-; reflexivity|].
      discriminate Hdec.
  - destruct H0 as (e0 & E0 & T0); [lia|]. unfold transient in T0.
    cbn [retryLoop app]. rewrite E0, T0. cbn [Nat.eqb Nat.sub].
    destruct (transport 1%nat) as [text|err].
    + injection Hdec as <-. reflexivity.
    + destruct (isQuota err || isOverloaded err); [injection Hdec as <-; reflexivity|].
      discriminate Hdec.
  - destruct H0 as (e0 & E0 & T0); [lia|]. destruct H1 as (e1 & E1 & T1); [lia|].
    unfold transient in T0, T1.
    cbn [retryLoop app]. rewrite E0, T0. cbn [Nat.eqb Nat.sub]. rewrite E1, T1.
    cbn [Nat.eqb]. destruct (transport 2%nat) as [text|err].
    + injection Hdec as <-. reflexivity.
    + destruct (isQuota err || isOverloaded err); injection Hdec as <-; reflexivity.
Qed.

(** C3. After [k] transient failures (k = 0, 1 or 2), a failure with a quota
    or overload signal ends the loop at once: [k + 1] calls have been made,
    exactly one when the first call fails so, and the answer is the local
    fallback, with the service message and the status in the error of the
    debug record.  Transient failures are retried: three of them make three
    calls, with waits of 1000 ms and 2000 ms after the first and the second,
    and a response after [k] of them is taken after those [k] waits. *)
Theorem quota_failure_stops_retries `{Host} (validTargets : list TargetCandidate)
    (transport : nat -> Attempt) (startTime endTime : Q) :
  let answer := getStrategicHint validTargets transport startTime endTime in
  (forall k err,
      (k < retries)%nat -> transientUntil transport k -> transport k = Failed err ->
      isQuota err || isOverloaded err = true ->
      hint answer.1
      = getBestLocalTarget validTargets
          (if isOverloaded err then "⚠️ Service Busy: Using Local Strategy"
           else "⚠️ Offline Mode: Quota Exceeded")
      /\ error (debug answer.1)
         = Some (statusLabel (statusAndMessage err).1 +:+ ": Service Unavailable")
      /\ answer.2 = backoffTrace 0 1000 k
      /\ requests answer.2 = S k
      /\ (k = 0%nat -> answer.2 = [Request 0]))
  /\ (transientUntil transport retries ->
      answer.2 = [Request 0; Sleep 1000; Request 1; Sleep 2000; Request 2]
      /\ hint answer.1 = getBestLocalTarget validTargets "AI Service Unreachable")
  /\ (forall k text,
        (k < retries)%nat -> transientUntil transport k -> transport k = Succeeded text ->
        answer.2 = backoffTrace 0 1000 k
        /\ answer.1 = interpretResponse validTargets text (Math_round (endTime - startTime))).
Proof.
  intros answer. split; [|split].
  - intros k err Hk Htr Hfail Hq.
    assert (Hloop : retryLoop transport retries 0 1000 [] = (Aborted err, backoffTrace 0 1000 k)).
    { apply retryLoop_after_transients; [exact Hk|exact Htr|].
      unfold decided. rewrite Hfail, Hq. reflexivity. }
    subst answer. unfold getStrategicHint. rewrite Hloop. cbn [fst snd hint debug error].
    split; [reflexivity|]. split; [reflexivity|]. split; [reflexivity|].
    split; [apply requests_backoffTrace|]. intros ->. reflexivity.
  - intros Htr.
    assert (Htr2 : transientUntil transport 2).
    { intros j Hj. apply Htr. unfold retries. lia. }
    destruct (Htr 2%nat) as (err & Hfail & Ht); [unfold retries; lia|]. unfold transient in Ht.
    assert (Hloop : retryLoop transport retries 0 1000 [] = (Raised err, backoffTrace 0 1000 2)).
    { apply retryLoop_after_transients; [unfold retries; lia|exact Htr2|].
      unfold decided. rewrite Hfail, Ht. reflexivity. }
    subst answer. unfold getStrategicHint. rewrite Hloop. cbn [fst snd hint].
    split; reflexivity.
  - intros k text Hk Htr Hok.
    assert (Hloop : retryLoop transport retries 0 1000 []
                    = (Responded text, backoffTrace 0 1000 k)).
    { apply retryLoop_after_transients; [exact Hk|exact Htr|].
      unfold decided. rewrite Hok. reflexivity. }
    subst answer. unfold getStrategicHint. rewrite Hloop. cbn [fst snd]. split; reflexivity.
Qed.

Lemma quota_failure_stops_retries_witness :
  (@getStrategicHint exampleHost exampleTargets (fun _ => Failed quotaError) 0 250).2
  = [Request 0]
  /\ error (debug (@getStrategicHint exampleHost exampleTargets (fun _ => Failed quotaError)
                     0 250).1)
     = Some "429: Service Unavailable".
Proof.
  destruct (@quota_failure_stops_retries exampleHost exampleTargets
              (fun _ => Failed quotaError) 0 250) as [Hquota _].
  destruct (Hquota 0%nat quotaError) as (_ & Herr & _ & _ & Hone).
  - unfold retries. lia.
  - intros j Hj. lia.
  - reflexivity.
  - reflexivity.
  - split; [apply Hone; reflexivity|]. rewrite Herr. reflexivity.
Defined.

(** ** Validation of the response *)

Lemma strOr_nonempty (a b : string) : a <> "" -> strOr a b = a.
Proof.
  intros Ha. unfold strOr. destruct (String.eqb a "") eqn:E; [|reflexivity].
  apply String.eqb_eq in E. contradiction.
Qed.

Lemma getStrategicHint_responds `{Host} (validTargets : list TargetCandidate)
    (transport : nat -> Attempt) (startTime endTime : Q) (k : nat) (text : string) :
  responds transport k text ->
  (getStrategicHint validTargets transport startTime endTime).1
  = interpretResponse validTargets (Some text) (Math_round (endTime - startTime)).
Proof.
  intros (Hk & Htr & Hok & _).
  assert (Hloop : retryLoop transport retries 0 1000 []
                  = (Responded (Some text), backoffTrace 0 1000 k)).
  { apply retryLoop_after_transients; [exact Hk|exact Htr|].
    unfold decided. rewrite Hok. reflexivity. }
  unfold getStrategicHint. rewrite Hloop. reflexivity.
Qed.

Lemma interpretResponse_cases `{Host} (validTargets : list TargetCandidate)
    (text : string) (elapsed : Z) (json : JsValue) :
  text <> "" -> JSON_parse text = Normal json ->
  match readHint json with
  | Normal (Some h) =>
      interpretResponse validTargets (Some text) elapsed
      = mkResponse h (mkDebug elapsed text (Some json) None)
  | _ => fellBack validTargets (interpretResponse validTargets (Some text) elapsed)
  end.
Proof.
  intros Hne Hp. unfold interpretResponse. cbn [default]. rewrite (strOr_nonempty _ _ Hne), Hp.
  destruct (readHint json) as [[h|]|e].
  - reflexivity.
  - left. split; reflexivity.
  - right. split; [reflexivity|]. eexists. reflexivity.
Qed.

(** Reading a document that lacks [targetRow], [targetCol] or
    [recommendedColor] gives no hint. *)
Lemma readHint_missing `{Host} (fields : list (string * JsValue)) :
  lookupField "targetRow" fields = JUndefined
  \/ lookupField "targetCol" fields = JUndefined
  \/ lookupField "recommendedColor" fields = JUndefined ->
  forall h, readHint (JObject fields) <> Normal (Some h).
Proof.
  intros Hmiss h. unfold readHint, mbind, completion_bind, mret, completion_ret.
  cbn [getProp].
  destruct (Number (lookupField "targetRow" fields)) as [r|e] eqn:Er; [|discriminate].
  destruct (Number (lookupField "targetCol" fields)) as [c|e] eqn:Ec; [|discriminate].
  destruct Hmiss as [Hm|[Hm|Hm]].
  - rewrite Hm in Er. injection Er as <-. cbn [isNaN negb andb]. discriminate.
  - rewrite Hm in Ec. injection Ec as <-.
    destruct (isNaN r); cbn [isNaN negb andb]; discriminate.
  - rewrite Hm. destruct (isNaN r), (isNaN c); cbn [truthy negb andb]; discriminate.
Qed.

(** Only an object gives a hint. *)
Lemma readHint_not_object `{Host} (json : JsValue) :
  (forall fields, json <> JObject fields) -> forall h, readHint json <> Normal (Some h).
Proof.
  intros Hno h. unfold readHint, mbind, completion_bind, mret, completion_ret.
  destruct json as [| |b|n|s|items|fields]; cbn [getProp Number isNaN negb andb];
    try discriminate.
  exfalso. apply (Hno fields). reflexivity.
Qed.

(** Reading a document gives no hint when a coordinate does not convert to a
    number, or when the colour is not a string or is the empty string. *)
Lemma readHint_invalid `{Host} (fields : list (string * JsValue)) :
  (forall r, Number (lookupField "targetRow" fields) = Normal r -> isNaN r = true)
  \/ (forall c, Number (lookupField "targetCol" fields) = Normal c -> isNaN c = true)
  \/ (forall s, lookupField "recommendedColor" fields = JString s -> s = "") ->
  forall h, readHint (JObject fields) <> Normal (Some h).
Proof.
  intros Hbad h. unfold readHint, mbind, completion_bind, mret, completion_ret.
  cbn [getProp].
  destruct (Number (lookupField "targetRow" fields)) as [r|e] eqn:Er; [|discriminate].
  destruct (Number (lookupField "targetCol" fields)) as [c|e] eqn:Ec; [|discriminate].
  destruct Hbad as [Hm|[Hm|Hm]].
  - rewrite (Hm r eq_refl). cbn [negb andb]. discriminate.
  - rewrite (Hm c eq_refl). destruct (isNaN r); cbn [negb andb]; discriminate.
  - destruct (isNaN r), (isNaN c); cbn [negb andb]; try discriminate.
    destruct (lookupField "recommendedColor" fields) as [| |b|n|s|items|fs] eqn:Ecol;
      cbn [truthy]; try discriminate.
    + destruct b; cbn [callToLowerCase]; discriminate.
    + destruct n as [|q|neg]; [discriminate| |cbn [callToLowerCase]; discriminate].
      destruct (negb (Qeq_bool q 0)); cbn [callToLowerCase]; discriminate.
    + rewrite (Hm s eq_refl). cbn [String.eqb negb]. discriminate.
Qed.

(** Reading a document whose coordinates convert to numbers and whose colour
    is a non-empty string gives the hint of the advisor. *)
Lemma readHint_accepts `{Host} (fields : list (string * JsValue)) (r c : JsNum) (s : string) :
  Number (lookupField "targetRow" fields) = Normal r -> isNaN r = false ->
  Number (lookupField "targetCol" fields) = Normal c -> isNaN c = false ->
  lookupField "recommendedColor" fields = JString s -> s <> "" ->
  readHint (JObject fields)
  = Normal (Some (mkHint (orElse (lookupField "message" fields) (JString "Good shot available!"))
                    (lookupField "rationale" fields) (Some r) (Some c) (Some (toLowerCase s)))).
Proof.
  intros Hr Hrn Hc Hcn Hs Hne. unfold readHint, mbind, completion_bind, mret, completion_ret.
  cbn [getProp]. rewrite Hr, Hc, Hrn, Hcn, Hs. cbn [negb andb truthy callToLowerCase].
  destruct (String.eqb s "") eqn:E; [apply String.eqb_eq in E; contradiction|].
  reflexivity.
Qed.

(** A response without [message] is accepted, the hint taking a default
    message. *)
Lemma missing_message_is_accepted : ~ four_fields_required.
Proof.
  intros Hclaim.
  specialize (Hclaim exampleHost [] (fun _ => Succeeded (Some docNoMessage)) 0%Q 250%Q 0%nat
                docNoMessage
                [("recommendedColor", JString "red"); ("targetRow", JNumber (Finite 1));
                 ("targetCol", JNumber (Finite 2))]).
  destruct Hclaim as [[_ Herr]|[_ [reason Herr]]].
  - split; [unfold retries; lia|]. split; [intros j Hj; lia|]. split; [reflexivity|].
    intros Hd. vm_compute in Hd. discriminate.
  - vm_compute. reflexivity.
  - left. reflexivity.
  - vm_compute in Herr. discriminate.
  - vm_compute in Herr. discriminate.
Qed.

Ltac answers_at_once :=
  split; [unfold retries; lia|]; split; [intros j Hj; lia|]; split; [reflexivity|];
  intros Hd; vm_compute in Hd; discriminate.

(** C4, amended.  A response is replaced by the local fallback, with a reason
    in the debug record, and its content is not the hint, in each of these
    cases: its text does not parse; it parses to something that is not an
    object; the object lacks [targetRow], [targetCol] or [recommendedColor];
    [targetRow] or [targetCol] does not convert to a number; the colour is
    not a string, or is the empty string.  In the one case left, an object
    whose coordinates convert to numbers and whose colour is a string that is
    not empty, the response is accepted whether or not it has a [message]:
    without one the hint says "Good shot available!". *)
Theorem three_fields_required `{Host} (validTargets : list TargetCandidate)
    (transport : nat -> Attempt) (startTime endTime : Q) (k : nat) (text : string) :
  responds transport k text ->
  let answer := (getStrategicHint validTargets transport startTime endTime).1 in
  (forall e, JSON_parse text = Throw e ->
      hint answer = getBestLocalTarget validTargets "AI response parse error"
      /\ error (debug answer) = Some ("JSON Parse Error: " +:+ error_message e))
  /\ (forall json,
        JSON_parse text = Normal json -> (forall fields, json <> JObject fields) ->
        fellBack validTargets answer)
  /\ (forall fields,
        JSON_parse text = Normal (JObject fields) ->
        lookupField "targetRow" fields = JUndefined
        \/ lookupField "targetCol" fields = JUndefined
        \/ lookupField "recommendedColor" fields = JUndefined ->
        fellBack validTargets answer)
  /\ (forall fields,
        JSON_parse text = Normal (JObject fields) ->
        (forall r, Number (lookupField "targetRow" fields) = Normal r -> isNaN r = true)
        \/ (forall c, Number (lookupField "targetCol" fields) = Normal c -> isNaN c = true)
        \/ (forall s, lookupField "recommendedColor" fields = JString s -> s = "") ->
        fellBack validTargets answer)
  /\ (forall fields r c s,
        JSON_parse text = Normal (JObject fields) ->
        Number (lookupField "targetRow" fields) = Normal r -> isNaN r = false ->
        Number (lookupField "targetCol" fields) = Normal c -> isNaN c = false ->
        lookupField "recommendedColor" fields = JString s -> s <> "" ->
        hint answer
        = mkHint (orElse (lookupField "message" fields) (JString "Good shot available!"))
            (lookupField "rationale" fields) (Some r) (Some c) (Some (toLowerCase s))
        /\ error (debug answer) = None
        /\ (lookupField "message" fields = JUndefined ->
            message (hint answer) = JString "Good shot available!")).
Proof.
  intros Hresp answer.
  assert (Hans : answer = interpretResponse validTargets (Some text)
                            (Math_round (endTime - startTime))).
  { subst answer. apply (getStrategicHint_responds _ _ _ _ k). exact Hresp. }
  destruct Hresp as (_ & _ & _ & Hne). rewrite Hans.
  assert (Hfall : forall json,
             JSON_parse text = Normal json -> (forall h, readHint json <> Normal (Some h)) ->
             fellBack validTargets
               (interpretResponse validTargets (Some text) (Math_round (endTime - startTime)))).
  { intros json Hp Hno.
    pose proof (interpretResponse_cases validTargets text (Math_round (endTime - startTime))
                  _ Hne Hp) as Hcases.
    destruct (readHint json) as [[h|]|e]; [|exact Hcases|exact Hcases].
    exfalso. apply (Hno h). reflexivity. }
  split; [|split; [|split; [|split]]].
  - intros e Hp. unfold interpretResponse. cbn [default].
    rewrite (strOr_nonempty _ _ Hne), Hp. split; reflexivity.
  - intros json Hp Hno. apply (Hfall json Hp). apply readHint_not_object. exact Hno.
  - intros fields Hp Hmiss. apply (Hfall _ Hp). apply readHint_missing. exact Hmiss.
  - intros fields Hp Hbad. apply (Hfall _ Hp). apply readHint_invalid. exact Hbad.
  - intros fields r c s Hp Hr Hrn Hc Hcn Hs Hsne.
    pose proof (interpretResponse_cases validTargets text (Math_round (endTime - startTime))
                  _ Hne Hp) as Hcases.
    rewrite (readHint_accepts fields r c s Hr Hrn Hc Hcn Hs Hsne) in Hcases.
    rewrite Hcases. cbn [hint debug error message]. split; [reflexivity|].
    split; [reflexivity|]. intros ->. reflexivity.
Qed.

Lemma three_fields_required_witness :
  fellBack (H := exampleHost) exampleTargets
    (@getStrategicHint exampleHost exampleTargets (fun _ => Succeeded (Some docNoCol)) 0 250).1
  /\ fellBack (H := exampleHost) exampleTargets
       (@getStrategicHint exampleHost exampleTargets (fun _ => Succeeded (Some docBadRow))
          0 250).1
  /\ fellBack (H := exampleHost) exampleTargets
       (@getStrategicHint exampleHost exampleTargets (fun _ => Succeeded (Some docNoColour))
          0 250).1
  /\ fellBack (H := exampleHost) exampleTargets
       (@getStrategicHint exampleHost exampleTargets (fun _ => Succeeded (Some docArray))
          0 250).1
  /\ hint (@getStrategicHint exampleHost exampleTargets
             (fun _ => Succeeded (Some docNoMessage)) 0 250).1
     = mkHint (JString "Good shot available!") JUndefined (Some (Finite 1)) (Some (Finite 2))
         (Some "red").
Proof.
  split; [|split; [|split; [|split]]].
  - destruct (@three_fields_required exampleHost exampleTargets
                (fun _ => Succeeded (Some docNoCol)) 0 250 0%nat docNoCol ltac:(answers_at_once))
      as (_ & _ & Hmiss & _).
    eapply Hmiss; [vm_compute; reflexivity|]. right. left. reflexivity.
  - destruct (@three_fields_required exampleHost exampleTargets
                (fun _ => Succeeded (Some docBadRow)) 0 250 0%nat docBadRow
                ltac:(answers_at_once))
      as (_ & _ & _ & Hbad & _).
    eapply Hbad; [vm_compute; reflexivity|]. left. intros r Hr.
    vm_compute in Hr. injection Hr as <-. reflexivity.
  - destruct (@three_fields_required exampleHost exampleTargets
                (fun _ => Succeeded (Some docNoColour)) 0 250 0%nat docNoColour
                ltac:(answers_at_once))
      as (_ & _ & _ & Hbad & _).
    eapply Hbad; [vm_compute; reflexivity|]. right. right. intros s Hs.
    vm_compute in Hs. injection Hs as <-. reflexivity.
  - destruct (@three_fields_required exampleHost exampleTargets
                (fun _ => Succeeded (Some docArray)) 0 250 0%nat docArray
                ltac:(answers_at_once))
      as (_ & Hobj & _).
    eapply Hobj; [vm_compute; reflexivity|]. intros fields. discriminate.
  - destruct (@three_fields_required exampleHost exampleTargets
                (fun _ => Succeeded (Some docNoMessage)) 0 250 0%nat docNoMessage
                ltac:(answers_at_once))
      as (_ & _ & _ & _ & Hacc).
    destruct (Hacc [("recommendedColor", JString "red"); ("targetRow", JNumber (Finite 1));
                    ("targetCol", JNumber (Finite 2))] (Finite 1) (Finite 2) "red")
      as (Hh & _);
      [vm_compute; reflexivity|reflexivity|reflexivity|reflexivity|reflexivity|reflexivity
      |discriminate|].
    exact Hh.
Defined.

(** C10. A response whose [targetRow] and [targetCol] convert to numbers and
    whose [recommendedColor] is a non-empty string is answered with a hint
    that carries those two numbers as they are and the colour as the
    runtime's [toLowerCase] returns it, with no error in the debug record;
    the colour is not compared with the palette nor the cell with the bounds
    of the grid. *)
Theorem advisor_target_passes_through `{Host} (validTargets : list TargetCandidate)
    (transport : nat -> Attempt) (startTime endTime : Q) (k : nat) (text : string)
    (fields : list (string * JsValue)) (r c : JsNum) (color : string) :
  responds transport k text ->
  JSON_parse text = Normal (JObject fields) ->
  Number (lookupField "targetRow" fields) = Normal r -> isNaN r = false ->
  Number (lookupField "targetCol" fields) = Normal c -> isNaN c = false ->
  lookupField "recommendedColor" fields = JString color -> color <> "" ->
  let answer := (getStrategicHint validTargets transport startTime endTime).1 in
  targetRow (hint answer) = Some r
  /\ targetCol (hint answer) = Some c
  /\ recommendedColor (hint answer) = Some (toLowerCase color)
  /\ message (hint answer)
     = orElse (lookupField "message" fields) (JString "Good shot available!")
  /\ rationale (hint answer) = lookupField "rationale" fields
  /\ error (debug answer) = None.
Proof.
  intros Hresp Hp Hr Hrn Hc Hcn Hs Hne answer.
  assert (Hans : answer = interpretResponse validTargets (Some text)
                            (Math_round (endTime - startTime))).
  { subst answer. apply (getStrategicHint_responds _ _ _ _ k). exact Hresp. }
  destruct Hresp as (_ & _ & _ & Htext).
  pose proof (interpretResponse_cases validTargets text (Math_round (endTime - startTime))
                _ Htext Hp) as Hcases.
  rewrite (readHint_accepts fields r c color Hr Hrn Hc Hcn Hs Hne) in Hcases.
  rewrite Hans, Hcases. cbn [hint debug error targetRow targetCol recommendedColor message
                              rationale].
  repeat split; reflexivity.
Qed.

Lemma advisor_target_passes_through_witness :
  let answer :=
    (@getStrategicHint exampleHost exampleTargets (fun _ => Succeeded (Some docOffBoard))
       0 250).1 in
  targetRow (hint answer) = Some (Finite 99)
  /\ targetCol (hint answer) = Some (Finite (-4))
  /\ recommendedColor (hint answer) = Some "magenta".
Proof.
  destruct (@advisor_target_passes_through exampleHost exampleTargets
              (fun _ => Succeeded (Some docOffBoard)) 0 250 0%nat docOffBoard
              [("message", JString "Go"); ("rationale", JString "r");
               ("recommendedColor", JString "Magenta");
               ("targetRow", JNumber (Finite 99)); ("targetCol", JNumber (Finite (-4)))]
              (Finite 99) (Finite (-4)) "Magenta")
    as (Hrow & Hcol & Hcolor & _).
  - split; [unfold retries; lia|]. split; [intros j Hj; lia|]. split; [reflexivity|].
    intros Hd. vm_compute in Hd. discriminate.
  - vm_compute. reflexivity.
  - reflexivity.
  - reflexivity.
  - reflexivity.
  - reflexivity.
  - reflexivity.
  - discriminate.
  - intros answer. split; [exact Hrow|]. split; [exact Hcol|]. exact Hcolor.
Defined.

(** * Further properties of the code *)

(** ** The grid and the neighbour relation *)

Lemma Qltb_comp (a a' b b' : Q) : (a == a')%Q -> (b == b')%Q -> Qltb a b = Qltb a' b'.
Proof.
  intros Ha Hb. destruct (Qltb a' b') eqn:E.
  - apply Qltb_lt. apply Qltb_lt in E. rewrite Ha, Hb. exact E.
  - apply Qltb_ge. apply Qltb_ge in E. rewrite Ha, Hb. exact E.
Qed.

Lemma dist2_sym (x1 y1 x2 y2 : Q) : (dist2 x1 y1 x2 y2 == dist2 x2 y2 x1 y1)%Q.
Proof. unfold dist2, Qsq. ring. Qed.

Lemma rowIsOdd (row : Z) : negb (Z.rem row 2 =? 0) = Z.odd row.
Proof.
  rewrite <- Z.negb_even. f_equal.
  destruct (Z.rem row 2 =? 0) eqn:E.
  - apply Z.eqb_eq in E. symmetry. apply Z.even_spec.
    exists (Z.quot row 2). pose proof (Z.quot_rem' row 2). lia.
  - apply Z.eqb_neq in E. symmetry. apply not_true_is_false. intros Hev.
    apply Z.even_spec in Hev as [k Hk]. apply E. subst row.
    rewrite Z.mul_comm. apply Z.rem_mul. lia.
Qed.

(** The two coordinates of a cell. *)
Lemma getBubblePos_x (row col : Z) (width : Q) :
  (px (getBubblePos row col width)
   == (width - 528) / 2 + 22 + 44 * inject_Z col + 22 * inject_Z (Z.b2z (Z.odd row)))%Q.
Proof.
  unfold getBubblePos. cbn [px]. rewrite rowIsOdd. unfold GRID_COLS, BUBBLE_RADIUS.
  destruct (Z.odd row); cbn [Z.b2z]; unfold inject_Z; field.
Qed.

Lemma getBubblePos_y (row col : Z) (width : Q) :
  (py (getBubblePos row col width) == 22 + inject_Z row * ROW_HEIGHT)%Q.
Proof. unfold getBubblePos. cbn [py]. unfold BUBBLE_RADIUS. reflexivity. Qed.

Lemma isNeighbor_sym (b1 b2 : Bubble) : isNeighbor b1 b2 = isNeighbor b2 b1.
Proof. unfold isNeighbor. apply Qltb_comp; [apply dist2_sym|reflexivity]. Qed.

Lemma placedAt_getBubblePos (width : Q) (row col : Z) (b : Bubble) :
  mkPoint (b_x b) (b_y b) = getBubblePos row col width -> placedAt width row col b.
Proof. intros H. unfold placedAt. rewrite <- H. split; reflexivity. Qed.

(** An active bubble goes one row down, stays in its column, and is drawn at
    the centre of its new cell. *)
Lemma lowerBubble_active (width : Q) (b : Bubble) :
  b_active (lowerBubble width b) = true ->
  b_active b = true
  /\ b_row (lowerBubble width b) = b_row b + 1
  /\ b_col (lowerBubble width b) = b_col b
  /\ placedAt width (b_row b + 1) (b_col b) (lowerBubble width b).
Proof.
  unfold lowerBubble. destruct (b_active b) eqn:Ha; [|congruence]. intros _.
  cbn [b_row b_col]. repeat split; reflexivity.
Qed.

Lemma ROW_HEIGHT_sq_bounds : (1451 < Qsq ROW_HEIGHT)%Q /\ (Qsq ROW_HEIGHT < 1453)%Q.
Proof. split; reflexivity. Qed.

(** The squared distance between the centres of two cells. *)
Lemma cell_dist2 (width : Q) (r1 c1 r2 c2 : Z) (a b : Bubble) :
  placedAt width r1 c1 a -> placedAt width r2 c2 b ->
  let m := 2 * (c1 - c2) + (Z.b2z (Z.odd r1) - Z.b2z (Z.odd r2)) in
  let dr := r1 - r2 in
  (dist2 (b_x a) (b_y a) (b_x b) (b_y b)
   == 484 * inject_Z (m * m) + inject_Z (dr * dr) * Qsq ROW_HEIGHT)%Q.
Proof.
  intros [Hax Hay] [Hbx Hby] m dr. unfold dist2, Qsq.
  rewrite Hax, Hay, Hbx, Hby, !getBubblePos_x, !getBubblePos_y.
  subst m dr. unfold Z.sub.
  repeat (rewrite ?inject_Z_mult, ?inject_Z_plus, ?inject_Z_opp).
  change (inject_Z 2) with 2%Q. field.
Qed.

Lemma odd_same_or_flipped (r1 r2 : Z) :
  (r1 - r2 = 0 -> Z.odd r2 = Z.odd r1)
  /\ (r1 - r2 = 1 \/ r1 - r2 = -1 -> Z.odd r2 = negb (Z.odd r1)).
Proof.
  split.
  - intros H. f_equal. lia.
  - intros [H|H].
    + replace r1 with (Z.succ r2) by lia. rewrite Z.odd_succ, <- Z.negb_odd, negb_involutive.
      reflexivity.
    + replace r2 with (Z.succ r1) by lia. rewrite Z.odd_succ, <- Z.negb_odd. reflexivity.
Qed.

Lemma odd_next (r : Z) : Z.odd (r + 1) = negb (Z.odd r).
Proof.
  replace (r + 1) with (Z.succ r) by lia. rewrite Z.odd_succ, <- Z.negb_odd. reflexivity.
Qed.

Lemma square_small (k n : Z) : 0 <= n -> k * k <= n * n -> - n <= k <= n.
Proof. intros Hn Hk. nia. Qed.

(** Two bubbles on the grid are neighbours exactly when they are on the same
    row at most two half-steps apart, or on adjacent rows at most one
    half-step apart; [m] counts the half-steps (bubble radii) between their
    centres. *)
Lemma isNeighbor_offsets (width : Q) (r1 c1 r2 c2 : Z) (a b : Bubble) :
  placedAt width r1 c1 a -> placedAt width r2 c2 b ->
  let m := 2 * (c1 - c2) + (Z.b2z (Z.odd r1) - Z.b2z (Z.odd r2)) in
  let dr := r1 - r2 in
  isNeighbor a b = true
  <-> (dr = 0 /\ -2 <= m <= 2) \/ ((dr = 1 \/ dr = -1) /\ -1 <= m <= 1).
Proof.
  intros Ha Hb m dr. unfold isNeighbor. rewrite Qltb_lt.
  pose proof (cell_dist2 width r1 c1 r2 c2 a b Ha Hb) as Hd. cbn zeta in Hd. rewrite Hd.
  fold m. fold dr. clearbody m dr. clear Hd Ha Hb a b.
  destruct ROW_HEIGHT_sq_bounds as [Klo Khi].
  assert (HM : 0 <= m * m) by apply Z.square_nonneg.
  assert (HN : 0 <= dr * dr) by apply Z.square_nonneg.
  assert (Hthr : (Qsq (BUBBLE_RADIUS * (22 # 10)) == 234256 # 100)%Q) by reflexivity.
  rewrite Hthr.
  assert (HNq : (0 <= inject_Z (dr * dr))%Q)
    by (change 0%Q with (inject_Z 0); rewrite <- Zle_Qle; exact HN).
  assert (HMq : (0 <= inject_Z (m * m))%Q)
    by (change 0%Q with (inject_Z 0); rewrite <- Zle_Qle; exact HM).
  split.
  - intros Hlt.
    assert (HZ : 48400 * (m * m) + 145100 * (dr * dr) < 234256).
    { rewrite Zlt_Qlt. rewrite inject_Z_plus, !inject_Z_mult.
      change (inject_Z 48400) with 48400%Q. change (inject_Z 145100) with 145100%Q.
      change (inject_Z 234256) with 234256%Q.
      rewrite <- !inject_Z_mult.
      assert (Hk : (1451 * inject_Z (dr * dr) <= Qsq ROW_HEIGHT * inject_Z (dr * dr))%Q).
      { apply Qmult_le_compat_r. - apply Qlt_le_weak. exact Klo. - exact HNq. }
      lra. }
    pose proof (square_small dr 1 ltac:(lia) ltac:(lia)) as Hdr.
    assert (Hdr' : dr = 0 \/ dr = 1 \/ dr = -1) by lia.
    destruct Hdr' as [->|Hdr'].
    + left. split; [reflexivity|]. pose proof (square_small m 2 ltac:(lia) ltac:(lia)). lia.
    + right. split; [tauto|].
      assert (dr * dr = 1) by (destruct Hdr' as [->| ->]; reflexivity).
      pose proof (square_small m 1 ltac:(lia) ltac:(lia)). lia.
  - intros Hcase.
    assert (Hb : (dr * dr = 0 /\ m * m <= 4) \/ (dr * dr = 1 /\ m * m <= 1)).
    { destruct Hcase as [[-> Hm]|[[->| ->] Hm]]; [left|right|right];
        (split; [reflexivity|]); nia. }
    assert (Hk : (Qsq ROW_HEIGHT * inject_Z (dr * dr) <= 1453 * inject_Z (dr * dr))%Q).
    { apply Qmult_le_compat_r. - apply Qlt_le_weak. exact Khi. - exact HNq. }
    destruct Hb as [[Hd Hm]|[Hd Hm]]; rewrite Hd in *; rewrite Zle_Qle in Hm;
      change (inject_Z 0) with 0%Q in *; change (inject_Z 1) with 1%Q in *;
      change (inject_Z 4) with 4%Q in *; lra.
Qed.

(** X1. On the grid the neighbour relation is the adjacency of the offset
    layout: two bubbles drawn at the centres of cells are neighbours exactly
    when the cells are the same or touch (left, right, and the two cells above
    and the two below). *)
Theorem grid_neighbours_are_adjacent_cells (width : Q) (r1 c1 r2 c2 : Z) (a b : Bubble) :
  placedAt width r1 c1 a -> placedAt width r2 c2 b ->
  (isNeighbor a b = true <-> (r2 = r1 /\ c2 = c1) \/ adjacentCells r1 c1 r2 c2).
Proof.
  intros Ha Hb. rewrite (isNeighbor_offsets width r1 c1 r2 c2 a b Ha Hb).
  destruct (odd_same_or_flipped r1 r2) as [Hsame Hflip]. unfold adjacentCells. split.
  - intros [[Hdr Hm]|[Hdr Hm]].
    + rewrite (Hsame Hdr) in Hm. lia.
    + rewrite (Hflip Hdr) in Hm. destruct (Z.odd r1); cbn [Z.b2z negb] in Hm; lia.
  - intros [[Hr Hc]|[[Hr Hc]|[Hr Hc]]].
    + left. subst. rewrite !Z.sub_diag. lia.
    + left. subst r2. rewrite !Z.sub_diag. lia.
    + right. assert (Hd : r1 - r2 = 1 \/ r1 - r2 = -1) by lia. split; [exact Hd|].
      rewrite (Hflip Hd). destruct (Z.odd r1); cbn [Z.b2z negb]; lia.
Qed.

Lemma grid_neighbours_are_adjacent_cells_witness :
  let a := gridBubble "1-5-1-0.1" 1 5 Red None in
  let b := gridBubble "0-6-1-0.2" 0 6 Blue None in
  let c := gridBubble "0-4-1-0.3" 0 4 Blue None in
  isNeighbor a b = true /\ isNeighbor a c = false.
Proof.
  intros a b c.
  assert (Ha : placedAt 1000 1 5 a) by (split; reflexivity).
  assert (Hb : placedAt 1000 0 6 b) by (split; reflexivity).
  assert (Hc : placedAt 1000 0 4 c) by (split; reflexivity).
  split.
  - apply (grid_neighbours_are_adjacent_cells 1000 1 5 0 6 a b Ha Hb).
    right. right. split; [left; reflexivity|right; reflexivity].
  - apply not_true_is_false. intros Hn.
    apply (grid_neighbours_are_adjacent_cells 1000 1 5 0 4 a c Ha Hc) in Hn.
    unfold adjacentCells in Hn. cbn in Hn. lia.
Defined.

(** X2. Bubbles that stand at the centres of two different cells are more
    than 43.9 pixels apart (two bubble radii are 44): no two cells share a
    centre, and bubbles in different cells do not overlap by more than a tenth
    of a pixel. *)
Theorem distinct_cells_are_apart (width : Q) (r1 c1 r2 c2 : Z) (a b : Bubble) :
  placedAt width r1 c1 a -> placedAt width r2 c2 b ->
  (r1, c1) <> (r2, c2) ->
  (Qsq (BUBBLE_RADIUS * 2 - (1 # 10)) < dist2 (b_x a) (b_y a) (b_x b) (b_y b))%Q.
Proof.
  intros Ha Hb Hne.
  pose proof (cell_dist2 width r1 c1 r2 c2 a b Ha Hb) as Hd. cbn zeta in Hd. rewrite Hd.
  clear Hd Ha Hb a b.
  destruct ROW_HEIGHT_sq_bounds as [Klo _].
  destruct (odd_same_or_flipped r1 r2) as [Hsame Hflip].
  set (m := 2 * (c1 - c2) + (Z.b2z (Z.odd r1) - Z.b2z (Z.odd r2))) in *.
  set (dr := r1 - r2) in *.
  assert (Hthr : (Qsq (BUBBLE_RADIUS * 2 - (1 # 10)) == 192721 # 100)%Q) by reflexivity.
  rewrite Hthr.
  assert (HZ : 193500 <= 48400 * (m * m) + 145100 * (dr * dr)).
  { subst m dr.
    assert (Hc : r1 - r2 = 0 -> c1 - c2 <> 0) by (intros H0 Hc; apply Hne; f_equal; lia).
    revert Hsame Hflip Hc. generalize (r1 - r2) (c1 - c2). intros dr k Hsame Hflip Hc.
    assert (Hk1 : 0 <= k * (k + 1)).
    { destruct (Z_le_gt_dec 0 k); [apply Z.mul_nonneg_nonneg|apply Z.mul_nonpos_nonpos]; lia. }
    assert (Hk2 : 0 <= k * (k - 1)).
    { destruct (Z_le_gt_dec 1 k); [apply Z.mul_nonneg_nonneg|apply Z.mul_nonpos_nonpos]; lia. }
    assert (Hkk : k <> 0 -> 1 <= k * k) by (intros Hk; nia).
    destruct (Z.eq_dec dr 0) as [H0|Hn0].
    - rewrite (Hsame H0), H0. specialize (Hkk (Hc H0)).
      replace (Z.b2z (Z.odd r1) - Z.b2z (Z.odd r1)) with 0 by lia.
      replace ((2 * k + 0) * (2 * k + 0)) with (4 * (k * k)) by ring. lia.
    - assert (Hdd : 1 <= dr * dr) by nia.
      destruct (Z.eq_dec dr 1) as [H1|Hn1]; [|destruct (Z.eq_dec dr (-1)) as [H1|Hn2]].
      + rewrite (Hflip (or_introl H1)), H1. destruct (Z.odd r1); cbn [Z.b2z negb].
        * replace ((2 * k + (1 - 0)) * (2 * k + (1 - 0))) with (4 * (k * (k + 1)) + 1) by ring.
          lia.
        * replace ((2 * k + (0 - 1)) * (2 * k + (0 - 1))) with (4 * (k * (k - 1)) + 1) by ring.
          lia.
      + rewrite (Hflip (or_intror H1)), H1. destruct (Z.odd r1); cbn [Z.b2z negb].
        * replace ((2 * k + (1 - 0)) * (2 * k + (1 - 0))) with (4 * (k * (k + 1)) + 1) by ring.
          lia.
        * replace ((2 * k + (0 - 1)) * (2 * k + (0 - 1))) with (4 * (k * (k - 1)) + 1) by ring.
          lia.
      + assert (4 <= dr * dr) by nia.
        assert (0 <= (2 * k + (Z.b2z (Z.odd r1) - Z.b2z (Z.odd r2)))
                     * (2 * k + (Z.b2z (Z.odd r1) - Z.b2z (Z.odd r2)))) by apply Z.square_nonneg.
        lia. }
  assert (HN : 0 <= dr * dr) by nia.
  assert (HNq : (0 <= inject_Z (dr * dr))%Q)
    by (change 0%Q with (inject_Z 0); rewrite <- Zle_Qle; exact HN).
  assert (Hk : (1451 * inject_Z (dr * dr) <= Qsq ROW_HEIGHT * inject_Z (dr * dr))%Q).
  { apply Qmult_le_compat_r. - apply Qlt_le_weak. exact Klo. - exact HNq. }
  rewrite Zle_Qle in HZ. rewrite inject_Z_plus, !inject_Z_mult in HZ.
  change (inject_Z 48400) with 48400%Q in HZ. change (inject_Z 145100) with 145100%Q in HZ.
  change (inject_Z 193500) with 193500%Q in HZ.
  rewrite <- !inject_Z_mult in HZ. lra.
Qed.

Lemma distinct_cells_are_apart_witness :
  let a := gridBubble "1-5-1-0.1" 1 5 Red None in
  let b := gridBubble "0-6-1-0.2" 0 6 Blue None in
  (Qsq (BUBBLE_RADIUS * 2 - (1 # 10)) < dist2 (b_x a) (b_y a) (b_x b) (b_y b))%Q.
Proof.
  intros a b.
  apply (distinct_cells_are_apart 1000 1 5 0 6 a b).
  - split; reflexivity.
  - split; reflexivity.
  - intros H. discriminate H.
Defined.

(** X3. A ceiling drop shears the grid.  Lowering moves a bubble one row
    down and keeps its column, but the rows alternate their offset: two
    active bubbles that touch diagonally, the lower one on the side towards
    which the upper row is not shifted, no longer touch once both have been
    lowered, although both have moved by one row. *)
Theorem ceiling_drop_shears_the_grid (width : Q) (a b : Bubble) :
  b_active a = true -> b_active b = true ->
  placedAt width (b_row a) (b_col a) a -> placedAt width (b_row b) (b_col b) b ->
  b_row b = b_row a + 1 ->
  b_col b = (if Z.odd (b_row a) then b_col a + 1 else b_col a - 1) ->
  isNeighbor a b = true
  /\ isNeighbor (lowerBubble width a) (lowerBubble width b) = false.
Proof.
  intros Ha Hb Hpa Hpb Hrow Hcol. split.
  - apply (isNeighbor_offsets width _ _ _ _ a b Hpa Hpb). right. split; [lia|].
    rewrite Hrow, Hcol, odd_next. destruct (Z.odd (b_row a)); cbn [Z.b2z negb]; lia.
  - destruct (lowerBubble_active width a) as (_ & Hra & Hca & Hpa');
      [unfold lowerBubble; rewrite Ha; reflexivity|].
    destruct (lowerBubble_active width b) as (_ & Hrb & Hcb & Hpb');
      [unfold lowerBubble; rewrite Hb; reflexivity|].
    apply not_true_is_false. intros Hn.
    apply (isNeighbor_offsets width _ _ _ _ _ _ Hpa' Hpb') in Hn.
    rewrite Hrow, Hcol, !odd_next in Hn.
    destruct (Z.odd (b_row a)); cbn [Z.b2z negb] in Hn; lia.
Qed.

Lemma ceiling_drop_shears_the_grid_witness :
  let a := gridBubble "0-5-1-0.1" 0 5 Red None in
  let b := gridBubble "1-4-1-0.2" 1 4 Red None in
  isNeighbor a b = true /\ isNeighbor (lowerBubble 1000 a) (lowerBubble 1000 b) = false.
Proof.
  intros a b.
  apply (ceiling_drop_shears_the_grid 1000 a b);
    try reflexivity; split; reflexivity.
Defined.

(** ** The matched set as a connected component *)

Lemma matchesTarget_own_colour (b : Bubble) : matchesTarget (b_color b) b = true.
Proof. unfold matchesTarget. rewrite bool_decide_eq_true_2 by reflexivity. reflexivity. Qed.

Lemma floodLoop_push (fuel : nat) (bs : list Bubble) (targetColor : BubbleColor)
    (current : nat * Bubble) (rest : list (nat * Bubble)) (visited : gset string)
    (matches : list (nat * Bubble)) :
  b_id current.2 ∉ visited -> matchesTarget targetColor current.2 = true ->
  floodLoop (S fuel) bs targetColor (current :: rest) visited matches
  = floodLoop fuel bs targetColor
      (rev (floodNeighbors bs (visited ∪ {[ b_id current.2 ]}) current.2) ++ rest)
      (visited ∪ {[ b_id current.2 ]}) (matches ++ [current]).
Proof.
  intros Hv Hm. cbn [floodLoop]. rewrite bool_decide_eq_false_2 by exact Hv.
  rewrite Hm. reflexivity.
Qed.

(** The seed is a member of the set it starts. *)
Lemma flood_seed (bs : list Bubble) (start : nat) (startBubble : Bubble) :
  bs !! start = Some startBubble -> (start, startBubble) ∈ flood bs start.
Proof.
  intros Hs. pose proof (flood_eq bs start startBubble Hs) as Heq.
  unfold floodFuel in Heq.
  rewrite floodLoop_push in Heq by (try apply matchesTarget_own_colour; set_solver).
  destruct (floodLoop_invariant bs (b_color startBubble)
              (fun _ _ matches => (start, startBubble) ∈ matches)
              ltac:(intros current rest visited matches Hin _; exact Hin)
              ltac:(intros current rest visited matches Hin _ _; apply elem_of_app; left;
                    exact Hin)
              ltac:(intros current rest visited matches Hin _ _; exact Hin)
              _ _ _ _ _
              ltac:(apply elem_of_app; right; apply list_elem_of_singleton; reflexivity)
              Heq) as [_ Hin].
  exact Hin.
Qed.

(** Every member is linked to the seed by a chain of members. *)
Lemma flood_connected (bs : list Bubble) (start : nat) (startBubble : Bubble) :
  bs !! start = Some startBubble ->
  forall r, r ∈ flood bs start -> connected bs (b_color startBubble) (start, startBubble) r.
Proof.
  intros Hs.
  set (C := connected bs (b_color startBubble) (start, startBubble)).
  destruct (floodLoop_invariant bs (b_color startBubble)
              (fun toCheck _ matches =>
                 (forall r, r ∈ toCheck ->
                    r = (start, startBubble)
                    \/ (r ∈ refs bs /\ b_active r.2 = true
                        /\ exists m, C m /\ isNeighbor m.2 r.2 = true))
                 /\ (forall r, r ∈ matches -> C r))) with
    (fuel := floodFuel bs) (toCheck := [(start, startBubble)]) (visited := (∅ : gset string))
    (matches := @nil (nat * Bubble)) (result := flood bs start) as (visited & _ & Hm).
  - intros current rest visited matches [Ht Hm] _. split; [|exact Hm].
    intros r Hr. apply Ht. right. exact Hr.
  - intros current rest visited matches [Ht Hm] _ Hc.
    assert (Hcur : C current).
    { destruct (Ht current (list_elem_of_here _ _)) as [->|(Hr & Ha & m & Hcm & Hn)].
      - apply connected_start.
      - apply (connected_step _ _ _ m current); assumption. }
    split.
    + intros r Hr. apply elem_of_app in Hr as [Hr|Hr].
      * apply elem_of_rev, elem_of_floodNeighbors in Hr as (Hr & Ha & _ & Hn).
        right. split; [exact Hr|]. split; [exact Ha|]. exists current. auto.
      * apply Ht. right. exact Hr.
    + intros r Hr. apply elem_of_app in Hr as [Hr|Hr]; [auto|].
      apply list_elem_of_singleton in Hr as ->. exact Hcur.
  - intros current rest visited matches [Ht Hm] _ _. split; [|exact Hm].
    intros r Hr. apply Ht. right. exact Hr.
  - split.
    + intros r Hr. apply list_elem_of_singleton in Hr as ->. left. reflexivity.
    + intros r Hr. inversion Hr.
  - apply flood_eq. exact Hs.
  - exact Hm.
Qed.

(** A bubble that a chain of members links to the seed is collected. *)
Lemma connected_flood (bs : list Bubble) (start : nat) (startBubble : Bubble) :
  bs !! start = Some startBubble -> NoDup (b_id <$> bs) ->
  forall r, connected bs (b_color startBubble) (start, startBubble) r -> r ∈ flood bs start.
Proof.
  intros Hs Hnd r. induction 1 as [|r r' Hc IH Hr' Ha Hm Hn].
  - apply flood_seed. exact Hs.
  - destruct r as [i b], r' as [j c]. cbn [snd] in *.
    apply (flood_closed bs start startBubble Hs Hnd i b j c IH); auto.
    apply elem_of_refs. exact Hr'.
Qed.

(** X4. The set that a settled bubble pops is the connected component of
    that bubble: with distinct ids in the store, a bubble is collected exactly
    when a chain of neighbours leads to it from the settled bubble, through
    active bubbles of the settled bubble's colour or rainbows. *)
Theorem flood_is_connected_component (bs : list Bubble) (start : nat) (startBubble : Bubble) :
  bs !! start = Some startBubble ->
  NoDup (b_id <$> bs) ->
  forall r, r ∈ flood bs start <-> connected bs (b_color startBubble) (start, startBubble) r.
Proof.
  intros Hs Hnd r. split.
  - apply flood_connected. exact Hs.
  - apply connected_flood; assumption.
Qed.

Lemma flood_is_connected_component_witness :
  (0%nat, mkBubble "0-0-1-0.1" 0 0 100 22 Red true None) ∈ flood matchBoard 4
  /\ (3%nat, mkBubble "0-9-1-0.4" 0 9 600 22 Blue true None) ∉ flood matchBoard 4.
Proof.
  assert (Hnd : NoDup (b_id <$> matchBoard)).
  { apply (bool_decide_unpack _). vm_compute. reflexivity. }
  pose proof (flood_is_connected_component matchBoard 4 _ eq_refl Hnd) as Hiff.
  split.
  - apply Hiff.
    apply (connected_step _ _ _ (1%nat, mkBubble "0-1-1-0.2" 0 1 144 22 Red true None));
      [|apply elem_of_refs; reflexivity|reflexivity|reflexivity|reflexivity].
    apply (connected_step _ _ _ (2%nat, mkBubble "0-2-1-0.3" 0 2 188 22 Red true None));
      [|apply elem_of_refs; reflexivity|reflexivity|reflexivity|reflexivity].
    apply (connected_step _ _ _ (4%nat, mkBubble "0-3-2" 0 3 232 22 Red true None));
      [|apply elem_of_refs; reflexivity|reflexivity|reflexivity|reflexivity].
    apply connected_start.
  - intros Hin. apply Hiff in Hin. inversion Hin as [|? ? ? ? ? Hm ?]. discriminate Hm.
Defined.

Lemma connected_trans (bs : list Bubble) (targetColor : BubbleColor) (s x y : nat * Bubble) :
  connected bs targetColor s x -> connected bs targetColor x y -> connected bs targetColor s y.
Proof.
  intros Hsx Hxy. induction Hxy as [|r r' _ IH Hr' Ha Hm Hn]; [exact Hsx|].
  apply (connected_step _ _ _ r r'); assumption.
Qed.

Lemma connected_node (bs : list Bubble) (targetColor : BubbleColor) (s x : nat * Bubble) :
  connected bs targetColor s x ->
  x = s \/ (x ∈ refs bs /\ b_active x.2 = true /\ matchesTarget targetColor x.2 = true).
Proof. intros H. destruct H; auto. Qed.

Lemma connected_sym (bs : list Bubble) (targetColor : BubbleColor) (s x : nat * Bubble) :
  s ∈ refs bs -> b_active s.2 = true -> matchesTarget targetColor s.2 = true ->
  connected bs targetColor s x -> connected bs targetColor x s.
Proof.
  intros Hs Ha Hm Hsx. induction Hsx as [|r r' Hsr IH Hr' Ha' Hm' Hn]; [apply connected_start|].
  apply (connected_trans _ _ _ r); [|exact IH].
  assert (Hr : r ∈ refs bs /\ b_active r.2 = true /\ matchesTarget targetColor r.2 = true).
  { destruct (connected_node _ _ _ _ Hsr) as [->|H]; auto. }
  destruct Hr as (Hr & Har & Hmr).
  apply (connected_step _ _ _ r' r); [apply connected_start| | | |]; auto.
  rewrite isNeighbor_sym. exact Hn.
Qed.

(** X5. The set that is popped does not depend on the member it is grown
    from.  With distinct ids in the store and an active seed, the flood fill
    started from any member that has the seed's colour collects the same
    bubbles as the flood fill started from the seed. *)
Theorem popped_set_is_the_same_from_any_member (bs : list Bubble) (start j : nat)
    (startBubble c : Bubble) :
  bs !! start = Some startBubble -> NoDup (b_id <$> bs) -> b_active startBubble = true ->
  (j, c) ∈ flood bs start -> b_color c = b_color startBubble ->
  forall r, r ∈ flood bs j <-> r ∈ flood bs start.
Proof.
  intros Hs Hnd Ha Hj Hcol r.
  destruct (flood_members bs start startBubble Hs j c Hj) as [Hjc _].
  pose proof (flood_connected bs start startBubble Hs _ Hj) as Hsj.
  assert (Hjs : connected bs (b_color startBubble) (j, c) (start, startBubble)).
  { apply connected_sym; cbn [snd]; auto; [apply elem_of_refs; exact Hs|].
    apply matchesTarget_own_colour. }
  split.
  - intros Hr. apply (connected_flood bs start startBubble Hs Hnd).
    apply (connected_trans _ _ _ (j, c)); [exact Hsj|].
    rewrite <- Hcol. apply (flood_connected bs j c Hjc). exact Hr.
  - intros Hr. apply (connected_flood bs j c Hjc Hnd). rewrite Hcol.
    apply (connected_trans _ _ _ (start, startBubble)); [exact Hjs|].
    apply (flood_connected bs start startBubble Hs). exact Hr.
Qed.

Lemma popped_set_is_the_same_from_any_member_witness :
  (2%nat, mkBubble "0-2-1-0.3" 0 2 188 22 Red true None) ∈ flood matchBoard 0.
Proof.
  apply (popped_set_is_the_same_from_any_member matchBoard 4 0
           (mkBubble "0-3-2" 0 3 232 22 Red true None)
           (mkBubble "0-0-1-0.1" 0 0 100 22 Red true None)).
  - reflexivity.
  - apply (bool_decide_unpack _). vm_compute. reflexivity.
  - reflexivity.
  - apply list_elem_of_In. vm_compute. tauto.
  - reflexivity.
  - apply list_elem_of_In. vm_compute. tauto.
Defined.

(** ** Stores after a pop *)

Lemma popped_refl (bs : list Bubble) : popped bs bs.
Proof.
  apply Forall2_same_length_lookup. split; [reflexivity|].
  intros i x y Hx Hy. left. congruence.
Qed.

Lemma popped_trans (bs bs' bs'' : list Bubble) : popped bs bs' -> popped bs' bs'' -> popped bs bs''.
Proof.
  unfold popped. intros H1. revert bs''. induction H1 as [|b b' bs bs' Hb _ IH]; intros bs'' H2.
  - inversion H2. constructor.
  - inversion H2 as [|? b'' ? bs3 Hb' H3]; subst. constructor; [|apply IH; exact H3].
    destruct Hb as [->| ->], Hb' as [->| ->]; auto.
Qed.

Lemma popped_alter (bs : list Bubble) (i : nat) : popped bs (alter deactivate i bs).
Proof.
  apply Forall2_same_length_lookup. split; [rewrite length_alter; reflexivity|].
  intros j x y Hx Hy. destruct (decide (i = j)) as [->|Hne].
  - rewrite list_lookup_alter_eq, Hx in Hy. injection Hy as <-. right. reflexivity.
  - rewrite list_lookup_alter_ne, Hx in Hy by exact Hne. injection Hy as <-. left. reflexivity.
Qed.

Lemma popped_popAll (matches : list (nat * Bubble)) :
  forall bs, popped bs (popAll matches bs).
Proof.
  induction matches as [|m matches IH]; intros bs; [apply popped_refl|].
  cbn [popAll fold_left]. change (popped bs (popAll matches (alter deactivate m.1 bs))).
  eapply popped_trans; [apply popped_alter|apply IH].
Qed.

Lemma popped_blast (bomb : Bubble) (bs : list Bubble) : popped bs (map (blast bomb) bs).
Proof.
  induction bs as [|b bs IH]; cbn [map]; constructor; [|exact IH].
  unfold blast. destruct (b_active b && inExplosion bomb b); auto.
Qed.

Lemma popped_checkMatches (start : nat) (st : State) :
  popped (bubbles st) (bubbles (checkMatches start st).1).
Proof.
  destruct (bubbles st !! start) as [startBubble|] eqn:Hs.
  - rewrite (checkMatches_eq start st startBubble Hs).
    destruct (3 <=? _)%nat; cbn [fst bubbles withBoard]; [apply popped_popAll|apply popped_refl].
  - unfold checkMatches. rewrite Hs. apply popped_refl.
Qed.

Lemma popped_triggerBomb (bomb : Bubble) (st : State) :
  popped (bubbles st) (bubbles (triggerBomb bomb st)).
Proof. rewrite (proj1 (triggerBomb_board bomb st)). apply popped_blast. Qed.

(** A path that is clear stays clear when bubbles are deactivated. *)
Lemma isPathClear_popped (anchor : Point) (bs bs' : list Bubble) (target : Bubble) :
  popped bs bs' -> isPathClear anchor bs target = true -> isPathClear anchor bs' target = true.
Proof.
  intros Hp. unfold isPathClear. rewrite !forallb_forall. intros Hclear i Hi.
  specialize (Hclear i Hi). cbn beta zeta in *. revert Hclear.
  induction Hp as [|b b' bs bs' Hb _ IH]; [reflexivity|].
  cbn [forallb]. rewrite !andb_true_iff. intros [Hb0 Hrest]. split; [|apply IH; exact Hrest].
  destruct Hb as [->| ->]; [exact Hb0|]. reflexivity.
Qed.

(** X6. Popping never blocks a shot: a target that the path check accepts is
    still accepted after a match has been popped and after a bomb has
    exploded, whichever bubbles these deactivate. *)
Theorem clear_path_survives_pops (anchor : Point) (st : State) (target : Bubble)
    (start : nat) (bomb : Bubble) :
  isPathClear anchor (bubbles st) target = true ->
  isPathClear anchor (bubbles (checkMatches start st).1) target = true
  /\ isPathClear anchor (bubbles (triggerBomb bomb st)) target = true.
Proof.
  intros Hclear. split.
  - apply (isPathClear_popped anchor (bubbles st)); [apply popped_checkMatches|exact Hclear].
  - apply (isPathClear_popped anchor (bubbles st)); [apply popped_triggerBomb|exact Hclear].
Qed.

Lemma clear_path_survives_pops_witness :
  let blue := mkBubble "0-9-1-0.4" 0 9 600 22 Blue true None in
  isPathClear (mkPoint 500 580) (bubbles (checkMatches 4 matchState).1) blue = true
  /\ isPathClear (mkPoint 500 580) (bubbles (triggerBomb blue matchState)) blue = true.
Proof.
  intros blue.
  apply (clear_path_survives_pops (mkPoint 500 580) matchState blue 4 blue).
  vm_compute. reflexivity.
Defined.

(** ** The grid snap *)

Lemma occupied_iff (bs : list Bubble) (r c : Z) :
  existsb (fun b => b_active b && (b_row b =? r) && (b_col b =? c)) bs = false
  <-> freeCell bs (r, c).
Proof.
  unfold freeCell. split.
  - intros Hex b Hb Ha Heq. injection Heq as Hr Hc.
    assert (Ht : existsb (fun b => b_active b && (b_row b =? r) && (b_col b =? c)) bs = true).
    { apply existsb_exists. exists b. split; [apply list_elem_of_In; exact Hb|].
      rewrite Ha. cbn [andb]. apply andb_true_iff. split; apply Z.eqb_eq; assumption. }
    congruence.
  - intros Hfree. apply not_true_is_false. intros Hex.
    apply existsb_exists in Hex as (b & Hb & Hc).
    apply andb_true_iff in Hc as [Hc Hcol]. apply andb_true_iff in Hc as [Ha Hrow].
    apply Z.eqb_eq in Hrow. apply Z.eqb_eq in Hcol.
    apply (Hfree b); [apply list_elem_of_In; exact Hb|exact Ha|congruence].
Qed.

Lemma snapStep_found (width : Q) (bs : list Bubble) (pos : Point) (done : list (Z * Z))
    (best : Snap) (cell : Z * Z) :
  snapFound width bs pos done best ->
  snapFound width bs pos (done ++ [cell]) (snapStep width bs pos best cell).
Proof.
  intros Hfound. destruct cell as [r c]. unfold snapStep.
  destruct (existsb (fun b => b_active b && (b_row b =? r) && (b_col b =? c)) bs) eqn:Hocc.
  - assert (Hnf : ~ freeCell bs (r, c)).
    { intros Hf. apply occupied_iff in Hf. congruence. }
    destruct Hfound as [[Hb Hnone]|(Hin & Hfree & Hpos & Hd & Hmin)]; [left|right].
    + split; [exact Hb|]. intros cell Hcell. apply elem_of_app in Hcell as [Hcell|Hcell]; [auto|].
      apply list_elem_of_singleton in Hcell as ->. exact Hnf.
    + split; [apply elem_of_app; left; exact Hin|]. split; [exact Hfree|].
      split; [exact Hpos|]. split; [exact Hd|].
      intros cell Hcell Hf. apply elem_of_app in Hcell as [Hcell|Hcell]; [auto|].
      apply list_elem_of_singleton in Hcell as ->. contradiction.
  - apply occupied_iff in Hocc.
    set (p := getBubblePos r c width).
    assert (Hnew : snapFound width bs pos (done ++ [(r, c)])
                     (mkSnap (Some (dist2 (px pos) (py pos) (px p) (py p))) r c (px p) (py p))
                   \/ exists bd, bestDist2 best = Some bd
                        /\ (bd <= dist2 (px pos) (py pos) (px p) (py p))%Q).
    { destruct Hfound as [[Hb Hnone]|(Hin & Hfree & Hpos & Hd & Hmin)].
      - left. right. cbn [bestRow bestCol bestX bestY bestDist2].
        split; [apply elem_of_app; right; apply list_elem_of_singleton; reflexivity|].
        split; [exact Hocc|]. split; [subst p; destruct (getBubblePos r c width); reflexivity|].
        split; [reflexivity|].
        intros cell Hcell Hf. apply elem_of_app in Hcell as [Hcell|Hcell].
        + destruct (Hnone cell Hcell Hf).
        + apply list_elem_of_singleton in Hcell as ->. apply Qle_refl.
      - destruct (Qltb (dist2 (px pos) (py pos) (px p) (py p))
                    (cellDist2 width pos (bestRow best, bestCol best))) eqn:Hlt.
        + left. right. cbn [bestRow bestCol bestX bestY bestDist2].
          split; [apply elem_of_app; right; apply list_elem_of_singleton; reflexivity|].
          split; [exact Hocc|]. split; [subst p; destruct (getBubblePos r c width); reflexivity|].
          split; [reflexivity|].
          apply Qltb_lt in Hlt.
          intros cell Hcell Hf. apply elem_of_app in Hcell as [Hcell|Hcell].
          * apply Qlt_le_weak. eapply Qlt_le_trans; [exact Hlt|]. apply Hmin; assumption.
          * apply list_elem_of_singleton in Hcell as ->. apply Qle_refl.
        + right. exists (cellDist2 width pos (bestRow best, bestCol best)).
          split; [exact Hd|]. apply Qltb_ge in Hlt. exact Hlt. }
    destruct Hfound as [[Hb Hnone]|(Hin & Hfree & Hpos & Hd & Hmin)].
    + subst best. cbn [bestDist2]. destruct Hnew as [Hnew|(bd & Hbd & _)]; [exact Hnew|].
      discriminate Hbd.
    + rewrite Hd.
      destruct (Qltb (dist2 (px pos) (py pos) (px p) (py p))
                  (cellDist2 width pos (bestRow best, bestCol best))) eqn:Hlt.
      * destruct Hnew as [Hnew|(bd & Hbd & Hle)]; [exact Hnew|].
        rewrite Hd in Hbd. injection Hbd as <-. apply Qltb_lt in Hlt. exfalso.
        apply (Qlt_irrefl (dist2 (px pos) (py pos) (px p) (py p))).
        eapply Qlt_le_trans; [exact Hlt|exact Hle].
      * right. split; [apply elem_of_app; left; exact Hin|]. split; [exact Hfree|].
        split; [exact Hpos|]. split; [exact Hd|].
        apply Qltb_ge in Hlt.
        intros cell Hcell Hf. apply elem_of_app in Hcell as [Hcell|Hcell]; [auto|].
        apply list_elem_of_singleton in Hcell as ->. exact Hlt.
Qed.

Lemma snapFold_found (width : Q) (bs : list Bubble) (pos : Point) (cells : list (Z * Z)) :
  forall (done : list (Z * Z)) (best : Snap),
    snapFound width bs pos done best ->
    snapFound width bs pos (done ++ cells) (fold_left (snapStep width bs pos) cells best).
Proof.
  induction cells as [|cell cells IH]; intros done best Hfound; cbn [fold_left].
  - rewrite app_nil_r. exact Hfound.
  - replace (done ++ cell :: cells) with ((done ++ [cell]) ++ cells)
      by (rewrite <- app_assoc; reflexivity).
    apply IH. apply snapStep_found. exact Hfound.
Qed.

Lemma gridSnap_found (width : Q) (bs : list Bubble) (pos : Point) :
  snapFound width bs pos snapCells (gridSnap width bs pos).
Proof.
  unfold gridSnap. apply (snapFold_found width bs pos snapCells []).
  left. split; [reflexivity|]. intros cell Hcell. inversion Hcell.
Qed.



(** ** The board stays a grid *)

Lemma popped_lookup (bs bs' : list Bubble) (i : nat) (b' : Bubble) :
  popped bs bs' -> bs' !! i = Some b' ->
  exists b, bs !! i = Some b /\ (b' = b \/ b' = deactivate b).
Proof.
  intros Hp Hi. destruct (Forall2_lookup_r _ _ _ _ _ Hp Hi) as (b & Hb & Hrel). eauto.
Qed.

Lemma popped_active (bs bs' : list Bubble) (i : nat) (b' : Bubble) :
  popped bs bs' -> bs' !! i = Some b' -> b_active b' = true -> bs !! i = Some b'.
Proof.
  intros Hp Hi Ha. destruct (popped_lookup _ _ _ _ Hp Hi) as (b & Hb & [->| ->]); [exact Hb|].
  discriminate Ha.
Qed.

Lemma wellFormed_popped (width : Q) (bs bs' : list Bubble) :
  popped bs bs' -> wellFormed width bs -> wellFormed width bs'.
Proof.
  intros Hp [Hcell Hdist]. split.
  - intros b Hb Ha. apply list_elem_of_lookup in Hb as [i Hi].
    apply Hcell; [|exact Ha]. apply list_elem_of_lookup. exists i.
    apply (popped_active _ _ _ _ Hp Hi Ha).
  - intros i j b c Hi Hj Ha Hc. apply Hdist; auto; eapply popped_active; eauto.
Qed.

Lemma wellFormed_push (width : Q) (bs : list Bubble) (new : Bubble) :
  wellFormed width bs ->
  0 <= b_row new -> placedAt width (b_row new) (b_col new) new ->
  freeCell bs (b_row new, b_col new) ->
  wellFormed width (bs ++ [new]).
Proof.
  intros [Hcell Hdist] Hrow Hplace Hfree. split.
  - intros b Hb Ha. apply elem_of_app in Hb as [Hb|Hb]; [auto|].
    apply list_elem_of_singleton in Hb as ->. auto.
  - intros i j b c Hi Hj Ha Hc Heq.
    apply lookup_app_Some in Hi as [Hi|[Hil Hi]]; apply lookup_app_Some in Hj as [Hj|[Hjl Hj]].
    + eapply Hdist; eauto.
    + apply list_lookup_singleton_Some in Hj as [Hj0 <-].
      destruct (Hfree b); [apply list_elem_of_lookup; eauto|exact Ha|exact Heq].
    + apply list_lookup_singleton_Some in Hi as [Hi0 <-].
      destruct (Hfree c); [apply list_elem_of_lookup; eauto|exact Hc|symmetry; exact Heq].
    + apply list_lookup_singleton_Some in Hi as [Hi0 _].
      apply list_lookup_singleton_Some in Hj as [Hj0 _]. lia.
Qed.

Lemma addCeilingRow_board (ent : Z -> Entropy) (st : State) :
  bubbles (addCeilingRow ent st)
  = map (lowerBubble (logicalWidth st)) (bubbles st)
    ++ map (fun c => createBubble 0 c (logicalWidth st) (ent c)) (seqZ 0 GRID_COLS)
  /\ logicalWidth (addCeilingRow ent st) = logicalWidth st.
Proof.
  unfold addCeilingRow. cbn zeta. destruct (MAX_ROWS_LIMIT <=? _); split; reflexivity.
Qed.

Lemma wellFormed_addCeilingRow (ent : Z -> Entropy) (st : State) :
  wellFormed (logicalWidth st) (bubbles st) ->
  wellFormed (logicalWidth st) (bubbles (addCeilingRow ent st)).
Proof.
  intros [Hcell Hdist]. rewrite (proj1 (addCeilingRow_board ent st)).
  set (w := logicalWidth st).
  assert (Hlow : forall i b', map (lowerBubble w) (bubbles st) !! i = Some b' ->
                   b_active b' = true ->
                   exists b, bubbles st !! i = Some b /\ b_active b = true
                             /\ b_row b' = b_row b + 1 /\ b_col b' = b_col b
                             /\ placedAt w (b_row b') (b_col b') b').
  { intros i b' Hi Ha. rewrite list_lookup_fmap in Hi.
    destruct (bubbles st !! i) as [b|] eqn:Hb; [|discriminate Hi]. injection Hi as <-.
    destruct (lowerBubble_active w b Ha) as (Hab & Hr & Hc & Hp).
    exists b. rewrite Hr, Hc. auto. }
  assert (Hfresh : forall k b',
             map (fun c => createBubble 0 c w (ent c)) (seqZ 0 GRID_COLS) !! k = Some b' ->
             b_row b' = 0 /\ b_col b' = Z.of_nat k /\ placedAt w (b_row b') (b_col b') b').
  { intros k b' Hk. rewrite list_lookup_fmap in Hk.
    destruct (seqZ 0 GRID_COLS !! k) as [c|] eqn:Hc; [|discriminate Hk]. injection Hk as <-.
    apply lookup_seqZ in Hc as [-> _].
    destruct (createBubble_cell 0 (0 + Z.of_nat k) w (ent (0 + Z.of_nat k)))
      as (Hr & Hcol & _ & Hp).
    rewrite Hr, Hcol. split; [reflexivity|]. split; [lia|].
    apply placedAt_getBubblePos. exact Hp. }
  split.
  - intros b' Hb' Ha. apply elem_of_app in Hb' as [Hb'|Hb'];
      apply list_elem_of_lookup in Hb' as [i Hi].
    + destruct (Hlow i b' Hi Ha) as (b & Hb & Hab & Hr & _ & Hp). split; [|exact Hp].
      destruct (Hcell b) as [H0 _]; [apply list_elem_of_lookup; eauto|exact Hab|]. lia.
    + destruct (Hfresh i b' Hi) as (Hr & _ & Hp). split; [lia|exact Hp].
  - intros i j b' c' Hi Hj Ha Hc Heq. injection Heq as Hrow Hcol.
    apply lookup_app_Some in Hi as [Hi|[Hil Hi]]; apply lookup_app_Some in Hj as [Hj|[Hjl Hj]].
    + destruct (Hlow i b' Hi Ha) as (b & Hb & Hab & Hr & Hcl & _).
      destruct (Hlow j c' Hj Hc) as (c & Hcc & Hac & Hr' & Hcl' & _).
      apply (Hdist i j b c Hb Hcc Hab Hac). f_equal; lia.
    + destruct (Hlow i b' Hi Ha) as (b & Hb & Hab & Hr & _ & _).
      destruct (Hfresh _ c' Hj) as (Hr' & _ & _).
      destruct (Hcell b) as [H0 _]; [apply list_elem_of_lookup; eauto|exact Hab|]. lia.
    + destruct (Hlow j c' Hj Hc) as (c & Hcc & Hac & Hr & _ & _).
      destruct (Hfresh _ b' Hi) as (Hr' & _ & _).
      destruct (Hcell c) as [H0 _]; [apply list_elem_of_lookup; eauto|exact Hac|]. lia.
    + destruct (Hfresh _ b' Hi) as (_ & Hk & _). destruct (Hfresh _ c' Hj) as (_ & Hk' & _).
      lia.
Qed.

Lemma elem_of_gridCells (n : Z) (cell : Z * Z) :
  cell ∈ gridCells n
  <-> 0 <= cell.1 < n
      /\ 0 <= cell.2 < (if Z.odd cell.1 then GRID_COLS - 1 else GRID_COLS).
Proof.
  unfold gridCells. rewrite list_elem_of_In, in_flat_map. split.
  - intros (r & Hr & Hc). apply in_map_iff in Hc as (c & <- & Hc).
    apply list_elem_of_In, elem_of_seqZ in Hr. apply list_elem_of_In, elem_of_seqZ in Hc.
    cbn [fst snd]. rewrite rowIsOdd in Hc. lia.
  - destruct cell as [r c]. cbn [fst snd]. intros [Hr Hc]. exists r. split.
    + apply list_elem_of_In, elem_of_seqZ. lia.
    + apply in_map_iff. exists c. split; [reflexivity|].
      apply list_elem_of_In, elem_of_seqZ. rewrite rowIsOdd. lia.
Qed.

Lemma snapCells_gridCells : snapCells = gridCells (MAX_ROWS_LIMIT + 5).
Proof. reflexivity. Qed.

Lemma checkMatches_frame (start : nat) (st : State) :
  let st' := (checkMatches start st).1 in
  logicalWidth st' = logicalWidth st /\ logicalHeight st' = logicalHeight st
  /\ anchorPos st' = anchorPos st /\ ballPos st' = ballPos st /\ ballVel st' = ballVel st
  /\ isFlying st' = isFlying st /\ gameOver st' = gameOver st
  /\ shotsUntilDrop st' = shotsUntilDrop st /\ totalShots st' = totalShots st
  /\ difficulty st' = difficulty st.
Proof.
  destruct (bubbles st !! start) as [startBubble|] eqn:Hs.
  - rewrite (checkMatches_eq start st startBubble Hs).
    destruct (3 <=? _)%nat; cbn; repeat split; reflexivity.
  - unfold checkMatches. rewrite Hs. cbn. repeat split; reflexivity.
Qed.

(** The store after the [if (collisionOccurred)] block. *)
Lemma settle_board (dateNow : Z) (ent : Z -> Entropy) (st : State) :
  let best := gridSnap (logicalWidth st) (bubbles st) (ballPos st) in
  let newBubble :=
    mkBubble (pretty (bestRow best) +:+ "-" +:+ pretty (bestCol best) +:+ "-" +:+ pretty dateNow)
      (bestRow best) (bestCol best) (bestX best) (bestY best) (selectedColor st) true None in
  let st1 :=
    withBoard (bubbles st ++ [newBubble]) (score st)
      (withBall false (ballPos st) (ballVel st) st) in
  let st2 := (checkMatches (length (bubbles st)) st1).1 in
  bubbles (settle dateNow ent st)
  = (if shotsUntilDrop st - 1 <=? 0 then bubbles (addCeilingRow ent st2) else bubbles st2)
  /\ logicalWidth (settle dateNow ent st) = logicalWidth st
  /\ logicalWidth st2 = logicalWidth st.
Proof.
  intros best newBubble st1 st2. unfold settle. fold best. fold newBubble. fold st1.
  assert (Hw2 : logicalWidth st2 = logicalWidth st).
  { subst st2. rewrite (proj1 (checkMatches_frame _ st1)). reflexivity. }
  destruct (checkMatches (length (bubbles st)) st1) as [st2' matched] eqn:Hcm.
  change st2 with (st2', matched).1. cbn [fst]. cbn [fst] in Hw2.
  pose proof (addCeilingRow_board ent st2') as [_ Hwc].
  destruct (shotsUntilDrop st - 1 <=? 0); destruct (MAX_ROWS_LIMIT <=? bestRow best);
    destruct (Z.rem _ _ =? 0); cbn; rewrite ?Hwc; auto.
Qed.

(** The bubble that the grid snap places keeps the board a grid. *)
Lemma wellFormed_place (id : string) (color : BubbleColor) (width : Q) (bs : list Bubble)
    (best : Snap) :
  wellFormed width bs ->
  (bestRow best, bestCol best) ∈ snapCells ->
  freeCell bs (bestRow best, bestCol best) ->
  mkPoint (bestX best) (bestY best) = getBubblePos (bestRow best) (bestCol best) width ->
  wellFormed width
    (bs ++ [mkBubble id (bestRow best) (bestCol best) (bestX best) (bestY best) color true None]).
Proof.
  intros Hwf Hin Hf Hpos.
  apply wellFormed_push; [exact Hwf| | |]; cbn [b_row b_col].
  - rewrite snapCells_gridCells in Hin. apply elem_of_gridCells in Hin. cbn [fst] in Hin. lia.
  - apply placedAt_getBubblePos. exact Hpos.
  - exact Hf.
Qed.

Lemma wellFormed_settle (dateNow : Z) (ent : Z -> Entropy) (st : State) :
  wellFormed (logicalWidth st) (bubbles st) ->
  (exists free, free ∈ snapCells /\ freeCell (bubbles st) free) ->
  wellFormed (logicalWidth st) (bubbles (settle dateNow ent st)).
Proof.
  intros Hwf Hfree.
  pose proof (settle_board dateNow ent st) as Hb.
  pose proof (gridSnap_found (logicalWidth st) (bubbles st) (ballPos st)) as Hfound.
  remember (gridSnap (logicalWidth st) (bubbles st) (ballPos st)) as best eqn:Hbest.
  clear Hbest. cbv zeta in Hb. destruct Hb as (Hb & _ & Hw2). rewrite Hb. clear Hb.
  destruct Hfound as [[_ Hnone]|(Hin & Hf & Hpos & _ & _)].
  { destruct Hfree as (free & Hcell & Hfc). destruct (Hnone free Hcell Hfc). }
  pose proof (wellFormed_place
                (pretty (bestRow best) +:+ "-" +:+ pretty (bestCol best) +:+ "-"
                 +:+ pretty dateNow)
                (selectedColor st) _ _ best Hwf Hin Hf Hpos) as Hpush.
  match type of Hpush with wellFormed _ ?l =>
    remember l as pushed eqn:Hpushed; clear Hpushed end.
  remember (withBoard pushed (score st) (withBall false (ballPos st) (ballVel st) st))
    as st1 eqn:Hst1.
  assert (Hpop : wellFormed (logicalWidth st)
                   (bubbles (checkMatches (length (bubbles st)) st1).1)).
  { apply (wellFormed_popped _ (bubbles st1)); [apply popped_checkMatches|].
    subst st1. exact Hpush. }
  destruct (shotsUntilDrop st - 1 <=? 0); [|exact Hpop].
  rewrite <- Hw2. apply wellFormed_addCeilingRow. rewrite Hw2. exact Hpop.
Qed.

Lemma triggerBomb_frame (bomb : Bubble) (st : State) :
  logicalWidth (triggerBomb bomb st) = logicalWidth st
  /\ logicalHeight (triggerBomb bomb st) = logicalHeight st
  /\ anchorPos (triggerBomb bomb st) = anchorPos st
  /\ gameOver (triggerBomb bomb st) = gameOver st
  /\ shotsUntilDrop (triggerBomb bomb st) = shotsUntilDrop st
  /\ totalShots (triggerBomb bomb st) = totalShots st.
Proof. unfold triggerBomb. destruct (fold_left _ _ _). cbn. repeat split; reflexivity. Qed.

(** X8. A frame of the physics keeps the board a grid.  If every active
    bubble stands at the centre of the cell it records, on a row that is not
    negative, and no two active bubbles record the same cell, then the same
    holds after [updatePhysics], whatever happens in the frame (flight, bomb,
    settling with or without a match, ceiling drop), as long as the grid snap
    has a free cell to choose. *)
Theorem physics_keeps_the_grid (now : Q) (dateNow : Z) (ent : Z -> Entropy) (st : State) :
  wellFormed (logicalWidth st) (bubbles st) ->
  (exists free, free ∈ snapCells /\ freeCell (bubbles st) free) ->
  let st' := updatePhysics now dateNow ent st in
  logicalWidth st' = logicalWidth st /\ wellFormed (logicalWidth st') (bubbles st').
Proof.
  intros Hwf Hfree st'. subst st'. unfold updatePhysics.
  destruct (negb (isFlying st)); [auto|].
  destruct (Qltb 5000 (now - flightStartTime st)); [auto|].
  destruct (flightContact st) as [[pos vel] contact].
  assert (Hset : forall st1, bubbles st1 = bubbles st -> logicalWidth st1 = logicalWidth st ->
            logicalWidth (settle dateNow ent st1) = logicalWidth st
            /\ wellFormed (logicalWidth st) (bubbles (settle dateNow ent st1))).
  { intros st1 Hb Hw. destruct (settle_board dateNow ent st1) as (_ & Hws & _).
    split; [congruence|]. rewrite <- Hw. apply wellFormed_settle; rewrite Hb, ?Hw; assumption. }
  destruct contact as [| |b].
  - destruct (Qltb _ _); split; try reflexivity; exact Hwf.
  - remember (withBall true pos (mkPoint (px vel * FRICTION) ((py vel + GRAVITY) * FRICTION)) st)
      as st1 eqn:Hst1.
    destruct (Hset st1) as [Hw Hwf2]; [subst st1; reflexivity|subst st1; reflexivity|].
    clear Hst1. remember (settle dateNow ent st1) as st2 eqn:Hst2. clear Hst2.
    destruct (Qltb _ _); change (logicalWidth st2 = logicalWidth st
                                 /\ wellFormed (logicalWidth st2) (bubbles st2));
      rewrite Hw; auto.
  - change (logicalWidth (triggerBomb b st) = logicalWidth st
            /\ wellFormed (logicalWidth (triggerBomb b st)) (bubbles (triggerBomb b st))).
    rewrite (proj1 (triggerBomb_frame b st)). split; [reflexivity|].
    apply (wellFormed_popped _ (bubbles st)); [apply popped_triggerBomb|exact Hwf].
Qed.

Lemma stackedBoard_wellFormed : wellFormed 1000 stackedBoard.
Proof.
  split.
  - intros b Hb _. unfold stackedBoard in Hb.
    apply elem_of_cons in Hb as [->|Hb]; [|apply elem_of_cons in Hb as [->|Hb]];
      [| |inversion Hb]; (split; [cbn; lia|split; reflexivity]).
  - intros i j b c Hi Hj _ _ Heq.
    destruct i as [|[|i]]; destruct j as [|[|j]]; try reflexivity; try discriminate Hj;
      try discriminate Hi; injection Hi as <-; injection Hj as <-; discriminate Heq.
Qed.

Lemma physics_keeps_the_grid_witness :
  let st' := updatePhysics 100 7 someEntropy settlingFrame in
  logicalWidth st' = 1000%Q /\ wellFormed (logicalWidth st') (bubbles st').
Proof.
  apply (physics_keeps_the_grid 100 7 someEntropy settlingFrame).
  - exact stackedBoard_wellFormed.
  - exists (0, 0). split.
    + apply list_elem_of_lookup. exists 0%nat. reflexivity.
    + apply occupied_iff. reflexivity.
Defined.

(** ** Laying out the grid *)

Lemma flat_map_option {A B} (p : A -> bool) (g : A -> B) (l : list A) :
  flat_map (fun x => if p x then [g x] else []) l = map g (List.filter p l).
Proof.
  induction l as [|x l IH]; [reflexivity|]. cbn [flat_map List.filter].
  destruct (p x); cbn [app map]; rewrite IH; reflexivity.
Qed.

Lemma gridCells_NoDup (n : Z) : NoDup (gridCells n).
Proof.
  unfold gridCells. generalize (NoDup_seqZ 0 n).
  generalize (seqZ 0 n). intros rws Hnd.
  induction rws as [|r rws IH]; cbn [flat_map]; [apply NoDup_nil_2|].
  apply NoDup_cons in Hnd as [Hr Hnd]. apply NoDup_app. split; [|split].
  - apply (NoDup_fmap_2_strong (fun c => (r, c)));
      [intros c c' _ _ [= ->]; reflexivity|apply NoDup_seqZ].
  - intros cell Hcell Hrest. apply list_elem_of_In, in_map_iff in Hcell as (c & <- & _).
    apply list_elem_of_In, in_flat_map in Hrest as (r' & Hr' & Hc).
    apply in_map_iff in Hc as (c' & [= -> _] & _). apply Hr, list_elem_of_In, Hr'.
  - apply IH. exact Hnd.
Qed.

Lemma initGrid_board (keep : Z -> Z -> Q) (ent : Z -> Z -> Entropy) (width : Q)
    (level : DifficultyLevel) (st : State) :
  bubbles (initGrid keep ent width level st)
  = map (fun cell : Z * Z => createBubble cell.1 cell.2 width (ent cell.1 cell.2))
      (List.filter (fun cell : Z * Z => Qltb (1 # 10) (keep cell.1 cell.2))
         (gridCells (rows (DIFFICULTIES level)))).
Proof. unfold initGrid. cbn [bubbles]. apply flat_map_option. Qed.

(** X9. [initGrid] lays out a grid and resets the game: the new store holds
    one active bubble for each cell of the level's rows whose draw exceeds
    0.1 and nothing else, every bubble stands at the centre of its cell, no
    two share a cell, and the score, the shot counter, the game-over flag, the
    drop countdown and the difficulty are those of a new game. *)
Theorem initGrid_lays_a_grid (keep : Z -> Z -> Q) (ent : Z -> Z -> Entropy) (width : Q)
    (level : DifficultyLevel) (st : State) :
  let st' := initGrid keep ent width level st in
  let cells := gridCells (rows (DIFFICULTIES level)) in
  wellFormed width (bubbles st')
  /\ (forall b, b ∈ bubbles st' -> b_active b = true /\ (b_row b, b_col b) ∈ cells)
  /\ (forall cell, cell ∈ cells ->
        ((exists b, b ∈ bubbles st' /\ (b_row b, b_col b) = cell)
         <-> (1 # 10 < keep cell.1 cell.2)%Q))
  /\ score st' = 0 /\ totalShots st' = 0 /\ gameOver st' = false
  /\ shotsUntilDrop st' = dropInterval (DIFFICULTIES level) /\ difficulty st' = level.
Proof.
  intros st' cells. subst st'.
  pose proof (initGrid_board keep ent width level st) as Hb. fold cells in Hb.
  set (kept := List.filter (fun cell : Z * Z => Qltb (1 # 10) (keep cell.1 cell.2)) cells) in *.
  assert (Hkept : forall cell, cell ∈ kept <-> cell ∈ cells /\ (1 # 10 < keep cell.1 cell.2)%Q).
  { intros cell. subst kept. rewrite elem_of_filter_bool, Qltb_lt. reflexivity. }
  assert (Hnd : NoDup kept).
  { subst kept. apply NoDup_ListNoDup, List.NoDup_filter, NoDup_ListNoDup, gridCells_NoDup. }
  assert (Hlook : forall i b, bubbles (initGrid keep ent width level st) !! i = Some b ->
            exists cell, kept !! i = Some cell
                         /\ b = createBubble cell.1 cell.2 width (ent cell.1 cell.2)).
  { intros i b Hi. rewrite Hb, list_lookup_fmap in Hi.
    destruct (kept !! i) as [cell|]; [|discriminate Hi]. injection Hi as <-. eauto. }
  split; [split|split; [|split]].
  - intros b Hin _. apply list_elem_of_lookup in Hin as [i Hi].
    destruct (Hlook i b Hi) as (cell & Hc & ->).
    destruct (createBubble_cell cell.1 cell.2 width (ent cell.1 cell.2)) as (Hr & Hcl & _ & Hp).
    rewrite Hr, Hcl. split; [|apply placedAt_getBubblePos; exact Hp].
    assert (Hin : cell ∈ cells) by (apply Hkept, list_elem_of_lookup; eauto).
    apply elem_of_gridCells in Hin. lia.
  - intros i j b c Hi Hj _ _ Heq.
    destruct (Hlook i b Hi) as (cell & Hc & ->). destruct (Hlook j c Hj) as (cell' & Hc' & ->).
    destruct (createBubble_cell cell.1 cell.2 width (ent cell.1 cell.2)) as (Hr & Hcl & _).
    destruct (createBubble_cell cell'.1 cell'.2 width (ent cell'.1 cell'.2)) as (Hr' & Hcl' & _).
    rewrite Hr, Hcl, Hr', Hcl' in Heq.
    apply (NoDup_lookup kept i j cell Hnd Hc). rewrite Hc'. f_equal.
    destruct cell, cell'. cbn [fst snd] in Heq. congruence.
  - intros b Hin. apply list_elem_of_lookup in Hin as [i Hi].
    destruct (Hlook i b Hi) as (cell & Hc & ->).
    destruct (createBubble_cell cell.1 cell.2 width (ent cell.1 cell.2)) as (Hr & Hcl & Ha & _).
    rewrite Hr, Hcl. split; [exact Ha|]. rewrite <- surjective_pairing.
    apply Hkept, list_elem_of_lookup. eauto.
  - intros cell Hcell. split.
    + intros (b & Hin & Heq). apply list_elem_of_lookup in Hin as [i Hi].
      destruct (Hlook i b Hi) as (cell' & Hc & ->).
      destruct (createBubble_cell cell'.1 cell'.2 width (ent cell'.1 cell'.2))
        as (Hr & Hcl & _).
      rewrite Hr, Hcl, <- surjective_pairing in Heq. subst cell'.
      apply Hkept, list_elem_of_lookup. eauto.
    + intros Hk. exists (createBubble cell.1 cell.2 width (ent cell.1 cell.2)). split.
      * rewrite Hb. apply list_elem_of_fmap. exists cell. split; [reflexivity|].
        apply Hkept. auto.
      * destruct (createBubble_cell cell.1 cell.2 width (ent cell.1 cell.2)) as (Hr & Hcl & _).
        rewrite Hr, Hcl. symmetry. apply surjective_pairing.
  - repeat split; reflexivity.
Qed.

(** ** Settling *)

Lemma addCeilingRow_frame (ent : Z -> Entropy) (st : State) :
  let st' := addCeilingRow ent st in
  score st' = score st /\ totalShots st' = totalShots st
  /\ shotsUntilDrop st' = shotsUntilDrop st /\ difficulty st' = difficulty st
  /\ anchorPos st' = anchorPos st /\ captureRequest st' = captureRequest st
  /\ (gameOver st = true -> gameOver st' = true)
  /\ length (bubbles st') = (length (bubbles st) + 12)%nat.
Proof.
  cbn zeta. rewrite (proj1 (addCeilingRow_board ent st)).
  rewrite length_app, !length_map, length_seqZ.
  unfold addCeilingRow. cbn zeta. destruct (MAX_ROWS_LIMIT <=? _); cbn; repeat split; auto.
Qed.

Lemma checkMatches_score (start : nat) (st : State) : score st <= score (checkMatches start st).1.
Proof.
  destruct (bubbles st !! start) as [startBubble|] eqn:Hs.
  - rewrite (checkMatches_eq start st startBubble Hs). cbn zeta.
    destruct (3 <=? _)%nat; cbn [fst score withBoard]; [|lia].
    set (size := length (flood (bubbles st) start)).
    assert (H0 : 0 <= Qfloor (inject_Z (Z.of_nat size * points (b_color startBubble))
                              * (if (3 <? size)%nat then 15 # 10 else 1)%Q)).
    { change 0 with (Qfloor (inject_Z 0)) at 1. apply Qfloor_resp_le.
      assert (Hp : 0 <= Z.of_nat size * points (b_color startBubble))
        by (destruct (b_color startBubble); cbn [points]; lia).
      apply Qmult_le_0_compat.
      - change 0%Q with (inject_Z 0). rewrite <- Zle_Qle. exact Hp.
      - destruct (3 <? size)%nat; discriminate. }
    lia.
  - unfold checkMatches. rewrite Hs. cbn [fst]. lia.
Qed.

Lemma popped_length (bs bs' : list Bubble) : popped bs bs' -> length bs' = length bs.
Proof. intros Hp. symmetry. apply (Forall2_length _ _ _ Hp). Qed.

Lemma dropInterval_pos (level : DifficultyLevel) : 1 <= dropInterval (DIFFICULTIES level).
Proof. destruct level; cbn; lia. Qed.

(** The shot counter, the score and the game-over flag after the
    [if (collisionOccurred)] block. *)
Lemma settling_counts (st : State) (dateNow : Z) (ent : Z -> Entropy) :
  totalShots (settle dateNow ent st) = totalShots st + 1
  /\ score st <= score (settle dateNow ent st)
  /\ (gameOver st = true -> gameOver (settle dateNow ent st) = true).
Proof.
  unfold settle.
  remember (gridSnap (logicalWidth st) (bubbles st) (ballPos st)) as best eqn:Hbest. clear Hbest.
  remember (mkBubble _ (bestRow best) (bestCol best) (bestX best) (bestY best)
              (selectedColor st) true None) as newBubble eqn:Hnew. clear Hnew.
  remember (withBoard (bubbles st ++ [newBubble]) (score st)
              (withBall false (ballPos st) (ballVel st) st)) as st1 eqn:Hst1.
  pose proof (checkMatches_frame (length (bubbles st)) st1) as Hframe.
  pose proof (checkMatches_score (length (bubbles st)) st1) as Hscore.
  destruct (checkMatches (length (bubbles st)) st1) as [st2 matched]. cbn [fst] in *.
  destruct Hframe as (_ & _ & _ & _ & _ & _ & Hg & _ & _ & _).
  assert (Hs1 : score st1 = score st) by (rewrite Hst1; reflexivity).
  assert (Hg1 : gameOver st1 = gameOver st) by (rewrite Hst1; reflexivity).
  pose proof (addCeilingRow_frame ent st2) as (Hcs & _ & _ & _ & _ & _ & Hcg & _).
  destruct (shotsUntilDrop st - 1 <=? 0); destruct (MAX_ROWS_LIMIT <=? bestRow best);
    destruct (Z.rem _ _ =? 0); cbn; rewrite ?Hcs; repeat split; try lia; try reflexivity;
    try congruence; try (intros Hover; apply Hcg; congruence).
Qed.

(** X10. Settling counts the shot.  After the ball has settled the shot
    counter is one higher, the ball is back on the anchor at rest, the
    countdown to the next ceiling drop has gone down by one or, when it
    reached zero, restarted at the drop interval of the difficulty (so it is
    never below one afterwards), the store holds one bubble more, and twelve
    more on top when the ceiling dropped; the score has not gone down, and a
    game that was over is still over. *)
Theorem settling_counts_the_shot (dateNow : Z) (ent : Z -> Entropy) (st : State) :
  let st' := settle dateNow ent st in
  let drop := shotsUntilDrop st - 1 <=? 0 in
  totalShots st' = totalShots st + 1
  /\ shotsUntilDrop st'
     = (if drop then dropInterval (DIFFICULTIES (difficulty st)) else shotsUntilDrop st - 1)
  /\ 1 <= shotsUntilDrop st'
  /\ length (bubbles st') = (length (bubbles st) + (if drop then 13 else 1))%nat
  /\ isFlying st' = false /\ ballPos st' = anchorPos st /\ ballVel st' = mkPoint 0 0
  /\ score st <= score st'
  /\ (gameOver st = true -> gameOver st' = true)
  /\ (MAX_ROWS_LIMIT <= bestRow (gridSnap (logicalWidth st) (bubbles st) (ballPos st)) ->
      gameOver st' = true).
Proof.
  intros st' drop. subst st'. unfold settle.
  remember (gridSnap (logicalWidth st) (bubbles st) (ballPos st)) as best eqn:Hbest. clear Hbest.
  remember (mkBubble _ (bestRow best) (bestCol best) (bestX best) (bestY best)
              (selectedColor st) true None) as newBubble eqn:Hnew. clear Hnew.
  remember (withBoard (bubbles st ++ [newBubble]) (score st)
              (withBall false (ballPos st) (ballVel st) st)) as st1 eqn:Hst1.
  pose proof (checkMatches_frame (length (bubbles st)) st1) as Hframe.
  pose proof (checkMatches_score (length (bubbles st)) st1) as Hscore.
  pose proof (popped_length _ _ (popped_checkMatches (length (bubbles st)) st1)) as Hlen.
  destruct (checkMatches (length (bubbles st)) st1) as [st2 matched]. cbn [fst] in *.
  destruct Hframe as (_ & _ & Ha & _ & _ & _ & Hg & _ & _ & Hd).
  assert (Hlen1 : length (bubbles st2) = (length (bubbles st) + 1)%nat).
  { rewrite Hlen, Hst1. cbn [bubbles withBoard]. rewrite length_app. reflexivity. }
  assert (Hs1 : score st1 = score st) by (rewrite Hst1; reflexivity).
  assert (Hg1 : gameOver st1 = gameOver st) by (rewrite Hst1; reflexivity).
  pose proof (addCeilingRow_frame ent st2) as (Hcs & _ & _ & _ & _ & _ & Hcg & Hcl).
  pose proof (dropInterval_pos (difficulty st)) as Hdi.
  fold drop. destruct drop eqn:Hdrop.
  - destruct (MAX_ROWS_LIMIT <=? bestRow best) eqn:Hrow; destruct (Z.rem _ _ =? 0);
      cbn; rewrite ?Hcs, ?Hcl, ?Hlen1; repeat split; try lia; try reflexivity;
      try (intros Hover; apply Hcg; congruence); try (apply Z.leb_nle in Hrow; lia).
  - subst drop. apply Z.leb_nle in Hdrop.
    destruct (MAX_ROWS_LIMIT <=? bestRow best) eqn:Hrow; destruct (Z.rem _ _ =? 0);
      cbn; rewrite ?Hlen1; repeat split; try lia; try reflexivity;
      try congruence; try (apply Z.leb_nle in Hrow; lia).
Qed.

(** ** What a frame never undoes *)

Lemma evolves_refl (bs : list Bubble) : evolves bs bs.
Proof. intros i b Hi. exists b. auto. Qed.

Lemma evolves_trans (bs bs' bs'' : list Bubble) :
  evolves bs bs' -> evolves bs' bs'' -> evolves bs bs''.
Proof.
  intros H1 H2 i b Hi. destruct (H1 i b Hi) as (b' & Hi' & Hid & Hc & Hp & Ha).
  destruct (H2 i b' Hi') as (b'' & Hi'' & Hid' & Hc' & Hp' & Ha').
  exists b''. split; [exact Hi''|]. repeat split; try congruence.
  intros Hb. specialize (Ha Hb). subst b'. apply Ha'. exact Hb.
Qed.

Lemma evolves_popped (bs bs' : list Bubble) : popped bs bs' -> evolves bs bs'.
Proof.
  intros Hp i b Hi. destruct (Forall2_lookup_l _ _ _ _ _ Hp Hi) as (b' & Hi' & [->| ->]).
  - exists b. auto.
  - exists (deactivate b). split; [exact Hi'|]. repeat split.
    intros Ha. destruct b. cbn in Ha. subst. reflexivity.
Qed.

Lemma evolves_app (bs more : list Bubble) : evolves bs (bs ++ more).
Proof. intros i b Hi. exists b. split; [apply lookup_app_l_Some; exact Hi|auto]. Qed.

Lemma evolves_lower (width : Q) (bs : list Bubble) : evolves bs (map (lowerBubble width) bs).
Proof.
  intros i b Hi. exists (lowerBubble width b). rewrite list_lookup_fmap, Hi. split; [reflexivity|].
  unfold lowerBubble. destruct (b_active b); cbn; repeat split; auto. discriminate.
Qed.

Lemma evolves_length (bs bs' : list Bubble) : evolves bs bs' -> (length bs <= length bs')%nat.
Proof.
  intros He. destruct (Nat.le_gt_cases (length bs) (length bs')) as [|Hlt]; [assumption|].
  destruct (lookup_lt_is_Some_2 bs (length bs')) as [b Hb]; [lia|].
  destruct (He _ b Hb) as (b' & Hb' & _). apply lookup_lt_Some in Hb'. lia.
Qed.

Lemma evolves_settle (dateNow : Z) (ent : Z -> Entropy) (st : State) :
  evolves (bubbles st) (bubbles (settle dateNow ent st)).
Proof.
  destruct (settle_board dateNow ent st) as (Hb & _ & _). cbv zeta in Hb. rewrite Hb. clear Hb.
  remember (gridSnap (logicalWidth st) (bubbles st) (ballPos st)) as best eqn:Hbest. clear Hbest.
  remember (mkBubble _ (bestRow best) (bestCol best) (bestX best) (bestY best)
              (selectedColor st) true None) as newBubble eqn:Hnew. clear Hnew.
  remember (withBoard (bubbles st ++ [newBubble]) (score st)
              (withBall false (ballPos st) (ballVel st) st)) as st1 eqn:Hst1.
  assert (H2 : evolves (bubbles st) (bubbles (checkMatches (length (bubbles st)) st1).1)).
  { apply (evolves_trans _ (bubbles st1)).
    - rewrite Hst1. apply evolves_app.
    - apply evolves_popped, popped_checkMatches. }
  destruct (shotsUntilDrop st - 1 <=? 0); [|exact H2].
  apply (evolves_trans _ _ _ H2). rewrite (proj1 (addCeilingRow_board ent _)).
  eapply evolves_trans; [apply evolves_lower|apply evolves_app].
Qed.

(** X11. A frame of the physics never goes back on the game.  After
    [updatePhysics] the score is not lower, the shot counter is the same or
    one higher, a game that was over is still over, and every bubble of the
    store is still in the store, at the same place, with the same id, colour
    and power-up; a bubble that was popped is exactly as it was (popped
    bubbles never come back). *)
Theorem physics_never_goes_back (now : Q) (dateNow : Z) (ent : Z -> Entropy) (st : State) :
  let st' := updatePhysics now dateNow ent st in
  score st <= score st'
  /\ totalShots st <= totalShots st' <= totalShots st + 1
  /\ (gameOver st = true -> gameOver st' = true)
  /\ evolves (bubbles st) (bubbles st')
  /\ (length (bubbles st) <= length (bubbles st'))%nat.
Proof.
  intros st'.
  assert (Hmain : score st <= score st'
                  /\ totalShots st <= totalShots st' <= totalShots st + 1
                  /\ (gameOver st = true -> gameOver st' = true)
                  /\ evolves (bubbles st) (bubbles st')).
  { subst st'. unfold updatePhysics.
    destruct (negb (isFlying st)); [repeat split; try lia; auto using evolves_refl|].
    destruct (Qltb 5000 (now - flightStartTime st));
      [cbn; repeat split; try lia; auto using evolves_refl|].
    destruct (flightContact st) as [[pos vel] contact].
    destruct contact as [| |b].
    - destruct (Qltb _ _); cbn; repeat split; try lia; auto using evolves_refl.
    - remember (withBall true pos (mkPoint (px vel * FRICTION) ((py vel + GRAVITY) * FRICTION)) st)
        as st1 eqn:Hst1.
      pose proof (settling_counts st1 dateNow ent) as (Ht & Hs & Hg).
      pose proof (evolves_settle dateNow ent st1) as He.
      assert (Hf : score st1 = score st /\ totalShots st1 = totalShots st
                   /\ gameOver st1 = gameOver st /\ bubbles st1 = bubbles st)
        by (rewrite Hst1; repeat split; reflexivity).
      destruct Hf as (Hf1 & Hf2 & Hf3 & Hf4). rewrite Hf1, Hf2, Hf3, Hf4 in *. clear Hst1.
      remember (settle dateNow ent st1) as st2 eqn:Hst2. clear Hst2.
      destruct (Qltb _ _); cbn [withBall score totalShots gameOver bubbles];
        repeat split; try lia; auto.
    - cbn [withBall score totalShots gameOver bubbles].
      destruct (triggerBomb_frame b st) as (_ & _ & _ & Hg & _ & Ht).
      destruct (triggerBomb_board b st) as [Hb Hs]. rewrite Hg, Ht, Hs.
      repeat split; try lia; auto.
      + unfold blastCount. lia.
      + apply evolves_popped, popped_triggerBomb. }
  destruct Hmain as (H1 & H2 & H3 & H4). repeat split; try tauto; try lia.
  apply evolves_length. exact H4.
Qed.

(** ** The bomb, once *)

Lemma blast_idemp (bomb b : Bubble) : blast bomb (blast bomb b) = blast bomb b.
Proof.
  unfold blast. destruct (b_active b && inExplosion bomb b) eqn:E; [reflexivity|].
  rewrite E. reflexivity.
Qed.

Lemma blast_inactive (bomb b : Bubble) :
  b_active (blast bomb b) && inExplosion bomb (blast bomb b) = false.
Proof.
  unfold blast. destruct (b_active b && inExplosion bomb b) eqn:E; [reflexivity|exact E].
Qed.

Lemma blastCount_blast (bomb : Bubble) (bs : list Bubble) :
  blastCount bomb (map (blast bomb) bs) = 0.
Proof.
  unfold blastCount. induction bs as [|b bs IH]; [reflexivity|].
  cbn [map List.filter]. rewrite blast_inactive. exact IH.
Qed.

Lemma blastCount_pos (bomb : Bubble) (bs : list Bubble) (b : Bubble) :
  b ∈ bs -> b_active b = true -> inExplosion bomb b = true -> 1 <= blastCount bomb bs.
Proof.
  intros Hb Ha He. unfold blastCount.
  assert (Hin : b ∈ List.filter (fun b0 => b_active b0 && inExplosion bomb b0) bs).
  { apply elem_of_filter_bool. rewrite Ha, He. auto. }
  destruct (List.filter _ bs); [inversion Hin|]. cbn [length]. lia.
Qed.

Lemma triggerBomb_eq (bomb : Bubble) (st : State) :
  triggerBomb bomb st
  = withBoard (map (blast bomb) (bubbles st)) (score st + blastCount bomb (bubbles st) * 50) st.
Proof. unfold triggerBomb. rewrite triggerBomb_fold. cbn [app]. f_equal; lia. Qed.

(** X12. A bomb explodes once.  The explosion takes the bomb with it: when
    the bomb is an active bubble of the store, it is popped and the score
    grows by at least 50; after the explosion no active bubble is left
    within the radius, so that exploding the same bomb again changes neither
    the board nor the score. *)
Theorem bomb_explodes_once (bomb : Bubble) (st : State) :
  let st' := triggerBomb bomb st in
  triggerBomb bomb st' = st'
  /\ (forall b, b ∈ bubbles st' -> withinExplosion bomb b -> b_active b = false)
  /\ (bomb ∈ bubbles st -> b_active bomb = true ->
      deactivate bomb ∈ bubbles st' /\ score st + 50 <= score st').
Proof.
  intros st'. subst st'. split; [|split].
  - rewrite (triggerBomb_eq bomb (triggerBomb bomb st)), (triggerBomb_eq bomb st).
    cbn [bubbles score withBoard]. rewrite blastCount_blast.
    assert (Hmap : map (blast bomb) (map (blast bomb) (bubbles st))
                   = map (blast bomb) (bubbles st)).
    { rewrite map_map. apply map_ext. intros b. apply blast_idemp. }
    rewrite Hmap. unfold withBoard. cbn. f_equal. lia.
  - intros b Hb Hw. rewrite (proj1 (triggerBomb_board bomb st)) in Hb.
    apply list_elem_of_fmap in Hb as (b0 & -> & _).
    pose proof (blast_inactive bomb b0) as Hi. apply inExplosion_le in Hw. rewrite Hw in Hi.
    apply andb_false_iff in Hi as [Hi|Hi]; [exact Hi|discriminate].
  - intros Hin Ha.
    assert (Hself : inExplosion bomb bomb = true).
    { apply inExplosion_le. unfold dist2, Qsq.
      assert (H0 : ((b_x bomb - b_x bomb) * (b_x bomb - b_x bomb)
                    + (b_y bomb - b_y bomb) * (b_y bomb - b_y bomb) == 0)%Q) by ring.
      rewrite H0. discriminate. }
    destruct (triggerBomb_board bomb st) as [Hb Hs]. rewrite Hb, Hs. split.
    + apply list_elem_of_fmap. exists bomb. split; [|exact Hin].
      unfold blast. rewrite Ha, Hself. reflexivity.
    + pose proof (blastCount_pos bomb (bubbles st) bomb Hin Ha Hself). lia.
Qed.

(** ** The flight *)

Lemma Qle_bool_false (a b : Q) : Qle_bool a b = false <-> (b < a)%Q.
Proof.
  split.
  - intros H. apply Qnot_le_lt. intros Hle. apply Qle_bool_iff in Hle. congruence.
  - intros H. apply not_true_is_false. intros Hle. apply Qle_bool_iff in Hle.
    apply (Qlt_irrefl b). eapply Qlt_le_trans; eauto.
Qed.

Lemma clamp_between (lo hi x : Q) : (lo <= hi)%Q -> (lo <= Qmax lo (Qmin hi x) <= hi)%Q.
Proof.
  intros Hle. unfold Qmax, Qmin.
  destruct (Qle_bool hi x) eqn:E1.
  - destruct (Qle_bool lo hi) eqn:E2.
    + split; [exact Hle|apply Qle_refl].
    + split; [apply Qle_refl|exact Hle].
  - apply Qle_bool_false in E1. destruct (Qle_bool lo x) eqn:E2.
    + apply Qle_bool_iff in E2. split; [exact E2|apply Qlt_le_weak; exact E1].
    + split; [apply Qle_refl|exact Hle].
Qed.

Lemma sameOrMirrored_refl (vel : Point) : sameOrMirrored vel vel.
Proof. split; [left|]; reflexivity. Qed.

Lemma sameOrMirrored_bounce (vel vel' : Point) :
  sameOrMirrored (mkPoint (px vel * -1) (py vel)) vel' -> sameOrMirrored vel vel'.
Proof.
  intros [Hx Hy]. cbn [px py] in *. split; [|exact Hy].
  destruct Hx as [Hx|Hx]; [right|left]; rewrite Hx; ring.
Qed.

Lemma subSteps_walls (steps : Z) (width : Q) (bs : list Bubble) :
  (BUBBLE_RADIUS <= width - BUBBLE_RADIUS)%Q ->
  forall n pos vel,
    (n = O -> betweenWalls width pos) ->
    betweenWalls width (subSteps n steps width bs pos vel).1.1
    /\ sameOrMirrored vel (subSteps n steps width bs pos vel).1.2.
Proof.
  intros Hw. induction n as [|n IH]; intros pos vel H0.
  - cbn [subSteps fst snd]. split; [auto|apply sameOrMirrored_refl].
  - cbn [subSteps].
    set (x1 := (px pos + px vel / inject_Z steps)%Q).
    set (y1 := (py pos + py vel / inject_Z steps)%Q).
    set (atWall := Qltb x1 BUBBLE_RADIUS || Qltb (width - BUBBLE_RADIUS) x1).
    set (vel' := if atWall then mkPoint (px vel * -1) (py vel) else vel).
    set (x2 := if atWall then Qmax BUBBLE_RADIUS (Qmin (width - BUBBLE_RADIUS) x1) else x1).
    assert (Hpos : betweenWalls width (mkPoint x2 y1)).
    { unfold betweenWalls. cbn [px]. subst x2. destruct atWall eqn:Ew.
      - apply clamp_between. exact Hw.
      - subst atWall. apply orb_false_iff in Ew as [E1 E2].
        apply Qltb_ge in E1. apply Qltb_ge in E2. auto. }
    assert (Hvel : sameOrMirrored vel vel').
    { subst vel'. destruct atWall; [|apply sameOrMirrored_refl].
      split; cbn [px py]; [right; ring|reflexivity]. }
    destruct (Qltb y1 BUBBLE_RADIUS); [cbn [fst snd]; auto|].
    destruct (List.find (touches (mkPoint x2 y1)) bs) as [b|].
    + destruct (isBomb b); cbn [fst snd]; auto.
    + destruct (IH (mkPoint x2 y1) vel' (fun _ => Hpos)) as [Hp Hv]. split; [exact Hp|].
      subst vel'. destruct atWall; [apply sameOrMirrored_bounce|]; exact Hv.
Qed.

(** X13. The walls hold the ball: in a container at least two radii wide,
    after the sub-steps of a frame the centre of the ball is between the
    walls as soon as one sub-step ran, wherever it started, and it stays
    there when it started there; the velocity the loop leaves is the one it
    found, or that one mirrored, so the speed is unchanged. *)
Theorem walls_hold_the_ball (n : nat) (steps : Z) (width : Q) (bs : list Bubble)
    (pos vel : Point) :
  (BUBBLE_RADIUS <= width - BUBBLE_RADIUS)%Q ->
  (0 < n)%nat \/ betweenWalls width pos ->
  let '(pos', vel', _) := subSteps n steps width bs pos vel in
  betweenWalls width pos' /\ sameOrMirrored vel vel'
  /\ (Qsq (px vel') + Qsq (py vel') == Qsq (px vel) + Qsq (py vel))%Q.
Proof.
  intros Hw Hstart.
  destruct (subSteps_walls steps width bs Hw n pos vel) as [Hp Hv].
  { intros ->. destruct Hstart as [H|H]; [lia|exact H]. }
  destruct (subSteps n steps width bs pos vel) as [[pos' vel'] c]. cbn [fst snd] in *.
  split; [exact Hp|]. split; [exact Hv|].
  destruct Hv as [[Hx|Hx] Hy]; rewrite Hy; unfold Qsq; rewrite Hx; ring.
Qed.

Lemma walls_hold_the_ball_witness :
  let '(pos', vel', _) :=
    subSteps 2 2 1000 [] (mkPoint 30 300) (mkPoint (-40) (-10)) in
  betweenWalls 1000 pos' /\ sameOrMirrored (mkPoint (-40) (-10)) vel'
  /\ (Qsq (px vel') + Qsq (py vel') == Qsq (-40) + Qsq (-10))%Q.
Proof.
  apply (walls_hold_the_ball 2 2 1000 [] (mkPoint 30 300) (mkPoint (-40) (-10))).
  - unfold BUBBLE_RADIUS. lra.
  - left. lia.
Defined.

(** In exact arithmetic the sub-steps are 0.8 radius long at most, and one
    sub-step fewer would make them longer. *)
Lemma frameSteps_spec (st : State) :
  let vx := px (ballVel st) in
  let vy := py (ballVel st) in
  let steps := frameSteps st in
  (0 < Qsq vx + Qsq vy)%Q ->
  0 < steps
  /\ (Qsq (vx / inject_Z steps) + Qsq (vy / inject_Z steps)
      <= Qsq (BUBBLE_RADIUS * (8 # 10)))%Q
  /\ (Qsq (inject_Z (steps - 1)) * Qsq (BUBBLE_RADIUS * (8 # 10)) < Qsq vx + Qsq vy)%Q.
Proof.
  intros vx vy steps. subst steps. unfold frameSteps. fold vx. fold vy.
  set (v2 := (Qsq vx + Qsq vy)%Q).
  assert (Hd : (Qsq (BUBBLE_RADIUS * (8 # 10)) == 30976 # 100)%Q) by reflexivity.
  intros Hv.
  assert (Hs : (0 < v2 / Qsq (BUBBLE_RADIUS * (8 # 10)))%Q).
  { rewrite Hd. apply Qlt_shift_div_l; [reflexivity|]. lra. }
  destruct (ceil_sqrt_spec _ Hs) as (Hpos & Hlo & Hhi).
  set (k := ceil_sqrt (v2 / Qsq (BUBBLE_RADIUS * (8 # 10)))) in *.
  split; [exact Hpos|].
  assert (Hk : (0 < inject_Z k)%Q)
    by (change 0%Q with (inject_Z 0); rewrite <- Zlt_Qlt; exact Hpos).
  rewrite Hd in *. split.
  - assert (Heq : (Qsq (vx / inject_Z k) + Qsq (vy / inject_Z k)
                   == v2 / (inject_Z k * inject_Z k))%Q).
    { subst v2. unfold Qsq. field. lra. }
    rewrite Heq. apply Qle_shift_div_r; [nra|].
    unfold Qsq in Hhi.
    assert (Hm : (v2 == v2 / (30976 # 100) * (30976 # 100))%Q) by (field; lra).
    rewrite Hm. rewrite (Qmult_comm (30976 # 100)).
    apply Qmult_le_compat_r; [exact Hhi|lra].
  - assert (Hm : (v2 == v2 / (30976 # 100) * (30976 # 100))%Q) by (field; lra).
    rewrite Hm. apply Qmult_lt_compat_r; [reflexivity|exact Hlo].
Qed.

(** X14. The sub-steps prevent tunnelling.  When the ball moves by a
    thousandth of a pixel or more in a frame, the frame is cut into at least
    one sub-step, and in each sub-step the ball advances by 0.8 radius (17.6
    pixels) to within a thousandth at most, which is less than 0.9 radius,
    half the distance at which it touches a bubble; with one sub-step fewer
    the sub-steps would be longer than 0.8 radius less a thousandth.  A ball
    at rest makes no sub-step.  The bounds leave a thousandth on either side
    of 0.8 radius, so that they do not depend on how the quotient of the
    speed by 0.8 radius is rounded. *)
Theorem substeps_are_shorter_than_contact (st : State) :
  let vx := px (ballVel st) in
  let vy := py (ballVel st) in
  let steps := frameSteps st in
  ((Qsq (1 # 1000) <= Qsq vx + Qsq vy)%Q ->
     0 < steps
     /\ (Qsq (vx / inject_Z steps) + Qsq (vy / inject_Z steps)
         <= Qsq (BUBBLE_RADIUS * (8 # 10) * (1001 # 1000)))%Q
     /\ (Qsq (vx / inject_Z steps) + Qsq (vy / inject_Z steps)
         < Qsq (BUBBLE_RADIUS * (18 # 10) / 2))%Q
     /\ (Qsq (inject_Z (steps - 1)) * Qsq (BUBBLE_RADIUS * (8 # 10) * (999 # 1000))
         < Qsq vx + Qsq vy)%Q)
  /\ ((Qsq vx + Qsq vy == 0)%Q -> steps = 0).
Proof.
  intros vx vy steps. split.
  - intros Hv.
    assert (Hpos : (0 < Qsq vx + Qsq vy)%Q).
    { eapply Qlt_le_trans; [|exact Hv]. reflexivity. }
    destruct (frameSteps_spec st Hpos) as (Hsteps & Hle & Hlo).
    fold vx vy steps in Hle, Hlo. fold steps in Hsteps.
    split; [exact Hsteps|]. split; [|split].
    + eapply Qle_trans; [exact Hle|]. apply Qle_bool_iff. reflexivity.
    + eapply Qle_lt_trans; [exact Hle|]. reflexivity.
    + eapply Qle_lt_trans; [|exact Hlo].
      rewrite !(Qmult_comm (Qsq (inject_Z (steps - 1)))).
      apply Qmult_le_compat_r; [apply Qle_bool_iff; reflexivity|apply Qsquare_nonneg].
  - intros Hv. subst steps. unfold frameSteps. fold vx. fold vy.
    assert (Hd : (Qsq (BUBBLE_RADIUS * (8 # 10)) == 30976 # 100)%Q) by reflexivity.
    apply ceil_sqrt_nonpos. rewrite Hv, Hd. unfold Qdiv. rewrite Qmult_0_l.
    apply Qle_refl.
Qed.

Lemma substeps_are_shorter_than_contact_witness :
  0 < frameSteps settlingFrame
  /\ (Qsq (0 / inject_Z (frameSteps settlingFrame))
      + Qsq (-30 / inject_Z (frameSteps settlingFrame))
      < Qsq (BUBBLE_RADIUS * (18 # 10) / 2))%Q.
Proof.
  destruct (proj1 (substeps_are_shorter_than_contact settlingFrame)) as (Hpos & _ & Hlt & _).
  - apply Qle_bool_iff. reflexivity.
  - split; [exact Hpos|exact Hlt].
Defined.

(** ** The launch *)

Lemma Qmin_spec (a b : Q) : (Qmin a b <= a)%Q /\ (Qmin a b <= b)%Q
                            /\ (Qmin a b = a \/ Qmin a b = b).
Proof.
  unfold Qmin. destruct (Qle_bool a b) eqn:E.
  - apply Qle_bool_iff in E. split; [apply Qle_refl|]. split; [exact E|left; reflexivity].
  - apply Qle_bool_false in E. split; [apply Qlt_le_weak; exact E|].
    split; [apply Qle_refl|right; reflexivity].
Qed.

Lemma velocityMultiplier_bounds (stretch2 : Q) :
  (0 < stretch2)%Q ->
  (MIN_FORCE_MULT < velocityMultiplier stretch2)%Q
  /\ (velocityMultiplier stretch2 <= MAX_FORCE_MULT)%Q.
Proof.
  intros Hs. unfold velocityMultiplier, MIN_FORCE_MULT, MAX_FORCE_MULT.
  assert (Hr : (0 < stretch2 / Qsq MAX_DRAG_DIST)%Q) by (apply Qlt_shift_div_l; [reflexivity|lra]).
  destruct (Qmin_spec (stretch2 / Qsq MAX_DRAG_DIST) 1) as (_ & H1 & Hc).
  assert (H0 : (0 < Qmin (stretch2 / Qsq MAX_DRAG_DIST) 1)%Q).
  { destruct Hc as [-> | ->]; [exact Hr|reflexivity]. }
  generalize dependent (Qmin (stretch2 / Qsq MAX_DRAG_DIST) 1). intros q H1 _ H0.
  split; lra.
Qed.

Lemma ceil_sqrt_le (s : Q) (k : Z) : 0 <= k -> (s <= Qsq (inject_Z k))%Q -> ceil_sqrt s <= k.
Proof.
  intros Hk Hs. destruct (Qlt_le_dec 0 s) as [Hpos|Hneg].
  - destruct (ceil_sqrt_spec s Hpos) as (Hc & Hlo & _).
    assert (H : (Qsq (inject_Z (ceil_sqrt s - 1)) < Qsq (inject_Z k))%Q)
      by (eapply Qlt_le_trans; eauto).
    unfold Qsq in H. rewrite <- !inject_Z_mult, <- Zlt_Qlt in H. nia.
  - rewrite (ceil_sqrt_nonpos s Hneg). exact Hk.
Qed.

(** X15. Releasing the sling launches the ball toward the anchor with a
    bounded speed.  In a game that is not over, a pull of 30.1 pixels or more
    and of 180.1 pixels at most ([MAX_DRAG_DIST] is 180) puts the ball in
    flight from where it was released, with the pull vector scaled by a factor
    above 0.15 and below 0.451 as its velocity; its speed is then below 82
    pixels per frame, so that the next frame takes between one and five
    sub-steps.  The board and the counters are untouched, and releasing a
    pinch launches the ball in the same way.  The bounds stand clear of the
    values met at a full pull (0.45 and 81) and of the threshold of 30
    pixels, so that they do not depend on how these are rounded. *)
Theorem launch_speed_is_bounded (now : Q) (st : State) :
  let dx := (px (anchorPos st) - px (ballPos st))%Q in
  let dy := (py (anchorPos st) - py (ballPos st))%Q in
  let st' := (handleEnd now true st).2 in
  gameOver st = false ->
  (Qsq (301 # 10) <= dx * dx + dy * dy)%Q -> (dx * dx + dy * dy <= Qsq (1801 # 10))%Q ->
  (exists m, (15 # 100 < m)%Q /\ (m < 451 # 1000)%Q
             /\ ballVel st' = mkPoint (dx * m) (dy * m))
  /\ isFlying st' = true /\ flightStartTime st' = now /\ ballPos st' = ballPos st
  /\ (Qsq (px (ballVel st')) + Qsq (py (ballVel st')) < Qsq 82)%Q
  /\ 0 < frameSteps st' <= 5
  /\ bubbles st' = bubbles st /\ score st' = score st
  /\ shotsUntilDrop st' = shotsUntilDrop st /\ totalShots st' = totalShots st
  /\ releasePinch now false st = st'.
Proof.
  intros dx dy st' Hover Hlong' Hshort. subst st'. unfold handleEnd, releasePinch.
  rewrite Hover. cbn [negb orb]. fold dx. fold dy.
  assert (Hlong : (Qsq 30 < dx * dx + dy * dy)%Q).
  { eapply Qlt_le_trans; [|exact Hlong']. reflexivity. }
  apply Qltb_lt in Hlong. rewrite Hlong. cbn [snd ballVel isFlying flightStartTime ballPos
    bubbles score shotsUntilDrop totalShots px py].
  apply Qltb_lt in Hlong.
  assert (Hpos : (0 < dx * dx + dy * dy)%Q).
  { eapply Qlt_trans; [|exact Hlong]. reflexivity. }
  destruct (velocityMultiplier_bounds _ Hpos) as [Hlo Hhi].
  set (m := velocityMultiplier (dx * dx + dy * dy)) in *. clearbody m.
  unfold MIN_FORCE_MULT, MAX_FORCE_MULT in Hlo, Hhi.
  assert (Hv : (Qsq (dx * m) + Qsq (dy * m) == (dx * dx + dy * dy) * (m * m))%Q)
    by (unfold Qsq; ring).
  assert (Hm2 : (m * m <= (45 # 100) * (45 # 100))%Q) by nra.
  assert (Hm0 : ((15 # 100) * (15 # 100) < m * m)%Q) by nra.
  assert (Hspeed : (Qsq (dx * m) + Qsq (dy * m) <= Qsq (81045 # 1000))%Q).
  { rewrite Hv. unfold Qsq in *. clear Hv.
    set (s := (dx * dx + dy * dy)%Q) in *. clearbody s. set (mm := (m * m)%Q) in *.
    clearbody mm. nra. }
  split; [exists m; split; [exact Hlo|split; [lra|reflexivity]]|].
  repeat (split; [reflexivity|]).
  split; [eapply Qle_lt_trans; [exact Hspeed|reflexivity]|].
  split; [|repeat split; reflexivity].
  unfold frameSteps. cbn [ballVel px py].
  assert (Hd : (Qsq (BUBBLE_RADIUS * (8 # 10)) == 30976 # 100)%Q) by reflexivity.
  split.
  - apply ceil_sqrt_spec. rewrite Hd. apply Qlt_shift_div_l; [reflexivity|].
    rewrite Hv. unfold Qsq in Hlong. clear Hv Hspeed.
    set (s := (dx * dx + dy * dy)%Q) in *. clearbody s. set (mm := (m * m)%Q) in *.
    clearbody mm. nra.
  - apply ceil_sqrt_le; [lia|]. rewrite Hd. apply Qle_shift_div_r; [reflexivity|].
    eapply Qle_trans; [exact Hspeed|]. vm_compute. discriminate.
Qed.

Lemma launch_speed_is_bounded_witness :
  isFlying (handleEnd 0 true pulledSling).2 = true
  /\ 0 < frameSteps (handleEnd 0 true pulledSling).2 <= 5.
Proof.
  destruct (launch_speed_is_bounded 0 pulledSling) as (_ & Hfly & _ & _ & _ & Hsteps & _).
  - reflexivity.
  - vm_compute. discriminate.
  - vm_compute. discriminate.
  - split; [exact Hfly|exact Hsteps].
Defined.





(** ** What the enumerator lists *)

Lemma fold_left_invariant {A B} (f : A -> B -> A) (I : A -> Prop) (l : list B) :
  (forall acc x, x ∈ l -> I acc -> I (f acc x)) ->
  forall init, I init -> I (fold_left f l init).
Proof.
  induction l as [|x l IH]; intros Hstep init Hinit; [exact Hinit|].
  cbn [fold_left]. apply IH.
  - intros acc y Hy. apply Hstep. right. exact Hy.
  - apply Hstep; [left|exact Hinit].
Qed.

Lemma visitBubble_sound `{Host} (anchor : Point) (width : Q) (bs activeBubbles : list Bubble)
    (color : BubbleColor) (acc : gset string * list TargetCandidate) (b : Bubble)
    (P : TargetCandidate -> Prop) :
  ComparisonSort (@array_sort _) ->
  b ∈ activeBubbles ->
  (forall c m, m ∈ activeBubbles -> isPathClear anchor bs m = true -> pointsAt c m -> P c) ->
  Forall P acc.2 ->
  Forall P (visitBubble anchor width bs activeBubbles color acc b).2.
Proof.
  intros Hsort Hb HP Hacc. destruct acc as [visited allClusters]. cbn [snd] in Hacc.
  unfold visitBubble.
  destruct (isBomb b && negb (bool_decide (b_id b ∈ visited))) eqn:Ebomb.
  - destruct (isPathClear anchor bs b) eqn:Eclear; [|exact Hacc]. cbn [snd].
    apply Forall_app. split; [exact Hacc|]. apply Forall_singleton.
    apply andb_true_iff in Ebomb as [Eb _].
    apply (HP _ b Hb Eclear). unfold pointsAt. cbn [bombCandidate t_id t_row t_col].
    repeat split; try reflexivity. left. auto.
  - destruct (negb (bool_decide (b_color b = color)) || bool_decide (b_id b ∈ visited)) eqn:Eskip;
      [exact Hacc|].
    destruct (clusterLoop _ _ _ _ _ _ _) as [[[members visited'] hasRainbow]|] eqn:Hloop;
      [|exact Hacc].
    cbn [snd]. unfold clusterCandidate.
    destruct (List.find _ _) as [m|] eqn:Hfind; [|exact Hacc].
    apply Forall_app. split; [exact Hacc|]. apply Forall_singleton.
    destruct (find_some_elem _ _ _ Hfind) as [Hm Hclear].
    destruct (Hsort _ (fun a b0 : Bubble => (b_y b0 - b_y a)%Q) members) as [Hperm _].
    rewrite Hperm in Hm.
    destruct (clusterLoop_members _ _ _ _ _ _ _ _ Hloop) as [Hseed Hall].
    apply orb_false_iff in Eskip as [Ecol _].
    apply negb_false_iff, bool_decide_eq_true in Ecol.
    assert (Hin : m ∈ activeBubbles /\ inCluster color m = true).
    { destruct (Hall m Hm) as [->|Hma]; [|exact Hma]. split; [exact Hb|].
      unfold inCluster. rewrite bool_decide_eq_true_2 by exact Ecol. reflexivity. }
    destruct Hin as [Hma Hcl].
    apply (HP _ m Hma Hclear). unfold pointsAt. cbn [t_id t_row t_col].
    repeat split; try reflexivity. right. exists color.
    cbn [t_color t_pointsPerBubble t_size t_powerUp]. split; [exact Hcl|].
    split; [reflexivity|]. split; [reflexivity|]. split.
    + apply list_elem_of_lookup in Hseed as [i Hi]. apply lookup_lt_Some in Hi. lia.
    + destruct hasRainbow; discriminate.
Qed.

(** The bubble a candidate stands for can be hit. *)
Lemma getAllReachableClusters_sound `{Host} (st : State) :
  ComparisonSort (@array_sort _) ->
  Forall (fun c => exists m, m ∈ bubbles st /\ b_active m = true
                     /\ isPathClear (anchorPos st) (bubbles st) m = true /\ pointsAt c m)
    (getAllReachableClusters st).
Proof.
  intros Hsort. unfold getAllReachableClusters.
  apply (fold_left_invariant _ (Forall _)); [|apply Forall_nil_2].
  intros allClusters color _ Hacc.
  apply (fold_left_invariant _ (fun acc => Forall _ acc.2)); [|exact Hacc].
  intros acc b Hb Hacc'. apply visitBubble_sound; [exact Hsort|exact Hb| |exact Hacc'].
  intros c m Hm Hclear Hpt. apply elem_of_filter_bool in Hm as [Hm Ha].
  exists m. auto.
Qed.

(** X17. Every target the enumerator lists can be hit: each candidate of
    [getAllReachableClusters] carries the id, the row and the column of an
    active bubble of the board that passes the line-of-sight check from the
    anchor, and that bubble is a bomb (for a bomb candidate) or a bubble of
    the candidate's colour or a rainbow; so a board on which no active bubble
    passes the check yields no candidate. *)
Theorem every_candidate_is_hittable `{Host} (st : State) :
  ComparisonSort (@array_sort _) ->
  (forall c, c ∈ getAllReachableClusters st ->
     exists m, m ∈ bubbles st /\ b_active m = true
               /\ isPathClear (anchorPos st) (bubbles st) m = true /\ pointsAt c m)
  /\ ((forall m, m ∈ bubbles st -> b_active m = true ->
         isPathClear (anchorPos st) (bubbles st) m = false) ->
      getAllReachableClusters st = []).
Proof.
  intros Hsort. pose proof (getAllReachableClusters_sound st Hsort) as Hall.
  split.
  - intros c Hc. apply (proj1 (Forall_forall _ _) Hall c Hc).
  - intros Hnone. destruct (getAllReachableClusters st) as [|c l]; [reflexivity|].
    apply Forall_cons in Hall as [(m & Hm & Ha & Hclear & _) _].
    rewrite (Hnone m Hm Ha) in Hclear. discriminate.
Qed.

Lemma every_candidate_is_hittable_witness :
  exists m, m ∈ bubbles bombBesideRed /\ b_active m = true
            /\ isPathClear (anchorPos bombBesideRed) (bubbles bombBesideRed) m = true
            /\ pointsAt (mkCandidate "0-2-1-0.0" "red" 2 0 2 100 "Center" None) m.
Proof.
  apply (proj1 (@every_candidate_is_hittable exampleHost bombBesideRed exampleHost_sorts)).
  apply list_elem_of_In. vm_compute. left. reflexivity.
Defined.

(** X18. Whenever the advisor fails, the player is still sent to a bubble
    that can be hit: the local fallback computed from the candidates of the
    board names the row and the column of an active bubble that passes the
    line-of-sight check, as soon as the enumerator lists a candidate; with no
    candidate it names no target. *)
Theorem fallback_aims_at_a_hittable_bubble `{Host} (st : State) (msg : string) :
  ComparisonSort (@array_sort _) ->
  let h := getBestLocalTarget (getAllReachableClusters st) msg in
  (getAllReachableClusters st <> [] ->
     exists m, m ∈ bubbles st /\ b_active m = true
               /\ isPathClear (anchorPos st) (bubbles st) m = true
               /\ targetRow h = Some (numberOfZ (b_row m))
               /\ targetCol h = Some (numberOfZ (b_col m)))
  /\ (getAllReachableClusters st = [] -> targetRow h = None /\ targetCol h = None).
Proof.
  intros Hsort h. subst h. pose proof (getAllReachableClusters_sound st Hsort) as Hall.
  unfold getBestLocalTarget. destruct (getAllReachableClusters st) as [|c0 l] eqn:Hlist.
  - split; [intros Hne; contradiction|]. intros _. split; reflexivity.
  - split; [|discriminate]. intros _.
    destruct (Hsort _ compareTargets (c0 :: l)) as [Hperm _].
    destruct (array_sort compareTargets (c0 :: l)) as [|best rest] eqn:Hsorted.
    + apply Permutation_nil in Hperm. discriminate Hperm.
    + assert (Hbest : best ∈ c0 :: l) by (rewrite <- Hperm; left).
      destruct (proj1 (Forall_forall _ _) Hall best Hbest)
        as (m & Hm & Ha & Hclear & Hid & Hrow & Hcol & _).
      exists m. cbn [hintFor targetRow targetCol]. rewrite Hrow, Hcol. auto.
Qed.

Lemma fallback_aims_at_a_hittable_bubble_witness :
  exists m, m ∈ bubbles bombAndBlue /\ b_active m = true
            /\ isPathClear (anchorPos bombAndBlue) (bubbles bombAndBlue) m = true
            /\ targetRow (@getBestLocalTarget exampleHost
                            (@getAllReachableClusters exampleHost bombAndBlue) "none")
               = Some (numberOfZ (b_row m))
            /\ targetCol (@getBestLocalTarget exampleHost
                            (@getAllReachableClusters exampleHost bombAndBlue) "none")
               = Some (numberOfZ (b_col m)).
Proof.
  apply (proj1 (@fallback_aims_at_a_hittable_bubble exampleHost bombAndBlue "none"
                  exampleHost_sorts)).
  vm_compute. discriminate.
Defined.

(** *** Nothing reachable is overlooked *)

Lemma uniqueColors_fold (bs : list Bubble) :
  forall seen color,
    color ∈ seen \/ (exists b, b ∈ bs /\ b_color b = color) ->
    color ∈ fold_left
              (fun seen b => if bool_decide (b_color b ∈ seen) then seen else seen ++ [b_color b])
              bs seen.
Proof.
  induction bs as [|b bs IH]; intros seen color Hc; cbn [fold_left].
  - destruct Hc as [Hc|(b & Hb & _)]; [exact Hc|inversion Hb].
  - apply IH. destruct Hc as [Hc|(b' & Hb' & Hcol)].
    + left. case_bool_decide; [exact Hc|]. apply elem_of_app. left. exact Hc.
    + apply elem_of_cons in Hb' as [->|Hb']; [|right; eauto].
      left. case_bool_decide as Hin; [congruence|].
      apply elem_of_app. right. apply list_elem_of_singleton. auto.
Qed.

Lemma uniqueColors_has (bs : list Bubble) (b : Bubble) : b ∈ bs -> b_color b ∈ uniqueColors bs.
Proof. intros Hb. apply uniqueColors_fold. right. eauto. Qed.

Lemma same_id_same_bubble (bs : list Bubble) (x y : Bubble) :
  NoDup (b_id <$> bs) -> x ∈ bs -> y ∈ bs -> b_id x = b_id y -> x = y.
Proof.
  intros Hnd Hx Hy Hid. apply list_elem_of_lookup in Hx as [i Hi].
  apply list_elem_of_lookup in Hy as [j Hj].
  assert (Heq : (i, x) = (j, y)).
  { apply (refs_id_inj bs); [exact Hnd| | |exact Hid]; apply elem_of_refs; assumption. }
  congruence.
Qed.

(** The ids the breadth-first loop marks are those it was given and those of
    the bubbles it has queued or collected. *)
Lemma clusterLoop_visited (activeBubbles : list Bubble) (color : BubbleColor)
    (visited : gset string) (b : Bubble) fuel clusterMembers visited' hasRainbow :
  clusterLoop fuel activeBubbles color [b] (visited ∪ {[ b_id b ]}) [] false
  = Some (clusterMembers, visited', hasRainbow) ->
  forall id, id ∈ visited' ->
    id ∈ visited \/ exists m, m ∈ clusterMembers /\ b_id m = id.
Proof.
  intros Hloop.
  assert (Hstep : forall curr rest v members (hr : bool),
            (forall id, id ∈ v ->
               id ∈ visited \/ exists m, m ∈ (curr :: rest) ++ members /\ b_id m = id) ->
            let neighbors := clusterNeighbors activeBubbles color v curr in
            forall id, id ∈ v ∪ list_to_set (b_id <$> neighbors) ->
              id ∈ visited
              \/ exists m, m ∈ (rest ++ neighbors) ++ (members ++ [curr]) /\ b_id m = id).
  { intros curr rest v members hr HI neighbors id' Hid'.
    apply elem_of_union in Hid' as [Hv|Hn].
    - destruct (HI id' Hv) as [H|(m & Hm & Hmid)]; [left; exact H|]. right. exists m.
      split; [|exact Hmid]. rewrite !elem_of_app. rewrite elem_of_app in Hm.
      destruct Hm as [Hm|Hm]; [|tauto].
      apply elem_of_cons in Hm as [->|Hm]; [right; right; apply list_elem_of_singleton; auto|].
      tauto.
    - apply elem_of_list_to_set, list_elem_of_fmap in Hn as (m & -> & Hm). right. exists m.
      split; [|reflexivity]. rewrite !elem_of_app. tauto. }
  assert (Hinit : forall id, id ∈ visited ∪ {[ b_id b ]} ->
            id ∈ visited \/ exists m, m ∈ [b] ++ [] /\ b_id m = id).
  { intros id' Hid'. apply elem_of_union in Hid' as [Hv|Hb]; [left; exact Hv|].
    apply elem_of_singleton in Hb as ->. right. exists b. split; [left|reflexivity]. }
  pose proof (clusterLoop_invariant activeBubbles color
                (fun queue v members _ =>
                   forall id, id ∈ v ->
                     id ∈ visited \/ exists m, m ∈ queue ++ members /\ b_id m = id)
                Hstep fuel [b] (visited ∪ {[ b_id b ]}) [] false clusterMembers visited'
                hasRainbow Hinit Hloop) as Hend.
  exact Hend.
Qed.

Lemma visitBubble_grows `{Host} (anchor : Point) (width : Q) (bs activeBubbles : list Bubble)
    (color : BubbleColor) (acc : gset string * list TargetCandidate) (b : Bubble) :
  acc.2 <> [] -> (visitBubble anchor width bs activeBubbles color acc b).2 <> [].
Proof.
  destruct acc as [visited allClusters]. cbn [snd]. intros Hne. unfold visitBubble.
  destruct (isBomb b && negb (bool_decide (b_id b ∈ visited))).
  - destruct (isPathClear anchor bs b); [|exact Hne]. cbn [snd].
    destruct allClusters; [contradiction|discriminate].
  - destruct (negb (bool_decide (b_color b = color)) || bool_decide (b_id b ∈ visited));
      [exact Hne|].
    destruct (clusterLoop _ _ _ _ _ _ _) as [[[members visited'] hasRainbow]|]; [|exact Hne].
    cbn [snd]. destruct (clusterCandidate _ _ _ _ _ _); [|exact Hne].
    destruct allClusters; [contradiction|discriminate].
Qed.

(** A cluster with a member that passes the line-of-sight check gives a
    candidate. *)
Lemma clusterCandidate_some `{Host} (anchor : Point) (width : Q) (bs : list Bubble)
    (color : BubbleColor) (members : list Bubble) (hasRainbow : bool) (m : Bubble) :
  ComparisonSort (@array_sort _) ->
  m ∈ members -> isPathClear anchor bs m = true ->
  clusterCandidate anchor width bs color members hasRainbow <> None.
Proof.
  intros Hsort Hm Hclear. unfold clusterCandidate.
  destruct (Hsort _ (fun a b0 : Bubble => (b_y b0 - b_y a)%Q) members) as [Hperm _].
  destruct (List.find _ _) eqn:Hfind; [discriminate|].
  apply find_none_iff with (x := m) in Hfind; [congruence|]. rewrite Hperm. exact Hm.
Qed.

(** What the scan of a colour keeps true: a bubble that can be hit and whose
    id is marked has given a candidate. *)
Lemma visitBubble_marks `{Host} (anchor : Point) (width : Q) (bs activeBubbles : list Bubble)
    (color : BubbleColor) (acc : gset string * list TargetCandidate) (b : Bubble) :
  ComparisonSort (@array_sort _) ->
  (forall x y, x ∈ activeBubbles -> y ∈ activeBubbles -> b_id x = b_id y -> x = y) ->
  b ∈ activeBubbles ->
  (forall x, x ∈ activeBubbles -> b_id x ∈ acc.1 -> isPathClear anchor bs x = true ->
     acc.2 <> []) ->
  let acc' := visitBubble anchor width bs activeBubbles color acc b in
  (forall x, x ∈ activeBubbles -> b_id x ∈ acc'.1 -> isPathClear anchor bs x = true ->
     acc'.2 <> [])
  /\ (b_color b = color -> isPathClear anchor bs b = true -> acc'.2 <> []).
Proof.
  intros Hsort Hid Hb HJ. destruct acc as [visited allClusters]. cbn [fst snd] in HJ.
  cbn zeta. unfold visitBubble.
  destruct (isBomb b && negb (bool_decide (b_id b ∈ visited))) eqn:Ebomb.
  - destruct (isPathClear anchor bs b) eqn:Eclear; cbn [fst snd].
    + split; intros; destruct allClusters; discriminate.
    + split; [exact HJ|]. intros _ Hc. discriminate Hc.
  - destruct (negb (bool_decide (b_color b = color)) || bool_decide (b_id b ∈ visited)) eqn:Eskip.
    + cbn [fst snd]. split; [exact HJ|]. intros Hcol Hclear.
      apply (HJ b Hb); [|exact Hclear].
      apply orb_true_iff in Eskip as [Ec|Ev].
      * apply negb_true_iff, bool_decide_eq_false in Ec. contradiction.
      * apply bool_decide_eq_true in Ev. exact Ev.
    + destruct (clusterLoop _ _ _ _ _ _ _) as [[[members visited'] hasRainbow]|] eqn:Hloop.
      * cbn [fst snd].
        destruct (clusterLoop_members _ _ _ _ _ _ _ _ Hloop) as [Hseed Hall].
        assert (Hsome : forall x, x ∈ members -> isPathClear anchor bs x = true ->
                   match clusterCandidate anchor width bs color members hasRainbow with
                   | Some c => allClusters ++ [c]
                   | None => allClusters
                   end <> []).
        { intros x Hx Hclear.
          pose proof (clusterCandidate_some anchor width bs color members hasRainbow x
                        Hsort Hx Hclear) as Hc.
          destruct (clusterCandidate _ _ _ _ _ _); [|contradiction].
          destruct allClusters; discriminate. }
        split.
        -- intros x Hx Hv Hclear.
           destruct (clusterLoop_visited _ _ _ _ _ _ _ _ Hloop _ Hv) as [Hold|(m & Hm & Hmid)].
           ++ pose proof (HJ x Hx Hold Hclear) as Hne.
              destruct (clusterCandidate _ _ _ _ _ _); [|exact Hne].
              destruct allClusters; discriminate.
           ++ assert (Hma : m ∈ activeBubbles).
              { destruct (Hall m Hm) as [->|[Hma _]]; assumption. }
              assert (m = x) as -> by (apply Hid; assumption).
              apply (Hsome x Hm Hclear).
        -- intros _ Hclear. apply (Hsome b Hseed Hclear).
      * destruct (clusterLoop_from_seed activeBubbles color (visited ∪ {[ b_id b ]}) b)
          as (m' & v' & h' & Hsome). congruence.
Qed.

Lemma fold_left_split {A B} (f : A -> B -> A) (l1 l2 : list B) (x : B) (init : A) :
  fold_left f (l1 ++ x :: l2) init = fold_left f l2 (f (fold_left f l1 init) x).
Proof. rewrite fold_left_app. reflexivity. Qed.

(** The scan of the colour of a bubble that can be hit leaves a candidate. *)
Lemma scan_finds `{Host} (anchor : Point) (width : Q) (bs activeBubbles : list Bubble)
    (allClusters : list TargetCandidate) (m : Bubble) :
  ComparisonSort (@array_sort _) ->
  (forall x y, x ∈ activeBubbles -> y ∈ activeBubbles -> b_id x = b_id y -> x = y) ->
  m ∈ activeBubbles -> isPathClear anchor bs m = true ->
  (fold_left (visitBubble anchor width bs activeBubbles (b_color m)) activeBubbles
     (∅, allClusters)).2 <> [].
Proof.
  intros Hsort Hid Hm Hclear.
  assert (Hgen : forall l1 l2, activeBubbles = l1 ++ m :: l2 ->
            forall l, (forall x, x ∈ l -> x ∈ activeBubbles) ->
            forall acc,
              (forall x, x ∈ activeBubbles -> b_id x ∈ acc.1 ->
                 isPathClear anchor bs x = true -> acc.2 <> []) ->
              let acc' :=
                fold_left (visitBubble anchor width bs activeBubbles (b_color m)) l acc in
              forall x, x ∈ activeBubbles -> b_id x ∈ acc'.1 ->
                isPathClear anchor bs x = true -> acc'.2 <> []).
  { intros _ _ _ l. induction l as [|y l IH]; intros Hl acc HJ; [exact HJ|].
    cbn [fold_left]. apply IH; [intros x Hx; apply Hl; right; exact Hx|].
    apply (visitBubble_marks anchor width bs activeBubbles (b_color m) acc y Hsort Hid);
      [apply Hl; left|exact HJ]. }
  apply list_elem_of_split in Hm as Hsplit. destruct Hsplit as (l1 & l2 & Hsplit).
  rewrite Hsplit at 2. rewrite fold_left_split.
  set (acc1 := fold_left (visitBubble anchor width bs activeBubbles (b_color m)) l1
                 (∅, allClusters)).
  assert (HJ1 : forall x, x ∈ activeBubbles -> b_id x ∈ acc1.1 ->
                  isPathClear anchor bs x = true -> acc1.2 <> []).
  { subst acc1. apply (Hgen l1 l2 Hsplit).
    - intros x Hx. rewrite Hsplit. apply elem_of_app. left. exact Hx.
    - intros x _ Hv. cbn [fst] in Hv. set_solver. }
  destruct (visitBubble_marks anchor width bs activeBubbles (b_color m) acc1 m Hsort Hid Hm HJ1)
    as [_ Hfound].
  specialize (Hfound eq_refl Hclear).
  apply (fold_left_invariant _ (fun acc => acc.2 <> [])); [|exact Hfound].
  intros acc y _ Hne. apply visitBubble_grows. exact Hne.
Qed.

(** X19. Nothing that can be hit is overlooked: with distinct ids in the
    store, as soon as one active bubble passes the line-of-sight check from
    the anchor, the enumerator lists at least one candidate (the advisor and
    the fallback are never told that there is no move while there is one). *)
Theorem reachable_bubble_gives_a_candidate `{Host} (st : State) (m : Bubble) :
  ComparisonSort (@array_sort _) ->
  NoDup (b_id <$> bubbles st) ->
  m ∈ bubbles st -> b_active m = true ->
  isPathClear (anchorPos st) (bubbles st) m = true ->
  getAllReachableClusters st <> [].
Proof.
  intros Hsort Hnd Hm Ha Hclear. unfold getAllReachableClusters.
  set (activeBubbles := List.filter b_active (bubbles st)).
  assert (Hma : m ∈ activeBubbles) by (apply elem_of_filter_bool; auto).
  assert (Hid : forall x y, x ∈ activeBubbles -> y ∈ activeBubbles -> b_id x = b_id y -> x = y).
  { intros x y Hx Hy. apply elem_of_filter_bool in Hx as [Hx _].
    apply elem_of_filter_bool in Hy as [Hy _]. apply (same_id_same_bubble _ _ _ Hnd Hx Hy). }
  pose proof (uniqueColors_has activeBubbles m Hma) as Hcol.
  apply list_elem_of_split in Hcol as (l1 & l2 & Hsplit). rewrite Hsplit, fold_left_split.
  apply (fold_left_invariant _ (fun all => all <> [])).
  - intros all color _ Hne.
    apply (fold_left_invariant _ (fun acc => acc.2 <> [])); [|exact Hne].
    intros acc y _ Hne'. apply visitBubble_grows. exact Hne'.
  - apply scan_finds; assumption.
Qed.

Lemma reachable_bubble_gives_a_candidate_witness :
  exists c rest, @getAllReachableClusters exampleHost bombBesideRed = c :: rest.
Proof.
  pose proof (@reachable_bubble_gives_a_candidate exampleHost bombBesideRed
                (gridBubble "0-3-1-0.1" 0 3 Red (Some Bomb)) exampleHost_sorts) as Hne.
  destruct (@getAllReachableClusters exampleHost bombBesideRed) as [|c rest].
  - exfalso. apply Hne; [| | | |reflexivity].
    + apply (bool_decide_unpack _). vm_compute. reflexivity.
    + right. left.
    + reflexivity.
    + vm_compute. reflexivity.
  - exists c, rest. reflexivity.
Defined.

(** ** The client as a whole *)









(** ** Hand biometrics *)

Lemma fold_add (g : Q * Q -> Q) (l : list (Q * Q)) :
  forall a, (fold_left (fun acc p => acc + g p) l a
             == a + fold_left (fun acc p => acc + g p) l 0)%Q.
Proof.
  induction l as [|x l IH]; intros a; cbn [fold_left]; [ring|].
  rewrite (IH (a + g x)%Q), (IH (0 + g x)%Q). ring.
Qed.

Lemma totalDiff_cons (s c : Q) (stored current : Ratios) :
  (totalDiff (s :: stored) (c :: current) == Qabs (s - c) + totalDiff stored current)%Q.
Proof.
  unfold totalDiff. cbn [combine fold_left fst snd].
  rewrite (fold_add (fun p => Qabs (p.1 - p.2))). ring.
Qed.

Lemma totalDiff_nil_r (stored : Ratios) : totalDiff stored [] = 0%Q.
Proof. unfold totalDiff. destruct stored; reflexivity. Qed.

Lemma totalDiff_nonneg (stored : Ratios) : forall current, (0 <= totalDiff stored current)%Q.
Proof.
  induction stored as [|s stored IH]; intros [|c current];
    try (rewrite ?totalDiff_nil_r; apply Qle_refl).
  rewrite totalDiff_cons.
  pose proof (Qabs_nonneg (s - c)). pose proof (IH current). lra.
Qed.



Lemma Qmax_0_spec (x : Q) :
  (0 <= Qmax 0 x)%Q /\ (x <= Qmax 0 x)%Q /\ (Qmax 0 x = 0%Q \/ Qmax 0 x = x).
Proof.
  unfold Qmax. destruct (Qle_bool 0 x) eqn:E.
  - apply Qle_bool_iff in E. split; [exact E|]. split; [apply Qle_refl|right; reflexivity].
  - apply Qle_bool_false in E. split; [apply Qle_refl|].
    split; [apply Qlt_le_weak; exact E|left; reflexivity].
Qed.

Lemma verifyHand_value (stored current : Ratios) :
  length stored = length current -> stored <> [] ->
  verifyHand stored current
  = Finite (Qmax 0 (1 - totalDiff stored current / inject_Z (Z.of_nat (length stored)) * 5)).
Proof.
  intros Hlen Hne. unfold verifyHand. rewrite Hlen, Nat.eqb_refl. cbn [negb].
  destruct stored; [contradiction|]. rewrite <- Hlen. reflexivity.
Qed.

Lemma length_pos_Q (stored : Ratios) : stored <> [] -> (0 < inject_Z (Z.of_nat (length stored)))%Q.
Proof.
  intros Hne. change 0%Q with (inject_Z 0). rewrite <- Zlt_Qlt.
  destruct stored; [contradiction|]. cbn [length]. lia.
Qed.

(** X21. The threshold of the hand scan.  A hand is accepted only if the
    two signatures have the same number of ratios, at least one, and the
    ratios differ by less than 0.0401 on average; it is accepted as soon as,
    the numbers of ratios being equal and not zero, they differ by 0.0399 at
    most on average.  (The test [similarity > 0.8] sits at an average of
    0.04; what it answers for an average within a quarter of a percent of
    0.04 depends on how the sum and the quotient are rounded, and is not
    said.)  Signatures of different lengths score 0, and two signatures
    without ratios score NaN: neither is accepted. *)
Theorem hand_acceptance_threshold (stored current : Ratios) :
  let n := inject_Z (Z.of_nat (length stored)) in
  (handAccepted (verifyHand stored current) = true ->
     length stored = length current /\ stored <> []
     /\ (totalDiff stored current < (401 # 10000) * n)%Q)
  /\ (length stored = length current /\ stored <> []
      /\ (totalDiff stored current <= (399 # 10000) * n)%Q ->
      handAccepted (verifyHand stored current) = true)
  /\ (length stored <> length current ->
      verifyHand stored current = Finite 0
      /\ handAccepted (verifyHand stored current) = false)
  /\ (stored = [] /\ current = [] ->
      verifyHand stored current = NaN /\ handAccepted (verifyHand stored current) = false).
Proof.
  intros n.
  assert (Hiff : handAccepted (verifyHand stored current) = true
                 <-> length stored = length current /\ stored <> []
                     /\ (totalDiff stored current < (4 # 100) * n)%Q).
  { subst n. destruct (Nat.eq_dec (length stored) (length current)) as [Hlen|Hlen].
    - destruct stored as [|s stored].
      + unfold verifyHand. rewrite <- Hlen. cbn. split; [discriminate|]. intros (_ & H & _).
        contradiction.
      + assert (Hne : s :: stored <> []) by discriminate.
        rewrite (verifyHand_value _ _ Hlen Hne). unfold handAccepted. rewrite Qltb_lt.
        pose proof (length_pos_Q _ Hne) as Hn.
        pose proof (totalDiff_nonneg (s :: stored) current) as Ht.
        set (n := inject_Z (Z.of_nat (length (s :: stored)))) in *.
        set (t := totalDiff (s :: stored) current) in *.
        assert (Hdiv : (t / n * n == t)%Q) by (field; lra).
        assert (Hd0 : (0 <= t / n)%Q) by (apply Qle_shift_div_l; [exact Hn|lra]).
        destruct (Qmax_0_spec (1 - t / n * 5)) as (H0 & Hx & Hc).
        split.
        * intros Hacc. split; [exact Hlen|]. split; [exact Hne|].
          assert (Hq : (8 # 10 < 1 - t / n * 5)%Q).
          { destruct Hc as [Hc|Hc]; rewrite Hc in Hacc; [|exact Hacc].
            exfalso. revert Hacc. apply Qle_not_lt. discriminate. }
          assert (Havg : (t / n < 4 # 100)%Q) by lra.
          rewrite <- Hdiv. apply Qmult_lt_compat_r; [exact Hn|exact Havg].
        * intros (_ & _ & Hlt).
          assert (Havg : (t / n < 4 # 100)%Q) by (apply Qlt_shift_div_r; [exact Hn|exact Hlt]).
          eapply Qlt_le_trans; [|exact Hx]. lra.
    - unfold verifyHand. apply Nat.eqb_neq in Hlen as Hneq. rewrite Hneq. cbn.
      split; [discriminate|]. intros (H & _). contradiction. }
  split; [|split; [|split]].
  - intros Hacc. apply Hiff in Hacc as (Hlen & Hne & Hlt).
    split; [exact Hlen|]. split; [exact Hne|].
    pose proof (length_pos_Q _ Hne) as Hn. fold n in Hn. nra.
  - intros (Hlen & Hne & Hle). apply Hiff.
    split; [exact Hlen|]. split; [exact Hne|].
    pose proof (length_pos_Q _ Hne) as Hn. fold n in Hn. nra.
  - intros Hlen. unfold verifyHand. apply Nat.eqb_neq in Hlen. rewrite Hlen.
    split; reflexivity.
  - intros [-> ->]. split; reflexivity.
Qed.



Lemma sumSq_cons (s c : Q) (stored current : list Q) :
  (sumSq (s :: stored) (c :: current) == Qsq (s - c) + sumSq stored current)%Q.
Proof.
  unfold sumSq. cbn [combine fold_left fst snd].
  rewrite (fold_add (fun p => Qsq (p.1 - p.2))). ring.
Qed.

Lemma sumSq_nil_r (stored : list Q) : sumSq stored [] = 0%Q.
Proof. unfold sumSq. destruct stored; reflexivity. Qed.

Lemma sumSq_sym (stored : list Q) :
  forall current, (sumSq stored current == sumSq current stored)%Q.
Proof.
  induction stored as [|s stored IH]; intros [|c current];
    try (rewrite ?sumSq_nil_r; reflexivity).
  rewrite !sumSq_cons, (IH current). unfold Qsq. ring.
Qed.

Lemma sumSq_self (stored : list Q) : (sumSq stored stored == 0)%Q.
Proof.
  induction stored as [|s stored IH]; [reflexivity|].
  rewrite sumSq_cons, IH. unfold Qsq. ring.
Qed.

Lemma sumSq_extra (stored : list Q) :
  forall current extra, (length stored <= length current)%nat ->
    sumSq stored (current ++ extra) = sumSq stored current.
Proof.
  intros current extra Hlen. unfold sumSq. f_equal.
  revert current Hlen. induction stored as [|s stored IH]; intros [|c current] Hlen;
    cbn [length] in Hlen; try lia; try reflexivity.
  cbn [app combine]. f_equal. apply IH. lia.
Qed.

(** X23. The voice check compares the phrase and the bands that both
    signatures have, and nothing else: it does not depend on which print is
    the stored one, a print matches itself, bands beyond the length of the
    shorter signature are ignored, and a print without bands matches every
    voice that says the phrase. *)
Theorem voice_check_compares_common_bands (normalizePhrase : string -> string)
    (stored current : VoicePrint) :
  verifyVoice normalizePhrase stored current = verifyVoice normalizePhrase current stored
  /\ verifyVoice normalizePhrase stored stored = true
  /\ (forall extra, (length (signature stored) <= length (signature current))%nat ->
        verifyVoice normalizePhrase stored
          (mkVoicePrint (signature current ++ extra) (phrase current))
        = verifyVoice normalizePhrase stored current)
  /\ (normalizePhrase (phrase stored) = normalizePhrase (phrase current) ->
      signature stored = [] \/ signature current = [] ->
      verifyVoice normalizePhrase stored current = true).
Proof.
  unfold verifyVoice. split; [|split; [|split]].
  - rewrite (String.eqb_sym (normalizePhrase (phrase stored))).
    destruct (String.eqb _ _); [|reflexivity]. cbn [negb].
    apply Qltb_comp; [apply sumSq_sym|reflexivity].
  - rewrite String.eqb_refl. cbn [negb]. apply Qltb_lt. rewrite sumSq_self. reflexivity.
  - intros extra Hlen. cbn [signature phrase]. rewrite (sumSq_extra _ _ _ Hlen). reflexivity.
  - intros Hp Hs. rewrite Hp, String.eqb_refl. cbn [negb]. apply Qltb_lt.
    destruct Hs as [-> | ->]; [|rewrite sumSq_nil_r]; reflexivity.
Qed.

(** ** What a clear path guarantees *)

(** If [u] is at least [a] long and [v] at most [b] long, [u + v] is at least
    [a - b] long (on the squares). *)
Lemma dist_triangle (a b ux uy vx vy : Q) :
  (0 < b)%Q -> (b <= a)%Q ->
  (a * a <= ux * ux + uy * uy)%Q -> (vx * vx + vy * vy <= b * b)%Q ->
  ((a - b) * (a - b) <= (ux + vx) * (ux + vx) + (uy + vy) * (uy + vy))%Q.
Proof.
  intros Hb Hab Hu Hv.
  pose proof (Qsquare_nonneg (b * ux + a * vx)) as H1.
  pose proof (Qsquare_nonneg (b * uy + a * vy)) as H2.
  assert (H3 : (0 <= b * (a - b) * (ux * ux + uy * uy - a * a))%Q).
  { apply Qmult_le_0_compat; [apply Qmult_le_0_compat|]; lra. }
  assert (H4 : (0 <= a * (a - b) * (b * b - (vx * vx + vy * vy)))%Q).
  { apply Qmult_le_0_compat; [apply Qmult_le_0_compat|]; lra. }
  assert (Hab0 : (0 < a * b)%Q) by (apply Qmult_lt_0_compat; lra).
  assert (Hmain : (a * b * ((a - b) * (a - b))
                   <= a * b * ((ux + vx) * (ux + vx) + (uy + vy) * (uy + vy)))%Q).
  { assert (Heq : (a * b * ((ux + vx) * (ux + vx) + (uy + vy) * (uy + vy))
                   - a * b * ((a - b) * (a - b))
                   == (b * ux + a * vx) * (b * ux + a * vx)
                      + (b * uy + a * vy) * (b * uy + a * vy)
                      + b * (a - b) * (ux * ux + uy * uy - a * a)
                      + a * (a - b) * (b * b - (vx * vx + vy * vy)))%Q) by ring.
    lra. }
  apply (Qmult_le_l _ _ (a * b) Hab0). exact Hmain.
Qed.

(** The sample of the path check nearest to the point at [t] of the segment
    is at most half a step away. *)
Lemma nearest_sample (t : Q) (steps : Z) :
  (1 <= t * inject_Z steps)%Q -> (t * inject_Z steps <= inject_Z (steps - 3))%Q ->
  let i := Qfloor (t * inject_Z steps + (1 # 2)) in
  1 <= i <= steps - 3
  /\ (- (1 # 2) <= t * inject_Z steps - inject_Z i)%Q
  /\ (t * inject_Z steps - inject_Z i <= 1 # 2)%Q.
Proof.
  intros Hlo Hhi i.
  pose proof (Qfloor_le (t * inject_Z steps + (1 # 2))) as Hfl.
  pose proof (Qlt_floor (t * inject_Z steps + (1 # 2))) as Hfu.
  fold i in Hfl, Hfu. rewrite inject_Z_plus in Hfu. change (inject_Z 1) with 1%Q in Hfu.
  split; [|split; lra].
  split.
  - assert (H : (inject_Z 0 < inject_Z i)%Q) by (change (inject_Z 0) with 0%Q; lra).
    rewrite <- Zlt_Qlt in H. lia.
  - assert (H : (inject_Z i < inject_Z (steps - 3) + 1)%Q) by lra.
    change 1%Q with (inject_Z 1) in H. rewrite <- inject_Z_plus, <- Zlt_Qlt in H. lia.
Qed.

(** X24. What a clear path guarantees.  When [isPathClear] accepts a target,
    every point of the segment from the anchor to the target between the
    first sample and the last one checked (the fraction [t] of the way, with
    [1 <= t * steps <= steps - 3]) is at least 1.55 radius (34.1 pixels) from
    the centre of every active bubble other than the target.  Nothing is
    promised on the last three steps before the target, nor, when the target
    is less than three steps away, anywhere. *)
Theorem clear_path_has_clearance (anchor : Point) (bs : list Bubble) (target b : Bubble)
    (t : Q) :
  let dx := (b_x target - px anchor)%Q in
  let dy := (b_y target - py anchor)%Q in
  let steps := ceil_sqrt ((dx * dx + dy * dy) / Qsq (BUBBLE_RADIUS / 2)) in
  isPathClear anchor bs target = true ->
  b ∈ bs -> b_active b = true -> b_id b <> b_id target ->
  (1 <= t * inject_Z steps)%Q -> (t * inject_Z steps <= inject_Z (steps - 3))%Q ->
  (Qsq (BUBBLE_RADIUS * (155 # 100))
   <= dist2 (px anchor + dx * t) (py anchor + dy * t) (b_x b) (b_y b))%Q.
Proof.
  intros dx dy steps Hclear Hb Ha Hid Hlo Hhi.
  destruct (nearest_sample t steps Hlo Hhi) as (Hi & Hel & Heu). cbv zeta in Hi, Hel, Heu.
  set (i := Qfloor (t * inject_Z steps + (1 # 2))) in *.
  assert (Hsteps : 0 < steps) by lia.
  assert (Hsq : (0 < inject_Z steps)%Q)
    by (change 0%Q with (inject_Z 0); rewrite <- Zlt_Qlt; exact Hsteps).
  (* the sample [i] is checked against [b] *)
  unfold isPathClear in Hclear. fold dx dy steps in Hclear.
  rewrite forallb_forall in Hclear.
  specialize (Hclear i ltac:(apply list_elem_of_In, elem_of_seqZ; lia)).
  cbv zeta in Hclear. rewrite forallb_forall in Hclear.
  specialize (Hclear b ltac:(apply list_elem_of_In; exact Hb)). cbv beta in Hclear.
  rewrite Ha in Hclear. cbn [negb orb] in Hclear.
  assert (Hne : String.eqb (b_id b) (b_id target) = false) by (apply String.eqb_neq; exact Hid).
  rewrite Hne in Hclear. cbn [orb] in Hclear.
  apply negb_true_iff, Qltb_ge in Hclear.
  (* the length of the segment *)
  assert (Hlen : (dx * dx + dy * dy <= Qsq (BUBBLE_RADIUS / 2) * Qsq (inject_Z steps))%Q).
  { assert (Hd : (Qsq (BUBBLE_RADIUS / 2) == 121)%Q) by reflexivity.
    destruct (Qlt_le_dec 0 ((dx * dx + dy * dy) / Qsq (BUBBLE_RADIUS / 2))) as [Hpos|Hneg].
    - destruct (ceil_sqrt_spec _ Hpos) as (_ & _ & Hup). fold steps in Hup.
      rewrite Hd in *.
      assert (Hm : (dx * dx + dy * dy == (dx * dx + dy * dy) / 121 * 121)%Q) by (field; lra).
      rewrite Hm, (Qmult_comm 121). apply Qmult_le_compat_r; [exact Hup|lra].
    - rewrite Hd in *. pose proof (Qsquare_nonneg (inject_Z steps)) as Hs2. unfold Qsq.
      assert (Hm : (dx * dx + dy * dy == (dx * dx + dy * dy) / 121 * 121)%Q) by (field; lra).
      assert (H0 : ((dx * dx + dy * dy) / 121 * 121 <= 0)%Q) by nra.
      nra. }
  (* from the sample to the point *)
  set (e := (t - inject_Z i / inject_Z steps)%Q).
  assert (He : (e * inject_Z steps == t * inject_Z steps - inject_Z i)%Q)
    by (subst e; field; lra).
  assert (He2 : (e * e * Qsq (inject_Z steps) <= 1 # 4)%Q).
  { assert (H : (e * e * Qsq (inject_Z steps)
                 == (t * inject_Z steps - inject_Z i) * (t * inject_Z steps - inject_Z i))%Q)
      by (rewrite <- He; unfold Qsq; ring).
    rewrite H. set (z := (t * inject_Z steps - inject_Z i)%Q) in *. nra. }
  assert (Hv : ((dx * e) * (dx * e) + (dy * e) * (dy * e)
                <= (BUBBLE_RADIUS / 4) * (BUBBLE_RADIUS / 4))%Q).
  { assert (Hd : (Qsq (BUBBLE_RADIUS / 2) == 121)%Q) by reflexivity.
    assert (Hq : ((BUBBLE_RADIUS / 4) * (BUBBLE_RADIUS / 4) == 121 # 4)%Q) by reflexivity.
    rewrite Hq. rewrite Hd in Hlen.
    assert (Hs2 : (0 < Qsq (inject_Z steps))%Q) by (unfold Qsq; nra).
    assert (He0 : (0 <= e * e)%Q) by apply Qsquare_nonneg.
    assert (HD0 : (0 <= dx * dx + dy * dy)%Q)
      by (pose proof (Qsquare_nonneg dx); pose proof (Qsquare_nonneg dy); lra).
    assert (Heq : ((dx * e) * (dx * e) + (dy * e) * (dy * e) == (dx * dx + dy * dy) * (e * e))%Q)
      by ring.
    rewrite Heq.
    set (D := (dx * dx + dy * dy)%Q) in *. set (E := (e * e)%Q) in *.
    set (S2 := Qsq (inject_Z steps)) in *.
    assert (Ha1 : ((E * S2) * D <= (1 # 4) * D)%Q)
      by (apply Qmult_le_compat_r; [exact He2|exact HD0]).
    apply (Qmult_le_r _ _ S2 Hs2).
    assert (Heq2 : (D * E * S2 == E * S2 * D)%Q) by ring.
    rewrite Heq2. lra. }
  assert (Hu : ((BUBBLE_RADIUS * (18 # 10)) * (BUBBLE_RADIUS * (18 # 10))
                <= (px anchor + dx * (inject_Z i / inject_Z steps) - b_x b)
                   * (px anchor + dx * (inject_Z i / inject_Z steps) - b_x b)
                   + (py anchor + dy * (inject_Z i / inject_Z steps) - b_y b)
                     * (py anchor + dy * (inject_Z i / inject_Z steps) - b_y b))%Q).
  { exact Hclear. }
  pose proof (dist_triangle (BUBBLE_RADIUS * (18 # 10)) (BUBBLE_RADIUS / 4) _ _ _ _
                ltac:(reflexivity) ltac:(discriminate) Hu Hv) as Htri.
  unfold dist2, Qsq.
  assert (Ha' : ((BUBBLE_RADIUS * (155 # 100)) * (BUBBLE_RADIUS * (155 # 100))
                 == (BUBBLE_RADIUS * (18 # 10) - BUBBLE_RADIUS / 4)
                    * (BUBBLE_RADIUS * (18 # 10) - BUBBLE_RADIUS / 4))%Q) by reflexivity.
  rewrite Ha'. eapply Qle_trans; [exact Htri|]. apply Qle_lteq. right.
  subst e. field. lra.
Qed.

Lemma clear_path_has_clearance_witness :
  let target := gridBubble "1-5-1-0.2" 1 5 Red None in
  let b := gridBubble "0-5-1-0.1" 0 5 Red None in
  (Qsq (BUBBLE_RADIUS * (155 # 100))
   <= dist2 (500 + (b_x target - 500) * (1 # 2)) (580 + (b_y target - 580) * (1 # 2))
        (b_x b) (b_y b))%Q.
Proof.
  intros target b.
  apply (clear_path_has_clearance (mkPoint 500 580) stackedBoard target b (1 # 2)).
  - vm_compute. reflexivity.
  - left.
  - reflexivity.
  - intros H. discriminate H.
  - vm_compute. discriminate.
  - vm_compute. discriminate.
Defined.

(** ** The clusters of the enumerator *)

Lemma clusterInv_step (activeBubbles : list Bubble) (color : BubbleColor)
    (visited : gset string) (b : Bubble) :
  NoDup activeBubbles ->
  forall curr rest v members hr,
    clusterInv activeBubbles color visited b (curr :: rest) v members hr ->
    let neighbors := clusterNeighbors activeBubbles color v curr in
    clusterInv activeBubbles color visited b (rest ++ neighbors)
      (v ∪ list_to_set (b_id <$> neighbors)) (members ++ [curr])
      (hr || existsb isRainbow neighbors).
Proof.
  intros Hnd curr rest v members hr (I1 & I2 & I3 & I4 & I5 & I6) neighbors.
  assert (Hnb : forall n, n ∈ neighbors <->
                  n ∈ activeBubbles /\ (b_id n ∉ v) /\ inCluster color n = true
                  /\ isNeighbor curr n = true).
  { intros n. apply elem_of_clusterNeighbors. }
  assert (Hsame : forall x, x ∈ (rest ++ neighbors) ++ members ++ [curr]
                            <-> x ∈ (curr :: rest) ++ members \/ x ∈ neighbors).
  { intros x. rewrite !elem_of_app, list_elem_of_singleton, elem_of_cons. tauto. }
  assert (Hfresh : forall n, n ∈ neighbors -> n ∉ (curr :: rest) ++ members).
  { intros n Hn Hin. apply Hnb in Hn as (_ & Hv & _). apply Hv, I1. right. eauto. }
  split; [|split; [|split; [|split; [|split]]]].
  - intros id. rewrite elem_of_union, I1, elem_of_list_to_set, list_elem_of_fmap. split.
    + intros [[H|(m & Hm & Hid)]|(n & -> & Hn)]; [left; exact H| |].
      * right. exists m. split; [apply Hsame; left; exact Hm|exact Hid].
      * right. exists n. split; [apply Hsame; right; exact Hn|reflexivity].
    + intros [H|(m & Hm & Hid)]; [left; left; exact H|].
      apply Hsame in Hm as [Hm|Hm]; [left; right; eauto|right; eauto].
  - intros x Hx. apply Hsame in Hx as [Hx|Hx]; [apply I2; exact Hx|].
    apply Hnb in Hx as (Ha & Hv & Hc & Hn).
    apply (linked_step _ _ _ _ curr x); auto.
    + apply I2. left.
    + intros Hvis. apply Hv, I1. left. exact Hvis.
  - intros x y Hx Hy Hc Hn. apply elem_of_union.
    apply elem_of_app in Hx as [Hx|Hx]; [left; apply (I3 x y); assumption|].
    apply list_elem_of_singleton in Hx as ->.
    destruct (decide (b_id y ∈ v)) as [Hv|Hv]; [left; exact Hv|]. right.
    apply elem_of_list_to_set, list_elem_of_fmap. exists y. split; [reflexivity|].
    apply Hnb. auto.
  - assert (Hnn : NoDup neighbors).
    { unfold neighbors, clusterNeighbors.
      apply NoDup_ListNoDup, List.NoDup_filter, NoDup_ListNoDup. exact Hnd. }
    cbn [app] in I4. apply NoDup_cons in I4 as [Hcurr I4].
    apply NoDup_app in I4 as (Hrest & Hdisj & Hmem).
    rewrite elem_of_app in Hcurr.
    apply NoDup_app. split; [|split].
    + apply NoDup_app. split; [exact Hrest|]. split; [|exact Hnn].
      intros x Hx Hn. apply (Hfresh x Hn). apply elem_of_app. left. right. exact Hx.
    + intros x Hx Hin. apply elem_of_app in Hin as [Hin|Hin].
      * apply elem_of_app in Hx as [Hx|Hx]; [apply (Hdisj x Hx Hin)|].
        apply (Hfresh x Hx). apply elem_of_app. right. exact Hin.
      * apply list_elem_of_singleton in Hin as ->.
        apply elem_of_app in Hx as [Hx|Hx]; [tauto|].
        apply (Hfresh curr Hx). left.
    + apply NoDup_app. split; [exact Hmem|]. split; [|apply NoDup_singleton].
      intros x Hx Hin. apply list_elem_of_singleton in Hin as ->. tauto.
  - apply Hsame. left. exact I5.
  - rewrite orb_true_iff, I6, existsb_exists. split.
    + intros [(x & Hx & Hne & Hr)|(n & Hn & Hr)].
      * exists x. split; [apply Hsame; left; exact Hx|auto].
      * apply list_elem_of_In in Hn. exists n. split; [apply Hsame; right; exact Hn|].
        split; [|exact Hr]. intros ->. apply (Hfresh b Hn). exact I5.
    + intros (x & Hx & Hne & Hr). apply Hsame in Hx as [Hx|Hx]; [left; eauto|].
      right. exists x. split; [apply list_elem_of_In; exact Hx|exact Hr].
Qed.

(** X25. The clusters of the enumerator are connected components.  With
    distinct ids among the active bubbles, the breadth-first search started
    at a seed collects exactly the bubbles that a chain of neighbours links to
    the seed through active bubbles of the scanned colour, or rainbows, that
    the scan had not marked before; no bubble is collected twice, so that the
    size of the candidate is the number of bubbles of the cluster; and the
    cluster is tagged as a rainbow cluster exactly when a member other than
    the seed is a rainbow. *)
Theorem cluster_is_a_connected_component (activeBubbles : list Bubble) (color : BubbleColor)
    (visited : gset string) (b : Bubble) :
  NoDup (b_id <$> activeBubbles) -> b ∈ activeBubbles ->
  exists clusterMembers visited' hasRainbow,
    clusterLoop (clusterFuel activeBubbles) activeBubbles color [b] (visited ∪ {[ b_id b ]})
      [] false = Some (clusterMembers, visited', hasRainbow)
    /\ (forall x, x ∈ clusterMembers <-> linked activeBubbles color visited b x)
    /\ NoDup clusterMembers
    /\ (hasRainbow = true
        <-> exists x, x ∈ clusterMembers /\ x <> b /\ isRainbow x = true).
Proof.
  intros Hids Hb.
  destruct (clusterLoop_from_seed activeBubbles color (visited ∪ {[ b_id b ]}) b)
    as (clusterMembers & visited' & hasRainbow & Hloop).
  exists clusterMembers, visited', hasRainbow. split; [exact Hloop|].
  assert (Hnd : NoDup activeBubbles) by (apply (NoDup_fmap_1 b_id); exact Hids).
  assert (Hinit : clusterInv activeBubbles color visited b [b] (visited ∪ {[ b_id b ]}) [] false).
  { split; [|split; [|split; [|split; [|split]]]].
    - intros id. rewrite elem_of_union, elem_of_singleton. split.
      + intros [H| ->]; [left; exact H|]. right. exists b. split; [left|reflexivity].
      + intros [H|(m & Hm & <-)]; [left; exact H|]. right.
        apply list_elem_of_singleton in Hm as ->. reflexivity.
    - intros x Hx. apply list_elem_of_singleton in Hx as ->. apply linked_seed.
    - intros x y Hx. inversion Hx.
    - apply NoDup_singleton.
    - left.
    - split; [discriminate|]. intros (x & Hx & Hne & _).
      apply list_elem_of_singleton in Hx. contradiction. }
  pose proof (clusterLoop_invariant activeBubbles color
                (clusterInv activeBubbles color visited b)
                (clusterInv_step activeBubbles color visited b Hnd)
                _ _ _ _ _ _ _ _ Hinit Hloop) as (I1 & I2 & I3 & I4 & I5 & I6).
  cbn [app] in *.
  destruct (clusterLoop_members _ _ _ _ _ _ _ _ Hloop) as [_ Hall].
  split; [|split; [exact I4|exact I6]].
  intros x. split; [apply I2|].
  induction 1 as [|x y Hx IH Hy Hv Hc Hn]; [exact I5|].
  pose proof (I3 x y IH Hy Hc Hn) as Hvis. apply I1 in Hvis as [Hvis|(m & Hm & Hid)];
    [contradiction|].
  assert (Hma : m ∈ activeBubbles) by (destruct (Hall m Hm) as [->|[Hma _]]; assumption).
  assert (m = y) as <-; [|exact Hm].
  apply list_elem_of_lookup in Hma as [i Hi]. apply list_elem_of_lookup in Hy as [j Hj].
  assert (i = j) as ->.
  { apply (NoDup_lookup _ i j (b_id m) Hids); rewrite list_lookup_fmap.
    - rewrite Hi. reflexivity.
    - rewrite Hj, Hid. reflexivity. }
  congruence.
Qed.

Lemma cluster_is_a_connected_component_witness :
  exists clusterMembers,
    (forall x, x ∈ clusterMembers
               <-> linked stackedBoard Red ∅ (gridBubble "0-5-1-0.1" 0 5 Red None) x)
    /\ NoDup clusterMembers.
Proof.
  destruct (cluster_is_a_connected_component stackedBoard Red ∅
              (gridBubble "0-5-1-0.1" 0 5 Red None))
    as (members & visited' & hasRainbow & _ & Hmem & Hnd & _).
  - apply (bool_decide_unpack _). vm_compute. reflexivity.
  - left.
  - exists members. split; assumption.
Defined.
